(** * auto-pts: the event-wait and multi-party synchronisation engine

    A shallow embedding of [autopts/ptsprojects/stack.py]: the polling waits
    over event queues and facade state, the [SynchPoint] / [SynchElem] /
    [Synch] rendezvous protocol, the procedure-completion predicates and the
    [CORE] event-queue reset.

    Python objects that are shared and mutated (sync points, completion
    signals, barriers, the registry) live in an explicit heap and are named
    by their address.  Threads other than the one being followed are an
    environment: a schedule of what the polling thread sees at each poll, or
    of heap transitions taken while the thread is blocked.

    The facades that keep their state in plain fields ([Gap], [L2cap],
    [Gatt], [GattCl], [Stack.is_svc_supported]) are embedded as functions
    from the state before a call to the state after it. *)

From Stdlib Require Import ZArith Bool List Lia.
From stdpp Require Import gmap strings list fin_maps.

Open Scope Z_scope.

(** ** Outcomes of a call *)

(** The exceptions the embedded code can meet. [GlobalEnd] is what
    [raise_on_global_end] raises; [BrokenBarrierError] is raised by
    [threading.Barrier], [ValueError] by [list.remove] and [time.sleep],
    [AttributeError] by a method call on [None]. [DanglingRef] has no Python counterpart: it marks
    a heap in which an address names no object. *)
Inductive exn : Type :=
| GlobalEnd
| BrokenBarrierError
| ValueError
| AttributeError
| DanglingRef.

(** A call returns a value, raises, or is still waiting when the schedule
    of the environment ends. *)
Inductive outcome (A : Type) : Type :=
| Returned (a : A)
| Raised (e : exn)
| Pending.

Arguments Returned {A} a.
Arguments Raised {A} e.
Arguments Pending {A}.

(** ** Python values held in event queues *)

#[warnings="-register-all"]
Inductive PyVal : Type :=
| PNone
| PBool (b : bool)
| PInt (z : Z)
| PBytes (bs : list Z)
| PTuple (vs : list PyVal).

(** [bool(v)] *)
Definition truthy (v : PyVal) : bool :=
  match v with
  | PNone => false
  | PBool b => b
  | PInt z => negb (z =? 0)
  | PBytes bs => match bs with [] => false | _ => true end
  | PTuple vs => match vs with [] => false | _ => true end
  end.

(** [x == y]: [bool] is a subclass of [int], so [True == 1]; tuples compare
    element by element. *)
Fixpoint py_eq (x y : PyVal) : bool :=
  match x, y with
  | PNone, PNone => true
  | PBool a, PBool b => Bool.eqb a b
  | PBool a, PInt z => Z.b2z a =? z
  | PInt z, PBool a => z =? Z.b2z a
  | PInt a, PInt b => a =? b
  | PBytes a, PBytes b => bool_decide (a = b)
  | PTuple xs, PTuple ys =>
      (fix go (xs ys : list PyVal) : bool :=
         match xs, ys with
         | [], [] => true
         | x' :: xs', y' :: ys' => py_eq x' y' && go xs' ys'
         | _, _ => false
         end) xs ys
  | _, _ => false
  end.

(** An object in a queue: its address and its value. *)
Record Obj : Type := mkObj { oid : nat; oval : PyVal }.

(** [x is y] *)
Definition obj_is (x y : Obj) : bool := Nat.eqb (oid x) (oid y).

(** [list.remove(x)]: drop the first item that is [x] or compares equal to
    it; [None] stands for the [ValueError] raised when there is none. *)
Fixpoint list_remove (x : Obj) (l : list Obj) : option (list Obj) :=
  match l with
  | [] => None
  | y :: l' =>
      if obj_is y x || py_eq (oval y) (oval x) then Some l'
      else option_map (cons y) (list_remove x l')
  end.

(** A condition callback, as the truth value of what it returns. *)
Definition condition := list PyVal -> bool.

(** [condition_cb( *ev )] for a tuple, [condition_cb(ev)] otherwise *)
Definition apply_cb (condition_cb : condition) (ev : Obj) : bool :=
  match oval ev with
  | PTuple args => condition_cb args
  | v => condition_cb [v]
  end.

(** ** Polling waits *)

(** What one turn of a [while flag.is_set()] loop sees: whether the timer
    has left the flag set, the process-wide cancellation flag, and the state
    the wait looks at ([seen]: for a queue, the records appended since the
    previous turn). *)
Record Tick (S : Type) : Type :=
  mkTick { flag_is_set : bool; GLOBAL_END : bool; seen : S }.

Arguments mkTick {S} _ _ _.
Arguments flag_is_set {S} _.
Arguments GLOBAL_END {S} _.
Arguments seen {S} _.

(** Modelled from the spec: [autopts.utils.raise_on_global_end] is imported
    but not part of the sources; the cancellation signal is a single global
    flag, and a wait that finds it raised aborts with a failure that is not
    the timeout sentinel. *)
Definition raise_on_global_end (global_end : bool) : outcome unit :=
  if global_end then Raised GlobalEnd else Returned tt.

(** The [for ev in event_queue] scan of [wait_event_with_condition]. *)
Definition scan_condition (condition_cb : condition) (event_queue : list Obj)
  : option Obj :=
  find (apply_cb condition_cb) event_queue.

(** [wait_event_with_condition(event_queue, condition_cb, timeout, remove)]:
    the result and the queue it leaves. *)
Fixpoint wait_event_with_condition (event_queue : list Obj)
    (condition_cb : condition) (remove : bool) (sched : list (Tick (list Obj)))
  : outcome (option Obj) * list Obj :=
  match sched with
  | [] => (Pending, event_queue)
  | tk :: sched' =>
      if negb (flag_is_set tk) then (Returned None, event_queue)
      else
        match raise_on_global_end (GLOBAL_END tk) with
        | Raised e => (Raised e, event_queue)
        | Pending => (Pending, event_queue)
        | Returned _ =>
            let event_queue := event_queue ++ seen tk in
            match scan_condition condition_cb event_queue with
            | Some ev =>
                if truthy (oval ev) && remove then
                  match list_remove ev event_queue with
                  | Some q' => (Returned (Some ev), q')
                  | None => (Raised ValueError, event_queue)
                  end
                else (Returned (Some ev), event_queue)
            | None =>
                wait_event_with_condition event_queue condition_cb remove sched'
            end
        end
  end.

(** [wait_for_event_iut(event_queue, timeout, remove)] *)
Fixpoint wait_for_event_iut (event_queue : list Obj) (remove : bool)
    (sched : list (Tick (list Obj))) : outcome (option Obj) * list Obj :=
  match sched with
  | [] => (Pending, event_queue)
  | tk :: sched' =>
      if negb (flag_is_set tk) then (Returned None, event_queue)
      else
        match raise_on_global_end (GLOBAL_END tk) with
        | Raised e => (Raised e, event_queue)
        | Pending => (Pending, event_queue)
        | Returned _ =>
            let event_queue := event_queue ++ seen tk in
            match find (fun ev => truthy (oval ev)) event_queue with
            | Some ev =>
                if truthy (oval ev) && remove then
                  match list_remove ev event_queue with
                  | Some q' => (Returned (Some ev), q')
                  | None => (Raised ValueError, event_queue)
                  end
                else (Returned (Some ev), event_queue)
            | None => wait_for_event_iut event_queue remove sched'
            end
        end
  end.

(** The loop of [wait_for_event(timeout, test, args)], and the function:
    [test] is evaluated on the facade state of the moment. *)
Fixpoint wait_for_event_loop {S : Type} (test : S -> bool)
    (sched : list (Tick S)) : outcome bool :=
  match sched with
  | [] => Pending
  | tk :: sched' =>
      if negb (flag_is_set tk) then Returned false
      else
        match raise_on_global_end (GLOBAL_END tk) with
        | Raised e => Raised e
        | Pending => Pending
        | Returned _ =>
            if test (seen tk) then Returned true
            else wait_for_event_loop test sched'
        end
  end.

Definition wait_for_event {S : Type} (test : S -> bool) (now : S)
    (sched : list (Tick S)) : outcome bool :=
  if test now then Returned true else wait_for_event_loop test sched.

(** ** Mesh facade waits *)

(** [Mesh.wait_for_lpn_established(timeout)], over [self.lpn.data] *)
Fixpoint wait_for_lpn_established_loop (sched : list (Tick bool))
  : outcome bool :=
  match sched with
  | [] => Pending
  | tk :: sched' =>
      if negb (flag_is_set tk) then Returned false
      else
        match raise_on_global_end (GLOBAL_END tk) with
        | Raised e => Raised e
        | Pending => Pending
        | Returned _ =>
            if seen tk then Returned true
            else wait_for_lpn_established_loop sched'
        end
  end.

Definition wait_for_lpn_established (lpn : bool) (sched : list (Tick bool))
  : outcome bool :=
  if lpn then Returned true else wait_for_lpn_established_loop sched.

(** [Mesh.wait_for_blob_target_lost(timeout)], over [self.blob_lost_target] *)
Fixpoint wait_for_blob_target_lost_loop (sched : list (Tick bool))
  : outcome bool :=
  match sched with
  | [] => Pending
  | tk :: sched' =>
      if negb (flag_is_set tk) then Returned false
      else if seen tk then Returned true
      else wait_for_blob_target_lost_loop sched'
  end.

Definition wait_for_blob_target_lost (blob_lost_target : bool)
    (sched : list (Tick bool)) : outcome bool :=
  if blob_lost_target then Returned true
  else wait_for_blob_target_lost_loop sched.

(** [model_recv_ev_data.data]: [None] or [(src, dst, payload)] *)
Definition model_recv : Type := option (Z * Z * list Z).

(** [data is not None and data[2][0:4] == op] *)
Definition model_op_is (data : model_recv) (op : list Z) : bool :=
  match data with
  | None => false
  | Some (_, _, payload) => bool_decide (take 4 payload = op)
  end.

(** [Mesh.wait_for_model_added_op(timeout, op)]: the result and the value
    it leaves in [model_recv_ev_data.data]. *)
Fixpoint wait_for_model_added_op_loop (op : list Z) (data : model_recv)
    (sched : list (Tick model_recv)) : outcome bool * model_recv :=
  match sched with
  | [] => (Pending, data)
  | tk :: sched' =>
      if negb (flag_is_set tk) then (Returned false, data)
      else if model_op_is (seen tk) op then (Returned true, Some (0, 0, []))
      else wait_for_model_added_op_loop op (seen tk) sched'
  end.

Definition wait_for_model_added_op (op : list Z) (data : model_recv)
    (sched : list (Tick model_recv)) : outcome bool * model_recv :=
  if model_op_is data op then (Returned true, Some (0, 0, []))
  else wait_for_model_added_op_loop op data sched.

(** ** Procedure-completion predicates *)

(** [is_procedure_done(list, cnt)]; [cnt] is [None] or an integer. *)
Definition is_procedure_done {A : Type} (list : list A) (cnt : option Z)
  : bool :=
  match cnt with
  | None => false
  | Some cnt =>
      if cnt <=? 0 then true
      else Z.of_nat (length list) =? cnt
  end.

(** [GattCl.is_notification_rxed(expected_count)] over [self.notifications] *)
Definition is_notification_rxed {A : Type} (notifications : list A)
    (expected_count : Z) : bool :=
  if 0 <? expected_count then Z.of_nat (length notifications) =? expected_count
  else 0 <? Z.of_nat (length notifications).

(** ** The heap of the synchronisation engine *)

Definition loc : Type := nat.

(** Modelled from the spec: [autopts.utils.ResultWithFlag] is imported but
    not part of the sources; a completion signal is boolean-valued,
    settable, waitable and resettable, and a new one is unset.  [set(v)]
    stores [v] and raises the flag, [clear()] resets both, [wait()] blocks
    until the flag is raised. *)
Record ResultWithFlag : Type := mkSignal { result : option bool; flag : bool }.

Definition ResultWithFlag_init : ResultWithFlag :=
  {| result := None; flag := false |}.

Definition ResultWithFlag_set (value : bool) (s : ResultWithFlag)
  : ResultWithFlag := {| result := Some value; flag := true |}.

Definition ResultWithFlag_clear (s : ResultWithFlag) : ResultWithFlag :=
  {| result := None; flag := false |}.

(** [SynchPoint]: [done] is [None] or the address of a signal; [delay] is
    [None] or a duration. *)
Record SynchPoint : Type :=
  mkPoint { test_case : string; wid : Z; delay : option Z; done : option loc }.

(** [threading.Barrier]: [_state] is 0 filling, 1 draining, -1 resetting,
    -2 broken. *)
Inductive barrier_state : Type := filling | draining | resetting | broken.

Record Barrier : Type :=
  mkBarrier { _parties : nat; _state : barrier_state; _count : nat }.

Record SynchElem : Type :=
  mkElem { sync_points : list loc;
           active_synch_point : option loc;
           _start_barrier : Barrier;
           _end_barrier : Barrier }.

(** The objects reachable from the one [Synch] instance, and its table. *)
Record Heap : Type :=
  mkHeap { points : gmap loc SynchPoint;
           signals : gmap loc ResultWithFlag;
           elems : gmap loc SynchElem;
           _synch_table : list loc }.

(** What a thread does to the shared objects, in the order it does it; each
    entry of a trace pairs the effect with the heap right after it.
    [Waited point signal]: [point.wait()] has returned, [signal] being the
    object [point.done] named when the call was made. *)
Inductive Effect : Type :=
| Sleep (d : Z)
| SignalSet (point : loc)
| Waited (point signal : loc)
| BarrierPassed (elem : loc) (index : nat)
| TableRemove (elem : loc).

(** The state a thread runs in: the heap, the transitions the other threads
    will make while this one is blocked, and the trace so far. *)
Record State : Type :=
  mkState { heap : Heap;
            env : list (Heap -> Heap);
            trace : list (Effect * Heap) }.

Definition M (A : Type) : Type := State -> outcome A * State.

Definition ret {A : Type} (a : A) : M A := fun st => (Returned a, st).

Definition bind {A B : Type} (m : M A) (k : A -> M B) : M B :=
  fun st =>
    match m st with
    | (Returned a, st') => k a st'
    | (Raised e, st') => (Raised e, st')
    | (Pending, st') => (Pending, st')
    end.

Definition raise {A : Type} (e : exn) : M A := fun st => (Raised e, st).

Declare Scope sync_scope.
Delimit Scope sync_scope with sync.
Notation "'let*' x ':=' m 'in' k" := (bind m (fun x => k))
  (at level 10, x name, m at level 100, k at level 200) : sync_scope.
Notation "m '>>' k" := (bind m (fun _ => k))
  (at level 90, right associativity) : sync_scope.
Open Scope sync_scope.

Definition get_heap : M Heap := fun st => (Returned (heap st), st).

Definition put_heap (h : Heap) : M unit :=
  fun st => (Returned tt, {| heap := h; env := env st; trace := trace st |}).

Definition emit (e : Effect) : M unit :=
  fun st => (Returned tt,
             {| heap := heap st; env := env st;
                trace := trace st ++ [(e, heap st)] |}).

(** [try: m finally: f]; a thread that never leaves [m] never runs [f]. *)
Definition finally {A : Type} (m : M A) (f : M unit) : M A :=
  fun st =>
    match m st with
    | (Returned a, st') =>
        match f st' with
        | (Returned _, st'') => (Returned a, st'')
        | (Raised e, st'') => (Raised e, st'')
        | (Pending, st'') => (Pending, st'')
        end
    | (Raised e, st') =>
        match f st' with
        | (Returned _, st'') => (Raised e, st'')
        | (Raised e', st'') => (Raised e', st'')
        | (Pending, st'') => (Pending, st'')
        end
    | (Pending, st') => (Pending, st')
    end.

(** [try: m except: h] with a bare [except] *)
Definition try_except {A : Type} (m : M A) (h : exn -> M A) : M A :=
  fun st =>
    match m st with
    | (Raised e, st') => h e st'
    | r => r
    end.

(** [for x in l: body(x)] *)
Fixpoint for_each {A : Type} (l : list A) (body : A -> M unit) : M unit :=
  match l with
  | [] => ret tt
  | x :: l' => body x >> for_each l' body
  end.

(** Blocking: the thread resumes in the first heap in which [ready] holds,
    the other threads moving while it does not. *)
Fixpoint await_env (ready : Heap -> bool) (h : Heap)
    (env : list (Heap -> Heap)) : bool * Heap * list (Heap -> Heap) :=
  match env with
  | [] => (ready h, h, [])
  | f :: env' =>
      if ready h then (true, h, env) else await_env ready (f h) env'
  end.

Definition await (ready : Heap -> bool) : M unit :=
  fun st =>
    match await_env ready (heap st) (env st) with
    | (true, h, env') =>
        (Returned tt, {| heap := h; env := env'; trace := trace st |})
    | (false, h, env') =>
        (Pending, {| heap := h; env := env'; trace := trace st |})
    end.

(** Attribute reads and writes through an address. *)
Definition get_point (p : loc) : M SynchPoint :=
  fun st =>
    match points (heap st) !! p with
    | Some pt => (Returned pt, st)
    | None => (Raised DanglingRef, st)
    end.

Definition get_elem (e : loc) : M SynchElem :=
  fun st =>
    match elems (heap st) !! e with
    | Some el => (Returned el, st)
    | None => (Raised DanglingRef, st)
    end.

Definition set_point (p : loc) (pt : SynchPoint) (h : Heap) : Heap :=
  {| points := <[p := pt]> (points h); signals := signals h;
     elems := elems h; _synch_table := _synch_table h |}.

Definition set_signal (s : loc) (sg : ResultWithFlag) (h : Heap) : Heap :=
  {| points := points h; signals := <[s := sg]> (signals h);
     elems := elems h; _synch_table := _synch_table h |}.

Definition set_elem (e : loc) (el : SynchElem) (h : Heap) : Heap :=
  {| points := points h; signals := signals h;
     elems := <[e := el]> (elems h); _synch_table := _synch_table h |}.

Definition set_table (t : list loc) (h : Heap) : Heap :=
  {| points := points h; signals := signals h;
     elems := elems h; _synch_table := t |}.

(** [point.done.m()] where [m] rewrites the signal; on [None] the
    attribute lookup fails. *)
Definition update_done (p : loc) (f : ResultWithFlag -> ResultWithFlag)
  : M unit :=
  let* pt := get_point p in
  match done pt with
  | None => raise AttributeError
  | Some s =>
      let* h := get_heap in
      match signals h !! s with
      | None => raise DanglingRef
      | Some sg => put_heap (set_signal s (f sg) h)
      end
  end.

(** Whether the completion signal of a point is set, in a heap. *)
Definition signal_is_set (h : Heap) (p : loc) : bool :=
  match points h !! p with
  | Some pt =>
      match done pt with
      | Some s =>
          match signals h !! s with
          | Some sg => flag sg
          | None => false
          end
      | None => false
      end
  | None => false
  end.

(** ** SynchPoint *)

(** [SynchPoint.set_done]: [self.done.set(True)] *)
Definition SynchPoint_set_done (p : loc) : M unit :=
  update_done p (ResultWithFlag_set true) >> emit (SignalSet p).

(** [SynchPoint.clear]: [self.done.clear()] *)
Definition SynchPoint_clear (p : loc) : M unit :=
  update_done p ResultWithFlag_clear.

(** [SynchPoint.wait]: [self.done.wait()], on the signal [self.done] names
    when the call is made. *)
Definition SynchPoint_wait (p : loc) : M unit :=
  let* pt := get_point p in
  match done pt with
  | None => raise AttributeError
  | Some s =>
      await (fun h => match signals h !! s with
                      | Some sg => flag sg
                      | None => false
                      end) >>
      emit (Waited p s)
  end.

(** ** threading.Barrier *)

Inductive which_barrier : Type := start_barrier | end_barrier.

Definition barrier_of (w : which_barrier) (el : SynchElem) : Barrier :=
  match w with
  | start_barrier => _start_barrier el
  | end_barrier => _end_barrier el
  end.

Definition with_barrier (w : which_barrier) (b : Barrier) (el : SynchElem)
  : SynchElem :=
  match w with
  | start_barrier =>
      {| sync_points := sync_points el;
         active_synch_point := active_synch_point el;
         _start_barrier := b; _end_barrier := _end_barrier el |}
  | end_barrier =>
      {| sync_points := sync_points el;
         active_synch_point := active_synch_point el;
         _start_barrier := _start_barrier el; _end_barrier := b |}
  end.

Definition get_barrier (e : loc) (w : which_barrier) : M Barrier :=
  let* el := get_elem e in ret (barrier_of w el).

Definition update_barrier (e : loc) (w : which_barrier)
    (f : Barrier -> Barrier) : M unit :=
  let* el := get_elem e in
  let* h := get_heap in
  put_heap (set_elem e (with_barrier w (f (barrier_of w el)) el) h).

Definition with_state (s : barrier_state) (b : Barrier) : Barrier :=
  {| _parties := _parties b; _state := s; _count := _count b |}.

Definition with_count (c : nat) (b : Barrier) : Barrier :=
  {| _parties := _parties b; _state := _state b; _count := c |}.

(** [Barrier.broken] *)
Definition is_broken (b : Barrier) : bool :=
  match _state b with broken => true | _ => false end.

(** [_state < 0] *)
Definition state_negative (b : Barrier) : bool :=
  match _state b with broken | resetting => true | _ => false end.

(** [_state in (-1, 1)] *)
Definition state_turning (b : Barrier) : bool :=
  match _state b with resetting | draining => true | _ => false end.

Definition barrier_ready (e : loc) (w : which_barrier)
    (ready : Barrier -> bool) (h : Heap) : bool :=
  match elems h !! e with
  | Some el => ready (barrier_of w el)
  | None => false
  end.

(** [Barrier.abort()]: [_break] puts the barrier in the broken state. *)
Definition Barrier_abort (e : loc) (w : which_barrier) : M unit :=
  update_barrier e w (with_state broken).

(** [Barrier._enter]: wait while the barrier drains or resets, then fail
    if it is broken. *)
Definition Barrier_enter (e : loc) (w : which_barrier) : M unit :=
  await (barrier_ready e w (fun b => negb (state_turning b))) >>
  let* b := get_barrier e w in
  if state_negative b then raise BrokenBarrierError else ret tt.

(** [Barrier._release]: run the action and start draining; an exception of
    the action breaks the barrier and is raised again. *)
Definition Barrier_release (e : loc) (w : which_barrier) (action : M unit)
  : M unit :=
  try_except
    (action >> update_barrier e w (with_state draining))
    (fun ex => update_barrier e w (with_state broken) >> raise ex).

(** [Barrier._wait] without a timeout: wait until the state leaves
    filling, then fail if the barrier is broken or was reset. *)
Definition Barrier_wait_released (e : loc) (w : which_barrier) : M unit :=
  await (barrier_ready e w
           (fun b => match _state b with filling => false | _ => true end)) >>
  let* b := get_barrier e w in
  if state_negative b then raise BrokenBarrierError else ret tt.

(** [Barrier._exit]: the last thread to leave a draining or resetting
    barrier makes it filling again. *)
Definition Barrier_exit (e : loc) (w : which_barrier) : M unit :=
  let* b := get_barrier e w in
  if Nat.eqb (_count b) 0 && state_turning b
  then update_barrier e w (with_state filling)
  else ret tt.

(** [Barrier.wait()] *)
Definition Barrier_wait (e : loc) (w : which_barrier) (action : M unit)
  : M nat :=
  Barrier_enter e w >>
  let* b := get_barrier e w in
  let index := _count b in
  update_barrier e w (with_count (S index)) >>
  finally
    ((if Nat.eqb (index + 1) (_parties b)
      then Barrier_release e w action
      else Barrier_wait_released e w) >>
     emit (BarrierPassed e index) >>
     ret index)
    (update_barrier e w (fun b => with_count (Nat.pred (_count b)) b) >>
     Barrier_exit e w).

(** [Barrier(parties, action)]: fresh, filling, nobody waiting. *)
Definition Barrier_init (parties : nat) : Barrier :=
  {| _parties := parties; _state := filling; _count := 0 |}.

(** ** SynchElem *)

(** [SynchElem.find_matching(test_case, wid)] *)
Definition find_matching (h : Heap) (el : SynchElem) (tc : string) (w : Z)
  : option loc :=
  let matching_items :=
    List.filter (fun item =>
              match points h !! item with
              | Some pt => bool_decide (test_case pt = tc) && (wid pt =? w)
              | None => false
              end) (sync_points el) in
  match matching_items with
  | item :: _ => Some item
  | [] => None
  end.

(** [SynchElem.clear_flags] *)
Definition clear_flags (e : loc) : M unit :=
  let* el := get_elem e in
  for_each (sync_points el) SynchPoint_clear.

(** [SynchElem.wait_for_start] *)
Definition SynchElem_wait_for_start (e : loc) : M bool :=
  Barrier_wait e start_barrier (clear_flags e) >>
  let* b := get_barrier e start_barrier in
  if is_broken b then ret false else ret true.

(** [SynchElem.wait_for_end] *)
Definition SynchElem_wait_for_end (e : loc) : M bool :=
  Barrier_wait e end_barrier (clear_flags e) >>
  let* b := get_barrier e end_barrier in
  if is_broken b then ret false else ret true.

(** The loop of [SynchElem.wait_for_your_turn] over the points still to
    visit; [point == synch_point] compares addresses. *)
Fixpoint wait_for_your_turn_loop (e : loc) (pts : list loc)
    (synch_point : loc) : M bool :=
  match pts with
  | [] => ret false
  | point :: pts' =>
      if Nat.eqb point synch_point then
        let* el := get_elem e in
        let* h := get_heap in
        put_heap
          (set_elem e
             {| sync_points := sync_points el;
                active_synch_point := Some synch_point;
                _start_barrier := _start_barrier el;
                _end_barrier := _end_barrier el |} h) >>
        ret true
      else
        SynchPoint_wait point >>
        let* sb := get_barrier e start_barrier in
        let* eb := get_barrier e end_barrier in
        if is_broken sb || is_broken eb then ret false
        else wait_for_your_turn_loop e pts' synch_point
  end.

(** [SynchElem.wait_for_your_turn(synch_point)] *)
Definition wait_for_your_turn (e : loc) (synch_point : loc) : M bool :=
  let* el := get_elem e in
  wait_for_your_turn_loop e (sync_points el) synch_point.

(** [SynchElem.cancel_synch] *)
Definition SynchElem_cancel_synch (e : loc) : M unit :=
  Barrier_abort e end_barrier >>
  Barrier_abort e start_barrier >>
  let* el := get_elem e in
  for_each (sync_points el) SynchPoint_set_done.

(** ** Synch *)

(** [Synch.reinit] *)
Definition reinit : M unit :=
  let* h := get_heap in put_heap (set_table [] h).

(** [sync_point.done = ResultWithFlag()]: a new signal at an address no
    signal has. *)
Definition renew_done (p : loc) : M unit :=
  let* pt := get_point p in
  let* h := get_heap in
  let s := fresh (dom (signals h)) in
  put_heap
    (set_point p
       {| test_case := test_case pt; wid := wid pt; delay := delay pt;
          done := Some s |}
       (set_signal s ResultWithFlag_init h)).

(** [SynchElem(sync_points)]; [Barrier] takes the number of parties as it
    is given, also 0. *)
Definition SynchElem_init (sync_points : list loc) : M SynchElem :=
  let count := length sync_points in
  ret {| sync_points := sync_points;
         active_synch_point := None;
         _start_barrier := Barrier_init count;
         _end_barrier := Barrier_init count |}.

(** [Synch.add_synch_element(elem)] *)
Definition add_synch_element (elem : list loc) : M unit :=
  for_each elem renew_done >>
  let* el := SynchElem_init elem in
  let* h := get_heap in
  let e := fresh (dom (elems h)) in
  put_heap (set_table (_synch_table h ++ [e]) (set_elem e el h)).

(** The [for i, elem in enumerate(self._synch_table)] scan of
    [Synch.wait_for_start]: the element and the point it stops at. *)
Fixpoint scan_synch_table (h : Heap) (table : list loc) (tc_name : string)
    (w : Z) : option (loc * loc) :=
  match table with
  | [] => None
  | e :: table' =>
      match elems h !! e with
      | Some el =>
          match find_matching h el tc_name w with
          | Some synch_point => Some (e, synch_point)
          | None => scan_synch_table h table' tc_name w
          end
      | None => scan_synch_table h table' tc_name w
      end
  end.

(** [Synch.wait_for_start(wid, tc_name)]: the element, or [None]. *)
Definition wait_for_start (w : Z) (tc_name : string) : M (option loc) :=
  let* h := get_heap in
  match scan_synch_table h (_synch_table h) tc_name w with
  | None => ret None
  | Some (elem, synch_point) =>
      let* started := SynchElem_wait_for_start elem in
      if negb started then ret None
      else
        let* turn := wait_for_your_turn elem synch_point in
        if negb turn then ret None
        else ret (Some elem)
  end.

(** [list.remove(x)] on the table: elements compare by address. *)
Fixpoint table_remove (x : loc) (l : list loc) : option (list loc) :=
  match l with
  | [] => None
  | y :: l' =>
      if Nat.eqb y x then Some l'
      else option_map (cons y) (table_remove x l')
  end.

(** [self._synch_table.remove(synch_elem)] *)
Definition remove_from_table (elem : loc) : M unit :=
  let* h := get_heap in
  match table_remove elem (_synch_table h) with
  | Some t => put_heap (set_table t h) >> emit (TableRemove elem)
  | None => raise ValueError
  end.

(** [time.sleep(secs)]: a negative length is refused with [ValueError]. *)
Definition sleep (secs : Z) : M unit :=
  if secs <? 0 then raise ValueError else emit (Sleep secs).

(** [Synch.wait_for_end(synch_elem)]; every [return] of it gives [None]. *)
Definition wait_for_end (synch_elem : loc) : M unit :=
  let* el := get_elem synch_elem in
  match active_synch_point el with
  | None => raise AttributeError
  | Some synch_point =>
      let* pt := get_point synch_point in
      (match delay pt with
       | Some d => if d =? 0 then ret tt else sleep d
       | None => ret tt
       end) >>
      SynchPoint_set_done synch_point >>
      let* ended := SynchElem_wait_for_end synch_elem in
      if negb ended then ret tt
      else try_except (remove_from_table synch_elem) (fun _ => ret tt)
  end.

(** [Synch.cancel_synch] *)
Definition cancel_synch : M unit :=
  let* h := get_heap in
  for_each (_synch_table h) SynchElem_cancel_synch >>
  let* h := get_heap in
  put_heap (set_table [] h).

(** ** CORE *)

Section CORE.

(** [defs.CORE_EV_IUT_READY]; the module [defs] is not among the
    sources, so the key is left open. *)
Variable CORE_EV_IUT_READY : Z.

(** [CORE()] *)
Definition CORE_init : gmap Z (list Obj) := {[ CORE_EV_IUT_READY := [] ]}.

(** [CORE.event_received(event_type, event_data_tuple)]; a key that is
    not in the dictionary raises [KeyError], here [None]. *)
Definition event_received (event_queues : gmap Z (list Obj))
    (event_type : Z) (event_data_tuple : Obj)
  : option (gmap Z (list Obj)) :=
  match event_queues !! event_type with
  | Some q => Some (<[event_type := q ++ [event_data_tuple]]> event_queues)
  | None => None
  end.

(** [CORE.cleanup] *)
Definition cleanup (event_queues : gmap Z (list Obj))
  : gmap Z (list Obj) :=
  map_imap (fun key q =>
              if bool_decide (key = CORE_EV_IUT_READY) then Some q
              else Some []) event_queues.

(** [Stack.core_init], on [self.core] *)
Definition core_init (core : option (gmap Z (list Obj)))
  : gmap Z (list Obj) :=
  match core with
  | Some event_queues => cleanup event_queues
  | None => CORE_init
  end.

End CORE.

(** ** MICS facade *)

(** [MICS.wait_mute_state_ev(timeout, remove)]: the condition is
    [lambda *_: True]. *)
Definition wait_mute_state_ev (event_queue : list Obj) (remove : bool)
    (sched : list (Tick (list Obj))) : outcome (option Obj) * list Obj :=
  wait_event_with_condition event_queue (fun _ => true) remove sched.

(** ** L2CAP channels *)

(** [L2capChan]: the fields that [disconnected] sets to [None] are
    options; the data sent and received are lists of payloads.  The
    channels of an [L2cap] are distinct objects, each created by
    [L2cap.connected], so the list holds them by value. *)
Module L2capChan.

Record t : Type :=
  mk { id : Z;
       psm : option Z;
       peer_mtu : Z;
       peer_mps : Z;
       our_mtu : Z;
       our_mps : Z;
       peer_bd_addr_type : option Z;
       peer_bd_addr : option (list Z);
       disconn_reason : option Z;
       data_tx : list (list Z);
       data_rx : list (list Z);
       state : string }.

(** [L2capChan(chan_id, psm, ...)] *)
Definition init (chan_id : Z) (psm : option Z)
    (peer_mtu peer_mps our_mtu our_mps : Z) (bd_addr_type : option Z)
    (bd_addr : option (list Z)) : t :=
  {| id := chan_id; psm := psm; peer_mtu := peer_mtu; peer_mps := peer_mps;
     our_mtu := our_mtu; our_mps := our_mps;
     peer_bd_addr_type := bd_addr_type; peer_bd_addr := bd_addr;
     disconn_reason := None; data_tx := []; data_rx := [];
     state := "init" |}.

(** [self.state and self.state != "init"] *)
Definition settled (s : string) : bool :=
  negb (String.eqb s "") && negb (String.eqb s "init").

(** The loop of [_get_state(timeout)]: each turn sees the state of the
    channel at that moment. *)
Fixpoint _get_state_loop (sched : list (Tick string)) : outcome string :=
  match sched with
  | [] => Pending
  | tk :: sched' =>
      if negb (flag_is_set tk) then Returned (seen tk)
      else
        match raise_on_global_end (GLOBAL_END tk) with
        | Raised e => Raised e
        | Pending => Pending
        | Returned _ =>
            if settled (seen tk) then Returned (seen tk)
            else _get_state_loop sched'
        end
  end.

(** [L2capChan._get_state(timeout)] *)
Definition _get_state (c : t) (sched : list (Tick string)) : outcome string :=
  if settled (state c) then Returned (state c) else _get_state_loop sched.

(** [L2capChan.is_connected(timeout)] *)
Definition is_connected (c : t) (sched : list (Tick string)) : outcome bool :=
  match _get_state c sched with
  | Returned s => Returned (String.eqb s "connected")
  | Raised e => Raised e
  | Pending => Pending
  end.

(** [L2capChan.connected(psm, ...)] *)
Definition connected (c : t) (psm : option Z)
    (peer_mtu peer_mps our_mtu our_mps : Z) (bd_addr_type : option Z)
    (bd_addr : option (list Z)) : t :=
  {| id := id c; psm := psm; peer_mtu := peer_mtu; peer_mps := peer_mps;
     our_mtu := our_mtu; our_mps := our_mps;
     peer_bd_addr_type := bd_addr_type; peer_bd_addr := bd_addr;
     disconn_reason := disconn_reason c; data_tx := data_tx c;
     data_rx := data_rx c; state := "connected" |}.

(** [L2capChan.disconnected(psm, bd_addr_type, bd_addr, reason)] *)
Definition disconnected (c : t) (psm bd_addr_type : option Z)
    (bd_addr : option (list Z)) (reason : option Z) : t :=
  {| id := id c; psm := None; peer_mtu := peer_mtu c; peer_mps := peer_mps c;
     our_mtu := our_mtu c; our_mps := our_mps c;
     peer_bd_addr_type := None; peer_bd_addr := None;
     disconn_reason := reason; data_tx := data_tx c; data_rx := data_rx c;
     state := "disconnected" |}.

(** [L2capChan.rx(data)] and [L2capChan.tx(data)] *)
Definition rx (c : t) (data : list Z) : t :=
  {| id := id c; psm := psm c; peer_mtu := peer_mtu c; peer_mps := peer_mps c;
     our_mtu := our_mtu c; our_mps := our_mps c;
     peer_bd_addr_type := peer_bd_addr_type c;
     peer_bd_addr := peer_bd_addr c; disconn_reason := disconn_reason c;
     data_tx := data_tx c; data_rx := data_rx c ++ [data];
     state := state c |}.

Definition tx (c : t) (data : list Z) : t :=
  {| id := id c; psm := psm c; peer_mtu := peer_mtu c; peer_mps := peer_mps c;
     our_mtu := our_mtu c; our_mps := our_mps c;
     peer_bd_addr_type := peer_bd_addr_type c;
     peer_bd_addr := peer_bd_addr c; disconn_reason := disconn_reason c;
     data_tx := data_tx c ++ [data]; data_rx := data_rx c;
     state := state c |}.

(** [chan.data_tx = []; chan.data_rx = []] *)
Definition clear (c : t) : t :=
  {| id := id c; psm := psm c; peer_mtu := peer_mtu c; peer_mps := peer_mps c;
     our_mtu := our_mtu c; our_mps := our_mps c;
     peer_bd_addr_type := peer_bd_addr_type c;
     peer_bd_addr := peer_bd_addr c; disconn_reason := disconn_reason c;
     data_tx := []; data_rx := []; state := state c |}.

(** The four assignments of [L2cap.reconfigured] *)
Definition reconfigure (c : t) (peer_mtu peer_mps our_mtu our_mps : Z) : t :=
  {| id := id c; psm := psm c; peer_mtu := peer_mtu; peer_mps := peer_mps;
     our_mtu := our_mtu; our_mps := our_mps;
     peer_bd_addr_type := peer_bd_addr_type c;
     peer_bd_addr := peer_bd_addr c; disconn_reason := disconn_reason c;
     data_tx := data_tx c; data_rx := data_rx c; state := state c |}.

(** The loop of [rx_data_get(timeout)]: each turn sees [self.data_rx]. *)
Fixpoint rx_data_get_loop (sched : list (Tick (list (list Z))))
  : outcome (option (list (list Z))) :=
  match sched with
  | [] => Pending
  | tk :: sched' =>
      if negb (flag_is_set tk) then Returned None
      else
        match raise_on_global_end (GLOBAL_END tk) with
        | Raised e => Raised e
        | Pending => Pending
        | Returned _ =>
            if negb (Nat.eqb (length (seen tk)) 0) then Returned (Some (seen tk))
            else rx_data_get_loop sched'
        end
  end.

(** [L2capChan.rx_data_get(timeout)] *)
Definition rx_data_get (c : t) (sched : list (Tick (list (list Z))))
  : outcome (option (list (list Z))) :=
  if negb (Nat.eqb (length (data_rx c)) 0) then Returned (Some (data_rx c))
  else rx_data_get_loop sched.

(** [L2capChan.tx_data_get()] *)
Definition tx_data_get (c : t) : list (list Z) := data_tx c.

End L2capChan.

Module L2cap.

Record t : Type :=
  mk { psm : Z;
       initial_mtu : Z;
       channels : list L2capChan.t;
       hold_credits : Z;
       num_channels : Z }.

(** [L2cap(psm, initial_mtu)] *)
Definition init (psm initial_mtu : Z) : t :=
  {| psm := psm; initial_mtu := initial_mtu; channels := [];
     hold_credits := 0; num_channels := 2 |}.

Definition with_channels (cs : list L2capChan.t) (l : t) : t :=
  {| psm := psm l; initial_mtu := initial_mtu l; channels := cs;
     hold_credits := hold_credits l; num_channels := num_channels l |}.

(** [L2cap.chan_lookup_id(chan_id)] *)
Definition chan_lookup_id (l : t) (chan_id : Z) : option L2capChan.t :=
  find (fun chan => L2capChan.id chan =? chan_id) (channels l).

(** A method applied to the channel [chan_lookup_id] returns: the first
    one of the list with that id. *)
Fixpoint update_chan (chan_id : Z) (f : L2capChan.t -> L2capChan.t)
    (cs : list L2capChan.t) : list L2capChan.t :=
  match cs with
  | [] => []
  | c :: cs' =>
      if L2capChan.id c =? chan_id then f c :: cs'
      else c :: update_chan chan_id f cs'
  end.

(** [self.channels.remove(chan)] for the channel [chan_lookup_id]
    returns. *)
Fixpoint remove_chan (chan_id : Z) (cs : list L2capChan.t)
  : list L2capChan.t :=
  match cs with
  | [] => []
  | c :: cs' =>
      if L2capChan.id c =? chan_id then cs'
      else c :: remove_chan chan_id cs'
  end.

(** [L2cap.clear_data] *)
Definition clear_data (l : t) : t :=
  with_channels (map L2capChan.clear (channels l)) l.

(** [L2cap.reconfigured(chan_id, ...)]: the channel is not checked for
    [None]. *)
Definition reconfigured (l : t) (chan_id peer_mtu peer_mps our_mtu our_mps : Z)
  : outcome t :=
  match chan_lookup_id l chan_id with
  | None => Raised AttributeError
  | Some _ =>
      Returned
        (with_channels
           (update_chan chan_id
              (fun c => L2capChan.reconfigure c peer_mtu peer_mps our_mtu
                          our_mps) (channels l)) l)
  end.

(** [L2cap.connected(chan_id, psm, ...)] *)
Definition connected (l : t) (chan_id : Z) (psm : option Z)
    (peer_mtu peer_mps our_mtu our_mps : Z) (bd_addr_type : option Z)
    (bd_addr : option (list Z)) : t :=
  match chan_lookup_id l chan_id with
  | None =>
      with_channels
        (channels l ++
         [L2capChan.connected
            (L2capChan.init chan_id psm peer_mtu peer_mps our_mtu our_mps
               bd_addr_type bd_addr)
            psm peer_mtu peer_mps our_mtu our_mps bd_addr_type bd_addr]) l
  | Some _ =>
      with_channels
        (update_chan chan_id
           (fun c => L2capChan.connected c psm peer_mtu peer_mps our_mtu
                       our_mps bd_addr_type bd_addr) (channels l)) l
  end.

(** [L2cap.disconnected(chan_id, psm, bd_addr_type, bd_addr, reason)]:
    the new state, and the channel taken out of the list as
    [chan.disconnected] leaves it. *)
Definition disconnected (l : t) (chan_id : Z) (psm bd_addr_type : option Z)
    (bd_addr : option (list Z)) (reason : option Z)
  : t * option L2capChan.t :=
  match chan_lookup_id l chan_id with
  | None => (l, None)
  | Some chan =>
      (with_channels (remove_chan chan_id (channels l)) l,
       Some (L2capChan.disconnected chan psm bd_addr_type bd_addr reason))
  end.

(** [L2cap.is_connected(chan_id)]; the channel is given ten seconds. *)
Definition is_connected (l : t) (chan_id : Z) (sched : list (Tick string))
  : outcome bool :=
  match chan_lookup_id l chan_id with
  | None => Returned false
  | Some chan => L2capChan.is_connected chan sched
  end.

(** The loop of [L2cap.wait_for_connection]: each turn sees the [L2cap]
    of the moment and has the schedule of the call of [is_connected] it
    makes. *)
Fixpoint wait_for_connection_loop (chan_id : Z)
    (sched : list (Tick (t * list (Tick string)))) : outcome bool :=
  match sched with
  | [] => Pending
  | tk :: sched' =>
      if negb (flag_is_set tk) then Returned false
      else
        match raise_on_global_end (GLOBAL_END tk) with
        | Raised e => Raised e
        | Pending => Pending
        | Returned _ =>
            match is_connected (fst (seen tk)) chan_id (snd (seen tk)) with
            | Returned true => Returned true
            | Returned false => wait_for_connection_loop chan_id sched'
            | Raised e => Raised e
            | Pending => Pending
            end
        end
  end.

(** [L2cap.wait_for_connection(chan_id, timeout)] *)
Definition wait_for_connection (l : t) (chan_id : Z)
    (first : list (Tick string))
    (sched : list (Tick (t * list (Tick string)))) : outcome bool :=
  match is_connected l chan_id first with
  | Returned true => Returned true
  | Returned false => wait_for_connection_loop chan_id sched
  | Raised e => Raised e
  | Pending => Pending
  end.

Fixpoint wait_for_disconnection_loop (chan_id : Z)
    (sched : list (Tick (t * list (Tick string)))) : outcome bool :=
  match sched with
  | [] => Pending
  | tk :: sched' =>
      if negb (flag_is_set tk) then Returned false
      else
        match raise_on_global_end (GLOBAL_END tk) with
        | Raised e => Raised e
        | Pending => Pending
        | Returned _ =>
            match is_connected (fst (seen tk)) chan_id (snd (seen tk)) with
            | Returned false => Returned true
            | Returned true => wait_for_disconnection_loop chan_id sched'
            | Raised e => Raised e
            | Pending => Pending
            end
        end
  end.

(** [L2cap.wait_for_disconnection(chan_id, timeout)] *)
Definition wait_for_disconnection (l : t) (chan_id : Z)
    (first : list (Tick string))
    (sched : list (Tick (t * list (Tick string)))) : outcome bool :=
  match is_connected l chan_id first with
  | Returned false => Returned true
  | Returned true => wait_for_disconnection_loop chan_id sched
  | Raised e => Raised e
  | Pending => Pending
  end.

(** [L2cap.rx(chan_id, data)] and [L2cap.tx(chan_id, data)]: an unknown
    channel is logged and nothing is stored. *)
Definition rx (l : t) (chan_id : Z) (data : list Z) : t :=
  match chan_lookup_id l chan_id with
  | None => l
  | Some _ =>
      with_channels
        (update_chan chan_id (fun c => L2capChan.rx c data) (channels l)) l
  end.

Definition tx (l : t) (chan_id : Z) (data : list Z) : t :=
  match chan_lookup_id l chan_id with
  | None => l
  | Some _ =>
      with_channels
        (update_chan chan_id (fun c => L2capChan.tx c data) (channels l)) l
  end.

(** [L2cap.rx_data_get(chan_id, timeout)] *)
Definition rx_data_get (l : t) (chan_id : Z)
    (sched : list (Tick (list (list Z))))
  : outcome (option (list (list Z))) :=
  match chan_lookup_id l chan_id with
  | None => Returned None
  | Some chan => L2capChan.rx_data_get chan sched
  end.

(** [L2cap.tx_data_get(chan_id)] *)
Definition tx_data_get (l : t) (chan_id : Z) : option (list (list Z)) :=
  match chan_lookup_id l chan_id with
  | None => None
  | Some chan => Some (L2capChan.tx_data_get chan)
  end.

(** [L2cap.tx_data_get_all()] *)
Definition tx_data_get_all (l : t) : list (list (list Z)) :=
  map L2capChan.tx_data_get (channels l).

End L2cap.

(** ** GAP facade *)

Module Gap.

(** [v is None] *)
Definition is_none (v : PyVal) : bool :=
  match v with
  | PNone => true
  | _ => false
  end.

(** The loop shared by [get_passkey], [gap_wait_for_pairing_fail] and
    [gap_wait_for_lost_bond]: each turn sees the [data] of the property at
    that moment; the value read after the loop is the one of the turn that
    ended it. *)
Fixpoint wait_data_loop (sched : list (Tick PyVal)) : outcome PyVal :=
  match sched with
  | [] => Pending
  | tk :: sched' =>
      if negb (flag_is_set tk) then Returned (seen tk)
      else
        match raise_on_global_end (GLOBAL_END tk) with
        | Raised e => Raised e
        | Pending => Pending
        | Returned _ =>
            if truthy (seen tk) then Returned (seen tk)
            else wait_data_loop sched'
        end
  end.

(** [Gap.get_passkey(timeout)], over [self.passkey.data] *)
Definition get_passkey (passkey : PyVal) (sched : list (Tick PyVal))
  : outcome PyVal :=
  if is_none passkey then wait_data_loop sched else Returned passkey.

(** [Gap.gap_wait_for_pairing_fail(timeout)], over
    [self.pairing_failed_rcvd.data] *)
Definition gap_wait_for_pairing_fail (pairing_failed_rcvd : PyVal)
    (sched : list (Tick PyVal)) : outcome PyVal :=
  if is_none pairing_failed_rcvd then wait_data_loop sched
  else Returned pairing_failed_rcvd.

(** [Gap.gap_wait_for_lost_bond(timeout)], over
    [self.bond_lost_ev_data.data] *)
Definition gap_wait_for_lost_bond (bond_lost_ev_data : PyVal)
    (sched : list (Tick PyVal)) : outcome PyVal :=
  if is_none bond_lost_ev_data then wait_data_loop sched
  else Returned bond_lost_ev_data.

(** The loop shared by [wait_periodic_report], [wait_periodic_established]
    and [wait_periodic_transfer_received]: the result, and whether the call
    has reset the field to [False]. *)
Fixpoint wait_periodic_loop (sched : list (Tick bool)) : outcome bool * bool :=
  match sched with
  | [] => (Pending, false)
  | tk :: sched' =>
      if negb (flag_is_set tk) then (Returned false, false)
      else
        match raise_on_global_end (GLOBAL_END tk) with
        | Raised e => (Raised e, false)
        | Pending => (Pending, false)
        | Returned _ =>
            if seen tk then (Returned true, true)
            else wait_periodic_loop sched'
        end
  end.

(** [Gap.wait_periodic_report(timeout)] *)
Definition wait_periodic_report (periodic_report_rxed : bool)
    (sched : list (Tick bool)) : outcome bool * bool :=
  if periodic_report_rxed then (Returned true, false)
  else wait_periodic_loop sched.

(** [Gap.wait_periodic_established(timeout)] *)
Definition wait_periodic_established (periodic_sync_established_rxed : bool)
    (sched : list (Tick bool)) : outcome bool * bool :=
  if periodic_sync_established_rxed then (Returned true, false)
  else wait_periodic_loop sched.

(** [Gap.wait_periodic_transfer_received(timeout)] *)
Definition wait_periodic_transfer_received (periodic_transfer_received : bool)
    (sched : list (Tick bool)) : outcome bool * bool :=
  if periodic_transfer_received then (Returned true, false)
  else wait_periodic_loop sched.

(** The dictionary [Gap.__init__] gives [self.current_settings]. *)
Definition current_settings_init : gmap string bool :=
  list_to_map
    [("Powered", false); ("Connectable", false); ("Fast Connectable", false);
     ("Discoverable", false); ("Bondable", false);
     ("Link Level Security", false); ("SSP", false); ("BREDR", false);
     ("HS", false); ("LE", false); ("Advertising", false); ("SC", false);
     ("Debug Keys", false); ("Privacy", false);
     ("Controller Configuration", false); ("Static Address", false);
     ("Extended Advertising", false); ("SC Only", false)].

(** [Gap.current_settings_set(key)], on [self.current_settings.data]; an
    unknown key is logged. *)
Definition current_settings_set (data : gmap string bool) (key : string)
  : gmap string bool :=
  match data !! key with
  | Some _ => <[key := true]> data
  | None => data
  end.

(** [Gap.current_settings_clear(key)] *)
Definition current_settings_clear (data : gmap string bool) (key : string)
  : gmap string bool :=
  match data !! key with
  | Some _ => <[key := false]> data
  | None => data
  end.

(** [Gap.current_settings_get(key)] *)
Definition current_settings_get (data : gmap string bool) (key : string)
  : bool :=
  match data !! key with
  | Some b => b
  | None => false
  end.

(** [Gap.iut_has_privacy()] *)
Definition iut_has_privacy (data : gmap string bool) : bool :=
  current_settings_get data "Privacy".

End Gap.

(** ** Supported services *)

(** What [Stack.is_svc_supported] can raise: the subscript of the
    dictionary on an unknown name, and [1 << n] on a negative [n]. *)
Inductive svc_error : Type :=
| KeyError
| NegativeShiftCount.

Section Services.

(** The attributes of the module [defs] by name. *)
Variable defs : string -> Z.

(** [1 << n] *)
Definition shift_one (n : Z) : svc_error + Z :=
  if n <? 0 then inl NegativeShiftCount else inr (Z.shiftl 1 n).

(** The names of [services] and the constant of [defs] each is built
    from, in the order of the dictionary display. *)
Definition service_ids : list (string * string) :=
  [("CORE", "BTP_SERVICE_ID_CORE"); ("GAP", "BTP_SERVICE_ID_GAP");
   ("GATT", "BTP_SERVICE_ID_GATT"); ("L2CAP", "BTP_SERVICE_ID_L2CAP");
   ("MESH", "BTP_SERVICE_ID_MESH"); ("MESH_MMDL", "BTP_SERVICE_ID_MMDL");
   ("GATT_CL", "BTP_SERVICE_ID_GATTC"); ("VCS", "BTP_SERVICE_ID_VCS");
   ("IAS", "BTP_SERVICE_ID_IAS"); ("AICS", "BTP_SERVICE_ID_AICS");
   ("VOCS", "BTP_SERVICE_ID_VOCS"); ("PACS", "BTP_SERVICE_ID_PACS");
   ("ASCS", "BTP_SERVICE_ID_ASCS"); ("BAP", "BTP_SERVICE_ID_BAP");
   ("MICP", "BTP_SERVICE_ID_MICP"); ("HAS", "BTP_SERVICE_ID_HAS");
   ("CSIS", "BTP_SERVICE_ID_CSIS"); ("MICS", "BTP_SERVICE_ID_MICS");
   ("CCP", "BTP_SERVICE_ID_CCP"); ("VCP", "BTP_SERVICE_ID_VCP");
   ("MCP", "BTP_SERVICE_ID_MCP"); ("GMCS", "BTP_SERVICE_ID_GMCS")].

(** The dictionary display: the entries are evaluated and stored in
    order. *)
Fixpoint build_services (ids : list (string * string))
    (services : gmap string Z) : svc_error + gmap string Z :=
  match ids with
  | [] => inr services
  | (name, const) :: ids' =>
      match shift_one (defs const) with
      | inl e => inl e
      | inr mask => build_services ids' (<[name := mask]> services)
      end
  end.

(** [Stack.is_svc_supported(svc)], over [self.supported_svcs] *)
Definition is_svc_supported (supported_svcs : Z) (svc : string)
  : svc_error + bool :=
  match build_services service_ids ∅ with
  | inl e => inl e
  | inr services =>
      match services !! svc with
      | None => inl KeyError
      | Some mask => inr (0 <? Z.land supported_svcs mask)
      end
  end.

End Services.

(** ** GATT server database *)

(** [GattCharacteristicDescriptor]: the attributes [Gatt] itself adds to
    its database; [has_changed] is the flag of the [Event]. *)
Record GattCharacteristicDescriptor : Type :=
  mkDescriptor { handle : Z;
                 perm : PyVal;
                 uuid : PyVal;
                 att_read_rsp : PyVal;
                 value : PyVal;
                 has_changed_cnt : Z;
                 has_changed : bool }.

(** [GattCharacteristicDescriptor(handle, perm, uuid, att_rsp, value)] *)
Definition GattCharacteristicDescriptor_init (handle : Z)
    (perm uuid att_rsp value : PyVal) : GattCharacteristicDescriptor :=
  {| handle := handle; perm := perm; uuid := uuid; att_read_rsp := att_rsp;
     value := value; has_changed_cnt := 0; has_changed := false |}.

Definition with_value (v : PyVal) (attr : GattCharacteristicDescriptor)
  : GattCharacteristicDescriptor :=
  {| handle := handle attr; perm := perm attr; uuid := uuid attr;
     att_read_rsp := att_read_rsp attr; value := v;
     has_changed_cnt := has_changed_cnt attr;
     has_changed := has_changed attr |}.

Definition with_changed (cnt : Z) (flag : bool)
    (attr : GattCharacteristicDescriptor) : GattCharacteristicDescriptor :=
  {| handle := handle attr; perm := perm attr; uuid := uuid attr;
     att_read_rsp := att_read_rsp attr; value := value attr;
     has_changed_cnt := cnt; has_changed := flag |}.

(** [GattDB]: the dictionary [db], as the methods of [Gatt] fill it; an
    attribute is updated in place under the handle it was found by. *)
Definition GattDB : Type := gmap Z GattCharacteristicDescriptor.

(** [GattDB()] *)
Definition GattDB_init : GattDB := ∅.

(** [GattDB.attr_add(handle, attr)] *)
Definition attr_add (db : GattDB) (handle : Z)
    (attr : GattCharacteristicDescriptor) : GattDB :=
  <[handle := attr]> db.

(** [GattDB.attr_lookup_handle(handle)] *)
Definition attr_lookup_handle (db : GattDB) (handle : Z)
  : option GattCharacteristicDescriptor :=
  db !! handle.

Module Gatt.

(** [Gatt.attr_value_set(handle, value)], over [self.server_db] *)
Definition attr_value_set (server_db : GattDB) (handle : Z) (value : PyVal)
  : GattDB :=
  match attr_lookup_handle server_db handle with
  | Some attr => <[handle := with_value value attr]> server_db
  | None =>
      attr_add server_db handle
        (GattCharacteristicDescriptor_init handle PNone PNone PNone value)
  end.

(** [Gatt.attr_value_get(handle)] *)
Definition attr_value_get (server_db : GattDB) (handle : Z) : PyVal :=
  match attr_lookup_handle server_db handle with
  | Some attr => value attr
  | None => PNone
  end.

(** [Gatt.attr_value_set_changed(handle)]; an unknown handle is logged. *)
Definition attr_value_set_changed (server_db : GattDB) (handle : Z) : GattDB :=
  match attr_lookup_handle server_db handle with
  | None => server_db
  | Some attr =>
      <[handle := with_changed (has_changed_cnt attr + 1) true attr]> server_db
  end.

(** [Gatt.attr_value_clr_changed(handle)] *)
Definition attr_value_clr_changed (server_db : GattDB) (handle : Z) : GattDB :=
  match attr_lookup_handle server_db handle with
  | None => server_db
  | Some attr => <[handle := with_changed 0 false attr]> server_db
  end.

(** [Gatt.attr_value_get_changed_cnt(handle)] *)
Definition attr_value_get_changed_cnt (server_db : GattDB) (handle : Z) : Z :=
  match attr_lookup_handle server_db handle with
  | None => 0
  | Some attr => has_changed_cnt attr
  end.

(** [attr.has_changed.wait(timeout=timeout)]: [threading.Event.wait]
    returns as soon as the flag is set, and at the end of the timeout
    with the flag as it is then; a turn sees the attribute of the moment,
    [flag_is_set] says that the timeout has not run out. *)
Fixpoint has_changed_wait (sched : list (Tick GattCharacteristicDescriptor))
  : outcome (option GattCharacteristicDescriptor) :=
  match sched with
  | [] => Pending
  | tk :: sched' =>
      if has_changed (seen tk) then Returned (Some (seen tk))
      else if negb (flag_is_set tk) then Returned None
      else has_changed_wait sched'
  end.

(** [Gatt.wait_attr_value_changed(handle, timeout)]: the result, and the
    database as the call leaves it. *)
Definition wait_attr_value_changed (server_db : GattDB) (handle : Z)
    (sched : list (Tick GattCharacteristicDescriptor))
  : outcome PyVal * GattDB :=
  let server_db' :=
    match attr_lookup_handle server_db handle with
    | Some _ => server_db
    | None =>
        attr_add server_db handle
          (GattCharacteristicDescriptor_init handle PNone PNone PNone PNone)
    end in
  match has_changed_wait sched with
  | Returned (Some attr) => (Returned (value attr), server_db')
  | Returned None => (Returned PNone, server_db')
  | Raised e => (Raised e, server_db')
  | Pending => (Pending, server_db')
  end.

End Gatt.

(** ** GATT client waits *)

Module GattCl.

(** [GattCl.is_prim_disc_complete(args)], over [self.prim_svcs] and
    [self.prim_svcs_cnt]; [is_incl_disc_complete], [is_chrcs_disc_complete]
    and [is_dscs_disc_complete] are the same over their list and count. *)
Definition is_prim_disc_complete {A : Type} (g : list A * option Z) : bool :=
  is_procedure_done (fst g) (snd g).

Definition is_incl_disc_complete {A : Type} (g : list A * option Z) : bool :=
  is_procedure_done (fst g) (snd g).

Definition is_chrcs_disc_complete {A : Type} (g : list A * option Z) : bool :=
  is_procedure_done (fst g) (snd g).

Definition is_dscs_disc_complete {A : Type} (g : list A * option Z) : bool :=
  is_procedure_done (fst g) (snd g).

(** [GattCl.wait_for_prim_svcs(timeout)] and its three siblings *)
Definition wait_for_prim_svcs {A : Type} (g : list A * option Z)
    (sched : list (Tick (list A * option Z))) : outcome bool :=
  wait_for_event is_prim_disc_complete g sched.

Definition wait_for_incl_svcs {A : Type} (g : list A * option Z)
    (sched : list (Tick (list A * option Z))) : outcome bool :=
  wait_for_event is_incl_disc_complete g sched.

Definition wait_for_chrcs {A : Type} (g : list A * option Z)
    (sched : list (Tick (list A * option Z))) : outcome bool :=
  wait_for_event is_chrcs_disc_complete g sched.

Definition wait_for_descs {A : Type} (g : list A * option Z)
    (sched : list (Tick (list A * option Z))) : outcome bool :=
  wait_for_event is_dscs_disc_complete g sched.

(** [GattCl.wait_for_notifications(timeout, expected_count)], over
    [self.notifications] *)
Definition wait_for_notifications {A : Type} (notifications : list A)
    (expected_count : Z) (sched : list (Tick (list A))) : outcome bool :=
  wait_for_event (fun n => is_notification_rxed n expected_count)
    notifications sched.

End GattCl.

(** ** Vocabulary of the properties *)

(** A turn of a polling loop before the deadline and without
    cancellation. *)
Definition live_tick {S : Type} (tk : Tick S) : bool :=
  flag_is_set tk && negb (GLOBAL_END tk).

(** Everything appended to a queue during a run of turns. *)
Definition appended (ticks : list (Tick (list Obj))) : list Obj :=
  concat (map seen ticks).

(** Removal by identity, as the specification words it: the first item
    that is the very object [x] goes, whatever compares equal to it. *)
Fixpoint remove_identical (x : Obj) (l : list Obj) : list Obj :=
  match l with
  | [] => []
  | y :: l' => if obj_is y x then l' else y :: remove_identical x l'
  end.

(** [n] turns with the timer flag still set and the cancellation flag
    raised at each of them, then the turn at which the timer has fired. *)
Definition cancelled_until_timeout {S : Type} (n : nat) (s : S)
  : list (Tick S) :=
  repeat (mkTick true true s) n ++ [mkTick false true s].

(** The loop that [wait_event_with_condition] and [wait_for_event_iut]
    share, for any test of a record. *)
Fixpoint queue_wait (matches : Obj -> bool) (event_queue : list Obj)
    (remove : bool) (sched : list (Tick (list Obj)))
  : outcome (option Obj) * list Obj :=
  match sched with
  | [] => (Pending, event_queue)
  | tk :: sched' =>
      if negb (flag_is_set tk) then (Returned None, event_queue)
      else if GLOBAL_END tk then (Raised GlobalEnd, event_queue)
      else
        let event_queue := event_queue ++ seen tk in
        match find matches event_queue with
        | Some ev =>
            if truthy (oval ev) && remove then
              match list_remove ev event_queue with
              | Some q' => (Returned (Some ev), q')
              | None => (Raised ValueError, event_queue)
              end
            else (Returned (Some ev), event_queue)
        | None => queue_wait matches event_queue remove sched'
        end
  end.

(** A method run by another thread, from start to end, as a transition of
    the environment. *)
Definition by_thread {A : Type} (m : M A) : Heap -> Heap :=
  fun h => heap (snd (m {| heap := h; env := []; trace := [] |})).

(** Two sync points of test case [T], with wait-ids 1 and 2, that no
    scenario has registered yet; and the state in which they have just been
    registered as one scenario, with the environment [env] to come. *)
Definition two_points : Heap :=
  {| points := <[0%nat := mkPoint "T" 1 None None]>
                 (<[1%nat := mkPoint "T" 2 (Some 3) None]> ∅);
     signals := ∅; elems := ∅; _synch_table := [] |}.

Definition registered (env : list (Heap -> Heap)) : State :=
  snd (add_synch_element [0%nat; 1%nat]
         {| heap := two_points; env := env; trace := [] |}).

(** A state with its heap replaced. *)
Definition with_heap (h : Heap) (st : State) : State :=
  {| heap := h; env := env st; trace := trace st |}.

(** A point that has a completion signal; an element whose points all
    have one; a registry whose elements are all such.  Registration makes
    it so, see [add_synch_element_ready]. *)
Definition point_ready (h : Heap) (p : loc) : Prop :=
  exists pt s sg,
    points h !! p = Some pt /\ done pt = Some s /\ signals h !! s = Some sg.

Definition elem_ready (h : Heap) (e : loc) : Prop :=
  exists el, elems h !! e = Some el /\ Forall (point_ready h) (sync_points el).

Definition registry_ready (h : Heap) : Prop :=
  Forall (elem_ready h) (_synch_table h).

(** An element after cancellation: both barriers broken, every signal
    set. *)
Definition elem_cancelled (h : Heap) (e : loc) : Prop :=
  exists el,
    elems h !! e = Some el /\
    is_broken (_start_barrier el) = true /\
    is_broken (_end_barrier el) = true /\
    Forall (fun p => signal_is_set h p = true) (sync_points el).

(** [h'] is [h] further along a cancellation: the same points and table,
    the same elements with barriers that stay broken once broken, the same
    signals with flags that stay set once set. *)
Definition heap_advances (h h' : Heap) : Prop :=
  points h' = points h /\
  _synch_table h' = _synch_table h /\
  (forall e el, elems h !! e = Some el ->
     exists el',
       elems h' !! e = Some el' /\
       sync_points el' = sync_points el /\
       (is_broken (_start_barrier el) = true ->
        is_broken (_start_barrier el') = true) /\
       (is_broken (_end_barrier el) = true ->
        is_broken (_end_barrier el') = true)) /\
  (forall s sg, signals h !! s = Some sg ->
     exists sg', signals h' !! s = Some sg' /\
                 (flag sg = true -> flag sg' = true)).

(** A computation that leaves the trace as it is. *)
Definition quiet {A : Type} (m : M A) : Prop :=
  forall st, trace (snd (m st)) = trace st.

(** The flag of a signal object. *)
Definition signal_up (h : Heap) (s : loc) : bool :=
  match signals h !! s with
  | Some sg => flag sg
  | None => false
  end.

(** A trace entry that records a wait on [point] that returned when the
    signal waited on was set. *)
Definition observed_set (point : loc) (entry : Effect * Heap) : Prop :=
  exists s, fst entry = Waited point s /\ signal_up (snd entry) s = true.

(** The point [p] has the signal [s], which is not set; and a transition
    of the environment that leaves this so. *)
Definition pending_on (p s : loc) (h : Heap) : Prop :=
  (exists pt, points h !! p = Some pt /\ done pt = Some s) /\
  signal_up h s = false.

Definition keeps_pending (p s : loc) (f : Heap -> Heap) : Prop :=
  forall h, pending_on p s h -> pending_on p s (f h).





Definition second_takes_turn : Heap -> Heap :=
  by_thread (wait_for_your_turn 0%nat 1%nat >> wait_for_end 0%nat).

Definition first_takes_turn : Heap -> Heap :=
  by_thread (wait_for_your_turn 0%nat 0%nat >> wait_for_end 0%nat).

Definition second_at_turn (env : list (Heap -> Heap)) : State :=
  snd (SynchElem_wait_for_start 0%nat
         (registered (by_thread (SynchElem_wait_for_start 0%nat) :: env))).

(** A turn at which [wait_for_event] keeps polling: timer flag set, no
    cancellation, test not satisfied. *)
Definition idle_tick {S : Type} (test : S -> bool) (tk : Tick S) : bool :=
  flag_is_set tk && negb (GLOBAL_END tk) && negb (test (seen tk)).

(** Whether a point is the one a thread asks for by test case and
    wait-id, and the point an element answers with. *)
Definition point_matches (h : Heap) (tc : string) (w : Z) (p : loc) : bool :=
  match points h !! p with
  | Some pt => bool_decide (test_case pt = tc) && (wid pt =? w)
  | None => false
  end.

Definition elem_matches (h : Heap) (tc : string) (w : Z) (e : loc)
  : option loc :=
  match elems h !! e with
  | Some el => find_matching h el tc w
  | None => None
  end.

(** Two points that differ at most in their completion signal. *)
Definition same_identity (pt pt' : SynchPoint) : Prop :=
  test_case pt' = test_case pt /\ wid pt' = wid pt /\ delay pt' = delay pt.

(** [h'] is [h] after some completion signals were cleared: nothing else
    differs, no signal appears or disappears, no flag goes up. *)
Definition heap_cleared (h h' : Heap) : Prop :=
  points h' = points h /\
  elems h' = elems h /\
  _synch_table h' = _synch_table h /\
  (forall s, signals h !! s = None -> signals h' !! s = None) /\
  (forall s sg, signals h !! s = Some sg ->
     exists sg', signals h' !! s = Some sg' /\
                 (flag sg' = true -> flag sg = true)).

(** The barrier a party leaves behind when it was the last to arrive and
    [waiting] parties are still inside [wait]. *)
Definition released_barrier (b : Barrier) : Barrier :=
  {| _parties := _parties b;
     _state := if Nat.eqb (_count b) 0 then filling else draining;
     _count := _count b |}.

(** The two registered points with the thread of wait-id 2 already
    waiting at the entry barrier. *)
Definition other_waits_at_start : State :=
  with_heap (by_thread (SynchElem_wait_for_start 0%nat)
               (heap (registered []))) (registered []).


(** The channels of an [L2cap] have distinct ids and are connected. *)
Definition channels_ok (l : L2cap.t) : Prop :=
  NoDup (map L2capChan.id (L2cap.channels l)) /\
  Forall (fun c => L2capChan.state c = "connected") (L2cap.channels l).

(** A list that other threads only append to, as the turns of a wait see
    it. *)
Fixpoint growing {A : Type} (now : list A) (sched : list (Tick (list A)))
  : Prop :=
  match sched with
  | [] => True
  | tk :: sched' => (exists more, seen tk = now ++ more) /\ growing (seen tk) sched'
  end.

(** The heap after the transitions [pre] of the other threads. *)
Definition after_env (pre : list (Heap -> Heap)) (h : Heap) : Heap :=
  fold_left (fun h f => f h) pre h.

(** A thread that waits for [ready] since the heap [h] is still waiting
    after each of the transitions [pre]. *)
Fixpoint still_waiting (ready : Heap -> bool) (pre : list (Heap -> Heap))
    (h : Heap) : Prop :=
  ready h = false /\
  match pre with
  | [] => True
  | f :: pre' => still_waiting ready pre' (f h)
  end.

(** What [Barrier._wait] waits for: the barrier has left the filling
    state. *)
Definition barrier_left_filling (e : loc) (w : which_barrier) : Heap -> bool :=
  barrier_ready e w
    (fun b => match _state b with filling => false | _ => true end).

(** The thread of [st0], which waits for [ready], is still waiting when
    another thread runs [cancel_synch], in the heap of [st]; the
    transitions [post] come after the cancellation. *)
Definition waiting_at_cancel (ready : Heap -> bool) (st0 st : State)
    (post : list (Heap -> Heap)) : Prop :=
  exists pre,
    env st0 = pre ++ by_thread cancel_synch :: post /\
    still_waiting ready pre (heap st0) /\
    after_env pre (heap st0) = heap st.

(** The signal [s] is the completion signal of a point of a registered
    element. *)
Definition named_by_registry (h : Heap) (s : loc) : Prop :=
  exists e el p pt,
    In e (_synch_table h) /\ elems h !! e = Some el /\
    In p (sync_points el) /\ points h !! p = Some pt /\ done pt = Some s.

(** The two points are registered, both threads have passed the entry
    barrier and the thread of wait-id 2 is about to wait for its turn;
    while it waits, the same two points are registered again, and then the
    registry is cancelled. *)
Definition registered_again_then_cancelled : State :=
  second_at_turn [by_thread (add_synch_element [0%nat; 1%nat]);
                  by_thread cancel_synch].









(** * Properties *)

(** ** Procedure-completion predicates *)

Lemma length_pos_nonempty {A : Type} (l : list A) :
  (0 <? Z.of_nat (length l)) = true <-> l <> [].
Proof.
  destruct l as [|a l]; simpl.
  - split; [discriminate | congruence].
  - split; [discriminate | intros _; apply Z.ltb_lt; lia].
Qed.

(** C9, as amended: with a non-positive expected count,
    [is_notification_rxed] holds exactly when at least one notification was
    received, while [is_procedure_done] holds whatever the list contains. *)
Theorem unbounded_count_sentinel {A : Type} (l : list A) (cnt : Z)
    (Hsentinel : cnt <= 0) :
  (is_notification_rxed l cnt = true <-> l <> []) /\
  is_procedure_done l (Some cnt) = true.
Proof.
  unfold is_notification_rxed, is_procedure_done.
  assert (H1 : (0 <? cnt) = false) by (apply Z.ltb_ge; lia).
  assert (H2 : (cnt <=? 0) = true) by (apply Z.leb_le; lia).
  rewrite H1, H2. split; [apply length_pos_nonempty | reflexivity].
Qed.

Lemma unbounded_count_sentinel_witness :
  (is_notification_rxed [PInt 7] 0 = true <-> [PInt 7] <> []) /\
  is_procedure_done [PInt 7] (Some 0) = true.
Proof. apply (unbounded_count_sentinel [PInt 7] 0). lia. Defined.

(** C9, as stated, fails: [is_procedure_done] with the sentinel count is
    satisfied by an empty list. *)
Lemma is_procedure_done_empty_sentinel :
  is_procedure_done (@nil PyVal) (Some 0) = true /\
  ~ (is_procedure_done (@nil PyVal) (Some 0) = true ->
     (0 < length (@nil PyVal))%nat).
Proof.
  split; [reflexivity |].
  intros H. specialize (H eq_refl). simpl in H. lia.
Qed.

(** ** CORE.cleanup *)

(** C10: [CORE.cleanup], which [Stack.core_init] runs on an existing
    [CORE], leaves the queue of [CORE_EV_IUT_READY] as it was and empties
    the queue of every other key; no key appears or disappears. *)
Theorem cleanup_keeps_iut_ready (READY : Z)
    (event_queues : gmap Z (list Obj)) (key : Z) (q : list Obj)
    (Hq : event_queues !! key = Some q) :
  core_init READY (Some event_queues) = cleanup READY event_queues /\
  cleanup READY event_queues !! READY = event_queues !! READY /\
  cleanup READY event_queues !! key =
    Some (if bool_decide (key = READY) then q else []) /\
  dom (cleanup READY event_queues) = dom event_queues.
Proof.
  unfold core_init, cleanup. split; [reflexivity |].
  split; [| split].
  - rewrite map_lookup_imap. destruct (event_queues !! READY) as [r|]; simpl.
    + rewrite bool_decide_eq_true_2 by reflexivity. reflexivity.
    + reflexivity.
  - rewrite map_lookup_imap, Hq. simpl.
    destruct (bool_decide (key = READY)); reflexivity.
  - apply set_eq. intros k. rewrite !elem_of_dom, map_lookup_imap.
    destruct (event_queues !! k) as [r|]; simpl.
    + destruct (bool_decide (k = READY)); split; intros _; eexists; reflexivity.
    + split; intros [? ?]; discriminate.
Qed.

Lemma cleanup_keeps_iut_ready_witness :
  let queues : gmap Z (list Obj) :=
    <[128 := [mkObj 0 (PTuple [PInt 1])]]>
      (<[129 := [mkObj 1 (PTuple [PInt 2])]]> ∅) in
  cleanup 128 queues !! 128 = Some [mkObj 0 (PTuple [PInt 1])] /\
  cleanup 128 queues !! 129 = Some [].
Proof.
  intros queues.
  pose proof (cleanup_keeps_iut_ready 128 queues 129
                [mkObj 1 (PTuple [PInt 2])] eq_refl) as (_ & Hready & Hkey & _).
  split; [rewrite Hready; reflexivity | rewrite Hkey; reflexivity].
Defined.

(** ** Cancellation in the polling waits *)

Lemma blob_target_lost_loop_never_raises (sched : list (Tick bool)) (e : exn) :
  wait_for_blob_target_lost_loop sched <> Raised e.
Proof.
  induction sched as [|tk sched IH]; simpl; [discriminate |].
  destruct (flag_is_set tk); simpl; [| discriminate].
  destruct (seen tk); [discriminate | exact IH].
Qed.

Lemma blob_target_lost_loop_cancelled (n : nat) :
  wait_for_blob_target_lost_loop (cancelled_until_timeout n false)
  = Returned false.
Proof.
  unfold cancelled_until_timeout.
  induction n as [|n IH]; simpl; [reflexivity | exact IH].
Qed.

Lemma model_added_op_loop_cancelled (op : list Z) (data : model_recv)
    (n : nat) :
  fst (wait_for_model_added_op_loop op data (cancelled_until_timeout n None))
  = Returned false.
Proof.
  unfold cancelled_until_timeout. revert data.
  induction n as [|n IH]; intros data; simpl; [reflexivity | apply IH].
Qed.

(** C2 fails on [Mesh.wait_for_blob_target_lost] and
    [Mesh.wait_for_model_added_op]: with the cancellation flag raised at
    every one of [S n] polls, both keep polling until the timer fires and
    then return the timeout value [False]; they raise on no schedule.
    [Mesh.wait_for_lpn_established], which has the same loop with the
    check, aborts at its first poll. *)
Theorem mesh_waits_ignore_cancellation (n : nat) :
  wait_for_blob_target_lost false (cancelled_until_timeout (S n) false)
    = Returned false /\
  fst (wait_for_model_added_op [1; 2; 3; 4] None
         (cancelled_until_timeout (S n) None)) = Returned false /\
  (forall lost sched e, wait_for_blob_target_lost lost sched <> Raised e) /\
  wait_for_lpn_established false (cancelled_until_timeout (S n) false)
    = Raised GlobalEnd.
Proof.
  split; [| split; [| split]].
  - apply (blob_target_lost_loop_cancelled (S n)).
  - apply (model_added_op_loop_cancelled [1; 2; 3; 4] None (S n)).
  - intros lost sched e. unfold wait_for_blob_target_lost.
    destruct lost; [discriminate | apply blob_target_lost_loop_never_raises].
  - reflexivity.
Qed.

(** ** The condition wait over an event queue *)

Lemma find_app_none {A : Type} (f : A -> bool) (l1 l2 : list A) :
  find f l1 = None -> find f (l1 ++ l2) = find f l2.
Proof.
  induction l1 as [|a l1 IH]; simpl; [reflexivity |].
  destruct (f a); [discriminate | exact IH].
Qed.

Lemma find_app_some {A : Type} (f : A -> bool) (l1 l2 : list A) (x : A) :
  find f l1 = Some x -> find f (l1 ++ l2) = Some x.
Proof.
  induction l1 as [|a l1 IH]; simpl; [discriminate |].
  destruct (f a); [intros H; exact H | exact IH].
Qed.

(** The first match splits the queue: nothing before it matches. *)
Lemma find_first_match {A : Type} (f : A -> bool) (l : list A) (x : A) :
  find f l = Some x ->
  exists pre post,
    l = pre ++ x :: post /\ f x = true /\ Forall (fun y => f y = false) pre.
Proof.
  induction l as [|a l IH]; simpl; [discriminate |].
  destruct (f a) eqn:Ha.
  - intros [= ->]. exists [], l. repeat split; [exact Ha | constructor].
  - intros H. destruct (IH H) as (pre & post & -> & Hx & Hpre).
    exists (a :: pre), post. repeat split; [exact Hx |].
    constructor; [exact Ha | exact Hpre].
Qed.

Lemma find_of_split {A : Type} (f : A -> bool) (pre post : list A) (x : A) :
  Forall (fun y => f y = false) pre -> f x = true ->
  find f (pre ++ x :: post) = Some x.
Proof.
  intros Hpre Hx. induction Hpre as [|a pre Ha _ IH]; simpl.
  - rewrite Hx. reflexivity.
  - rewrite Ha. exact IH.
Qed.

Lemma py_eq_refl (v : PyVal) : py_eq v v = true.
Proof.
  revert v. fix IH 1. intros [ | b | z | bs | vs]; simpl.
  - reflexivity.
  - destruct b; reflexivity.
  - apply Z.eqb_refl.
  - apply bool_decide_eq_true_2. reflexivity.
  - induction vs as [|v vs IHvs]; [reflexivity |].
    rewrite (IH v). simpl. exact IHvs.
Qed.

(** [list.remove(ev)] finds something whenever [ev] is in the list. *)
Lemma list_remove_present (ev : Obj) (l : list Obj) :
  In ev l -> exists l', list_remove ev l = Some l'.
Proof.
  induction l as [|y l IH]; simpl; [intros [] |].
  intros [-> | Hin].
  - unfold obj_is. rewrite Nat.eqb_refl. simpl. eexists; reflexivity.
  - destruct (obj_is y ev || py_eq (oval y) (oval ev)); [eexists; reflexivity |].
    destruct (IH Hin) as [l' ->]. eexists; reflexivity.
Qed.

(** What [list.remove(ev)] leaves: the first item that is [ev] or equals it
    is gone, the others stay in place. *)
Lemma list_remove_split (ev : Obj) (l l' : list Obj) :
  list_remove ev l = Some l' ->
  exists pre x post,
    l = pre ++ x :: post /\
    (obj_is x ev || py_eq (oval x) (oval ev)) = true /\
    Forall (fun y => (obj_is y ev || py_eq (oval y) (oval ev)) = false) pre /\
    l' = pre ++ post.
Proof.
  revert l'. induction l as [|y l IH]; simpl; intros l'; [discriminate |].
  destruct (obj_is y ev || py_eq (oval y) (oval ev)) eqn:Hy.
  - intros [= <-]. exists [], y, l. repeat split; [exact Hy | constructor].
  - destruct (list_remove ev l) as [r|] eqn:Hr; simpl; [| discriminate].
    intros [= <-]. destruct (IH r eq_refl) as (pre & x & post & -> & Hx & Hpre & ->).
    exists (y :: pre), x, post. repeat split; [exact Hx |].
    constructor; [exact Hy | exact Hpre].
Qed.

Lemma list_remove_of_split (ev x : Obj) (pre post : list Obj) :
  Forall (fun y => (obj_is y ev || py_eq (oval y) (oval ev)) = false) pre ->
  (obj_is x ev || py_eq (oval x) (oval ev)) = true ->
  list_remove ev (pre ++ x :: post) = Some (pre ++ post).
Proof.
  intros Hpre Hx. induction Hpre as [|a pre Ha _ IH]; simpl.
  - rewrite Hx. reflexivity.
  - rewrite Ha, IH. reflexivity.
Qed.

Lemma wait_event_with_condition_queue_wait (q : list Obj) (cb : condition)
    (remove : bool) (sched : list (Tick (list Obj))) :
  wait_event_with_condition q cb remove sched
  = queue_wait (apply_cb cb) q remove sched.
Proof.
  revert q. induction sched as [|tk sched IH]; intros q; simpl; [reflexivity |].
  destruct (flag_is_set tk); simpl; [| reflexivity].
  destruct (GLOBAL_END tk); simpl; [reflexivity |].
  unfold scan_condition. rewrite IH. reflexivity.
Qed.

Lemma wait_for_event_iut_queue_wait (q : list Obj) (remove : bool)
    (sched : list (Tick (list Obj))) :
  wait_for_event_iut q remove sched
  = queue_wait (fun ev => truthy (oval ev)) q remove sched.
Proof.
  revert q. induction sched as [|tk sched IH]; intros q; simpl; [reflexivity |].
  destruct (flag_is_set tk); simpl; [| reflexivity].
  destruct (GLOBAL_END tk); simpl; [reflexivity |].
  rewrite IH. reflexivity.
Qed.

Lemma live_tick_inv {S : Type} (tk : Tick S) :
  live_tick tk = true -> flag_is_set tk = true /\ GLOBAL_END tk = false.
Proof.
  unfold live_tick. destruct (flag_is_set tk), (GLOBAL_END tk);
    simpl; intros H; try discriminate; split; reflexivity.
Qed.

Lemma find_prefix_none {A : Type} (f : A -> bool) (l1 l2 : list A) :
  find f (l1 ++ l2) = None -> find f l1 = None.
Proof.
  destruct (find f l1) as [x|] eqn:H; [| reflexivity].
  rewrite (find_app_some f l1 l2 x H). discriminate.
Qed.

(** While nothing matches, live turns only let the queue grow. *)
Lemma queue_wait_skips (matches : Obj -> bool) (live : list (Tick (list Obj)))
    (q : list Obj) (remove : bool) (rest : list (Tick (list Obj))) :
  Forall (fun tk => live_tick tk = true) live ->
  find matches (q ++ appended live) = None ->
  queue_wait matches q remove (live ++ rest)
  = queue_wait matches (q ++ appended live) remove rest.
Proof.
  intros Hlive. revert q.
  induction Hlive as [|tk live Htk _ IH]; intros q Hnone.
  - unfold appended. simpl. rewrite app_nil_r. reflexivity.
  - destruct (live_tick_inv tk Htk) as [Hf Hg].
    unfold appended in *. simpl in *. rewrite Hf, Hg. simpl.
    rewrite List.app_assoc in Hnone.
    rewrite (find_prefix_none _ _ _ Hnone).
    rewrite IH by exact Hnone. rewrite List.app_assoc. reflexivity.
Qed.

(** A record that matches before the deadline is found, and it is the
    first one in queue order. *)
Lemma queue_wait_finds (matches : Obj -> bool) (live : list (Tick (list Obj)))
    (q : list Obj) (remove : bool) (rest : list (Tick (list Obj))) (ev : Obj) :
  Forall (fun tk => live_tick tk = true) live ->
  live <> [] ->
  find matches (q ++ appended live) = Some ev ->
  fst (queue_wait matches q remove (live ++ rest)) = Returned (Some ev).
Proof.
  intros Hlive. revert q.
  induction Hlive as [|tk live Htk Hrest IH]; intros q Hne Hsome;
    [congruence |].
  destruct (live_tick_inv tk Htk) as [Hf Hg].
  unfold appended in *. simpl in *. rewrite Hf, Hg. simpl.
  rewrite List.app_assoc in Hsome.
  destruct (find matches (q ++ seen tk)) as [ev'|] eqn:Hscan.
  - rewrite (find_app_some _ _ _ _ Hscan) in Hsome.
    injection Hsome as ->.
    destruct (truthy (oval ev) && remove); [| reflexivity].
    destruct (list_remove_present ev (q ++ seen tk)) as [q' ->];
      [| reflexivity].
    apply (find_some _ _ Hscan).
  - destruct live as [|tk' live].
    + simpl in Hsome. rewrite app_nil_r in Hsome. congruence.
    + apply IH; [discriminate | exact Hsome].
Qed.

(** Both cases at once: after the live turns [live] the timer fires. *)
Lemma queue_wait_deadline (matches : Obj -> bool)
    (live : list (Tick (list Obj))) (q : list Obj) (remove : bool)
    (tk : Tick (list Obj)) (rest : list (Tick (list Obj))) :
  Forall (fun tk => live_tick tk = true) live ->
  flag_is_set tk = false ->
  fst (queue_wait matches q remove (live ++ tk :: rest))
  = Returned (match live with
              | [] => None
              | _ => find matches (q ++ appended live)
              end).
Proof.
  intros Hlive Hexp. destruct live as [|tk0 live].
  - simpl. rewrite Hexp. reflexivity.
  - destruct (find matches (q ++ appended (tk0 :: live))) as [ev|] eqn:Hfind.
    + apply queue_wait_finds; [exact Hlive | discriminate | exact Hfind].
    + rewrite queue_wait_skips by assumption.
      simpl. rewrite Hexp. reflexivity.
Qed.

(** C5, as amended: let the timer flag stay set, with no cancellation,
    during the turns [live], and be found cleared at the next turn, the
    deadline.  When at least one turn comes before the deadline,
    [wait_event_with_condition] returns the first record, in queue order,
    among those in the queue at the last such turn for which the condition
    holds, and [None] when there is none; when the first turn is already
    the deadline it returns [None] whatever the queue holds.
    [wait_for_event_iut] does the same for the first truthy record.
    Neither raises. *)
Theorem wait_returns_first_match (q : list Obj) (cb : condition)
    (remove : bool) (live : list (Tick (list Obj))) (tk : Tick (list Obj))
    (rest : list (Tick (list Obj)))
    (Hlive : Forall (fun tk => live_tick tk = true) live)
    (Hdeadline : flag_is_set tk = false) :
  fst (wait_event_with_condition q cb remove (live ++ tk :: rest))
  = Returned (match live with
              | [] => None
              | _ => find (apply_cb cb) (q ++ appended live)
              end) /\
  fst (wait_for_event_iut q remove (live ++ tk :: rest))
  = Returned (match live with
              | [] => None
              | _ => find (fun ev => truthy (oval ev)) (q ++ appended live)
              end).
Proof.
  rewrite wait_event_with_condition_queue_wait, wait_for_event_iut_queue_wait.
  split; apply queue_wait_deadline; assumption.
Qed.

Lemma wait_returns_first_match_witness :
  let addr_is (a : Z) : condition :=
    fun args => match args with PInt x :: _ => x =? a | _ => false end in
  let r0 := mkObj 0 (PTuple [PInt 5; PInt 10]) in
  let r1 := mkObj 1 (PTuple [PInt 7; PInt 11]) in
  let r2 := mkObj 2 (PTuple [PInt 7; PInt 12]) in
  fst (wait_event_with_condition [r0] (addr_is 7) true
         ([mkTick true false []; mkTick true false [r1; r2]]
            ++ mkTick false false [] :: []))
  = Returned (Some r1) /\
  fst (wait_event_with_condition [r0] (addr_is 9) true
         ([mkTick true false []; mkTick true false [r1; r2]]
            ++ mkTick false false [] :: []))
  = Returned None.
Proof.
  intros addr_is r0 r1 r2. split.
  - apply (wait_returns_first_match [r0] (addr_is 7) true
             [mkTick true false []; mkTick true false [r1; r2]]
             (mkTick false false []) []);
      [repeat constructor | reflexivity].
  - apply (wait_returns_first_match [r0] (addr_is 9) true
             [mkTick true false []; mkTick true false [r1; r2]]
             (mkTick false false []) []);
      [repeat constructor | reflexivity].
Defined.

(** C5, as stated, fails: when the timer has fired before the first poll
    (a timeout of 0), the loop body never runs; the queue is not scanned
    and [None] is returned although a record that satisfies the condition
    is in the queue. *)
Lemma queued_match_missed_at_an_expired_timer :
  let addr_is (a : Z) : condition :=
    fun args => match args with PInt x :: _ => x =? a | _ => false end in
  let r0 := mkObj 0 (PTuple [PInt 5; PInt 10]) in
  let r1 := mkObj 1 (PTuple [PInt 7; PInt 11]) in
  find (apply_cb (addr_is 7)) [r0; r1] = Some r1 /\
  wait_event_with_condition [r0; r1] (addr_is 7) true [mkTick false false []]
  = (Returned None, [r0; r1]) /\
  find (fun ev => truthy (oval ev)) [r0; r1] = Some r0 /\
  wait_for_event_iut [r0; r1] true [mkTick false false []]
  = (Returned None, [r0; r1]) /\
  fst (wait_event_with_condition [r0; r1] (addr_is 7) true
         [mkTick false false []]) <> Returned (Some r1).
Proof.
  intros addr_is r0 r1.
  split; [reflexivity |]. split; [reflexivity |].
  split; [reflexivity |]. split; [reflexivity |].
  simpl. discriminate.
Qed.

(** ** Removal of the matched record *)

(** A match leaves the queue scanned at that turn, less what [list.remove]
    takes when the record is truthy. *)
Lemma queue_wait_match_inv (matches : Obj -> bool)
    (sched : list (Tick (list Obj))) (q : list Obj) (ev : Obj)
    (q' : list Obj) :
  queue_wait matches q true sched = (Returned (Some ev), q') ->
  exists k,
    find matches (q ++ appended (take k sched)) = Some ev /\
    (if truthy (oval ev)
     then list_remove ev (q ++ appended (take k sched)) = Some q'
     else q' = q ++ appended (take k sched)).
Proof.
  revert q. induction sched as [|tk sched IH]; intros q; simpl;
    [discriminate |].
  destruct (flag_is_set tk); simpl; [| discriminate].
  destruct (GLOBAL_END tk); simpl; [discriminate |].
  destruct (find matches (q ++ seen tk)) as [ev0|] eqn:Hscan.
  - intros H. exists 1%nat. unfold appended. simpl. rewrite !app_nil_r.
    rewrite andb_true_r in H.
    destruct (truthy (oval ev0)) eqn:Ht.
    + destruct (list_remove ev0 (q ++ seen tk)) as [r|] eqn:Hr;
        [| discriminate].
      injection H as -> ->. rewrite Ht. split; [exact Hscan | exact Hr].
    + injection H as -> <-. rewrite Ht. split; [exact Hscan | reflexivity].
  - intros H. destruct (IH _ H) as (k & Hfind & Hq').
    exists (S k). unfold appended in *. simpl.
    rewrite List.app_assoc. split; assumption.
Qed.

(** C3, as amended: when [wait_event_with_condition] with [remove=True]
    returns a record, that record is the first of the scanned queue for
    which the condition holds; if it is falsy the queue is left whole; if
    it is truthy exactly one record is removed, the first one in queue
    order that is the matched record or compares equal to it, and all
    others stay in place.  When the condition gives the same answer on
    records that compare equal, and the records of the queue are distinct
    objects, the record removed is the matched one. *)
Theorem remove_takes_first_equal_record (q : list Obj) (cb : condition)
    (sched : list (Tick (list Obj))) (ev : Obj) (q' : list Obj)
    (Hmatch : wait_event_with_condition q cb true sched
              = (Returned (Some ev), q')) :
  exists k pre post,
    let scanned := q ++ appended (take k sched) in
    scanned = pre ++ ev :: post /\
    apply_cb cb ev = true /\
    Forall (fun y => apply_cb cb y = false) pre /\
    (truthy (oval ev) = false -> q' = scanned) /\
    (truthy (oval ev) = true ->
     exists pre' x post',
       scanned = pre' ++ x :: post' /\
       (obj_is x ev || py_eq (oval x) (oval ev)) = true /\
       Forall (fun y => (obj_is y ev || py_eq (oval y) (oval ev)) = false)
              pre' /\
       q' = pre' ++ post') /\
    (truthy (oval ev) = true ->
     (forall x y, py_eq (oval x) (oval y) = true ->
                  apply_cb cb x = apply_cb cb y) ->
     (forall x, In x scanned -> oid x = oid ev -> x = ev) ->
     q' = pre ++ post).
Proof.
  rewrite wait_event_with_condition_queue_wait in Hmatch.
  destruct (queue_wait_match_inv _ _ _ _ _ Hmatch) as (k & Hfind & Hq').
  destruct (find_first_match _ _ _ Hfind) as (pre & post & Hsplit & Hev & Hpre).
  exists k, pre, post. simpl.
  split; [exact Hsplit |]. split; [exact Hev |]. split; [exact Hpre |].
  split; [| split].
  - intros Ht. rewrite Ht in Hq'. exact Hq'.
  - intros Ht. rewrite Ht in Hq'. apply list_remove_split. exact Hq'.
  - intros Ht Hresp Hdistinct. rewrite Ht in Hq'.
    assert (Hrm : list_remove ev (pre ++ ev :: post) = Some (pre ++ post)).
    { apply list_remove_of_split.
      - rewrite List.Forall_forall in Hpre |- *. intros y Hy.
        destruct (obj_is y ev) eqn:Hid; simpl.
        + apply Nat.eqb_eq in Hid.
          assert (y = ev) as ->.
          { apply Hdistinct; [| exact Hid].
            rewrite Hsplit. apply in_or_app. left. exact Hy. }
          rewrite (Hpre ev Hy) in Hev. discriminate.
        + destruct (py_eq (oval y) (oval ev)) eqn:Heq; [| reflexivity].
          rewrite <- (Hresp y ev Heq), (Hpre y Hy) in Hev. discriminate.
      - unfold obj_is. rewrite Nat.eqb_refl. reflexivity. }
    rewrite Hsplit in Hq'. congruence.
Qed.

Lemma remove_takes_first_equal_record_witness :
  let addr_is (a : Z) : condition :=
    fun args => match args with PInt x :: _ => x =? a | _ => false end in
  let r0 := mkObj 0 (PTuple [PInt 5; PInt 10]) in
  let r1 := mkObj 1 (PTuple [PInt 7; PInt 11]) in
  let r2 := mkObj 2 (PTuple [PInt 7; PInt 11]) in
  wait_event_with_condition [r0; r1; r2] (addr_is 7) true
    [mkTick true false []] = (Returned (Some r1), [r0; r2]) /\
  exists k pre post,
    [r0; r1; r2] ++ appended (take k [mkTick true false []])
    = pre ++ r1 :: post /\ apply_cb (addr_is 7) r1 = true.
Proof.
  intros addr_is r0 r1 r2. split; [reflexivity |].
  destruct (remove_takes_first_equal_record [r0; r1; r2] (addr_is 7)
              [mkTick true false []] r1 [r0; r2] eq_refl)
    as (k & pre & post & Hsplit & Hev & _).
  exists k, pre, post. split; [exact Hsplit | exact Hev].
Defined.

(** C3, as stated, fails: [(1, 5) == (True, 5)] in Python, so when the
    condition holds of the second record only, [list.remove] takes the
    first one; the matched record stays in the queue, whereas removal by
    identity would leave the other one. *)
Lemma remove_takes_an_equal_record :
  let first_is_true : condition :=
    fun args => match args with PBool true :: _ => true | _ => false end in
  let r0 := mkObj 0 (PTuple [PInt 1; PInt 5]) in
  let r1 := mkObj 1 (PTuple [PBool true; PInt 5]) in
  wait_event_with_condition [r0; r1] first_is_true true
    [mkTick true false []] = (Returned (Some r1), [r1]) /\
  remove_identical r1 [r0; r1] = [r0] /\
  snd (wait_event_with_condition [r0; r1] first_is_true true
         [mkTick true false []]) <> remove_identical r1 [r0; r1].
Proof.
  intros first_is_true r0 r1. split; [reflexivity |].
  split; [reflexivity |]. simpl. discriminate.
Qed.

(** A matched record that is falsy, here the integer [0], is returned but
    not removed. *)
Example falsy_match_is_not_removed :
  let is_zero : condition :=
    fun args => match args with [PInt 0] => true | _ => false end in
  wait_event_with_condition [mkObj 0 (PInt 0)] is_zero true
    [mkTick true false []] = (Returned (Some (mkObj 0 (PInt 0))), [mkObj 0 (PInt 0)]).
Proof. reflexivity. Qed.

(** ** Running the monad *)

Lemma bind_run {A B : Type} (m : M A) (k : A -> M B) (st : State) (a : A)
    (st' : State) :
  m st = (Returned a, st') -> bind m k st = k a st'.
Proof. intros H. unfold bind. rewrite H. reflexivity. Qed.

Lemma bind_inv {A B : Type} (m : M A) (k : A -> M B) (st : State) (b : B)
    (st'' : State) :
  bind m k st = (Returned b, st'') ->
  exists a st', m st = (Returned a, st') /\ k a st' = (Returned b, st'').
Proof.
  unfold bind. destruct (m st) as [[a| |] st']; try discriminate.
  intros H. exists a, st'. split; [reflexivity | exact H].
Qed.



Lemma get_elem_run (e : loc) (el : SynchElem) (st : State) :
  elems (heap st) !! e = Some el -> get_elem e st = (Returned el, st).
Proof. intros H. unfold get_elem. rewrite H. reflexivity. Qed.

Lemma get_point_run (p : loc) (pt : SynchPoint) (st : State) :
  points (heap st) !! p = Some pt -> get_point p st = (Returned pt, st).
Proof. intros H. unfold get_point. rewrite H. reflexivity. Qed.

Lemma update_barrier_run (e : loc) (w : which_barrier)
    (f : Barrier -> Barrier) (el : SynchElem) (st : State) :
  elems (heap st) !! e = Some el ->
  update_barrier e w f st =
    (Returned tt,
     with_heap (set_elem e (with_barrier w (f (barrier_of w el)) el) (heap st))
       st).
Proof.
  intros He. unfold update_barrier, bind, get_elem, get_heap, put_heap.
  rewrite He. reflexivity.
Qed.

Lemma await_ready (ready : Heap -> bool) (st : State) :
  ready (heap st) = true -> await ready st = (Returned tt, st).
Proof.
  intros H. unfold await. destruct st as [h en tr]. simpl in *.
  destruct en as [|f en]; simpl; rewrite H; reflexivity.
Qed.

Lemma await_env_ready (ready : Heap -> bool) (en : list (Heap -> Heap))
    (h h' : Heap) (en' : list (Heap -> Heap)) :
  await_env ready h en = (true, h', en') -> ready h' = true.
Proof.
  revert h. induction en as [|f en IH]; intros h; simpl.
  - intros [= Hr <- _]. exact Hr.
  - destruct (ready h) eqn:Hr.
    + intros [= <- _]. exact Hr.
    + apply IH.
Qed.

Lemma await_inv (ready : Heap -> bool) (st : State) (u : unit) (st' : State) :
  await ready st = (Returned u, st') ->
  ready (heap st') = true /\ trace st' = trace st.
Proof.
  unfold await.
  destruct (await_env ready (heap st) (env st)) as [[[|] h] en] eqn:Hw;
    [| discriminate].
  destruct u. intros [= <-]. simpl. split; [| reflexivity].
  exact (await_env_ready _ _ _ _ _ Hw).
Qed.

Lemma quiet_ret {A : Type} (a : A) : quiet (ret a).
Proof. intros st. reflexivity. Qed.


Lemma quiet_bind {A B : Type} (m : M A) (k : A -> M B) :
  quiet m -> (forall a, quiet (k a)) -> quiet (bind m k).
Proof.
  intros Hm Hk st. unfold bind. specialize (Hm st).
  destruct (m st) as [[a| |] st']; simpl in *; try exact Hm.
  rewrite (Hk a st'). exact Hm.
Qed.





Lemma quiet_get_elem (e : loc) : quiet (get_elem e).
Proof. intros st. unfold get_elem. destruct (elems (heap st) !! e); reflexivity. Qed.

Lemma quiet_get_point (p : loc) : quiet (get_point p).
Proof. intros st. unfold get_point. destruct (points (heap st) !! p); reflexivity. Qed.


Lemma quiet_get_barrier (e : loc) (w : which_barrier) : quiet (get_barrier e w).
Proof.
  apply quiet_bind; [apply quiet_get_elem | intros el; apply quiet_ret].
Qed.








Lemma quiet_run {A : Type} (m : M A) (st : State) (r : outcome A)
    (st' : State) :
  quiet m -> m st = (r, st') -> trace st' = trace st.
Proof. intros Hq Hrun. specialize (Hq st). rewrite Hrun in Hq. exact Hq. Qed.


(** ** The entry barrier under abort *)

Lemma broken_state (b : Barrier) : is_broken b = true -> _state b = broken.
Proof. unfold is_broken. destruct (_state b); congruence. Qed.

(** On a broken barrier [Barrier.wait] raises at once. *)
Lemma Barrier_wait_broken (e : loc) (w : which_barrier) (action : M unit)
    (el : SynchElem) (st : State) :
  elems (heap st) !! e = Some el ->
  is_broken (barrier_of w el) = true ->
  Barrier_wait e w action st = (Raised BrokenBarrierError, st).
Proof.
  intros He Hb. apply broken_state in Hb.
  assert (Henter : Barrier_enter e w st = (Raised BrokenBarrierError, st)).
  { unfold Barrier_enter.
    rewrite (bind_run (await _) _ st tt st).
    - unfold get_barrier, bind, get_elem, ret. rewrite He.
      unfold state_negative. rewrite Hb. reflexivity.
    - apply await_ready. unfold barrier_ready. rewrite He.
      unfold state_turning. rewrite Hb. reflexivity. }
  unfold Barrier_wait, bind at 1. rewrite Henter. reflexivity.
Qed.

(** A thread blocked inside [Barrier.wait] that finds the barrier broken
    leaves the wait with [BrokenBarrierError]. *)
Lemma Barrier_wait_released_broken (e : loc) (w : which_barrier)
    (el : SynchElem) (st : State) :
  elems (heap st) !! e = Some el ->
  is_broken (barrier_of w el) = true ->
  Barrier_wait_released e w st = (Raised BrokenBarrierError, st).
Proof.
  intros He Hb. apply broken_state in Hb. unfold Barrier_wait_released.
  rewrite (bind_run (await _) _ st tt st).
  - unfold get_barrier, bind, get_elem, ret. rewrite He.
    unfold state_negative. rewrite Hb. reflexivity.
  - apply await_ready. unfold barrier_ready. rewrite He, Hb. reflexivity.
Qed.

(** Whenever the entry barrier of the matched element is already broken,
    [Synch.wait_for_start] raises. *)
Lemma wait_for_start_on_broken_barrier (w : Z) (tc_name : string)
    (elem synch_point : loc) (el : SynchElem) (st : State) :
  scan_synch_table (heap st) (_synch_table (heap st)) tc_name w
    = Some (elem, synch_point) ->
  elems (heap st) !! elem = Some el ->
  is_broken (_start_barrier el) = true ->
  wait_for_start w tc_name st = (Raised BrokenBarrierError, st).
Proof.
  intros Hscan He Hb. unfold wait_for_start, bind at 1, get_heap.
  rewrite Hscan. unfold bind at 1, SynchElem_wait_for_start, bind at 1.
  rewrite (Barrier_wait_broken elem start_barrier _ el st He Hb).
  reflexivity.
Qed.

(** C4 fails on the code: [Barrier.wait] does not return on a broken
    barrier, it raises [BrokenBarrierError], and neither
    [SynchElem.wait_for_start] nor [Synch.wait_for_start] catches it.  The
    scenario of two points is registered and the thread of wait-id 1 calls
    [wait_for_start]: when another thread runs [cancel_synch] while it is
    blocked at the entry barrier, and when the element was cancelled before
    the call, the call raises instead of returning [None]. *)
Theorem wait_for_start_raises_on_abort :
  fst (wait_for_start 1 "T" (registered [])) = Pending /\
  fst (wait_for_start 1 "T" (registered [by_thread cancel_synch]))
    = Raised BrokenBarrierError /\
  fst ((SynchElem_cancel_synch 0%nat >> wait_for_start 1 "T") (registered []))
    = Raised BrokenBarrierError.
Proof. repeat split; vm_compute; reflexivity. Qed.

(** ** Registration renews the completion signals *)

Lemma renew_done_run (p : loc) (pt : SynchPoint) (st : State) :
  points (heap st) !! p = Some pt ->
  renew_done p st =
    (Returned tt,
     with_heap
       (set_point p
          {| test_case := test_case pt; wid := wid pt; delay := delay pt;
             done := Some (fresh (dom (signals (heap st)))) |}
          (set_signal (fresh (dom (signals (heap st)))) ResultWithFlag_init
             (heap st))) st).
Proof.
  intros Hp. unfold renew_done, bind, get_point, get_heap, put_heap.
  rewrite Hp. reflexivity.
Qed.

Lemma fresh_signal_unused (h : Heap) :
  signals h !! fresh (dom (signals h)) = None.
Proof. apply not_elem_of_dom. apply is_fresh. Qed.

(** What the loop of [add_synch_element] does to the heap. *)
Lemma renew_loop (l : list loc) (st : State) :
  (forall p, In p l -> is_Some (points (heap st) !! p)) ->
  exists h',
    for_each l renew_done st = (Returned tt, with_heap h' st) /\
    elems h' = elems (heap st) /\
    _synch_table h' = _synch_table (heap st) /\
    (forall q, is_Some (points (heap st) !! q) -> is_Some (points h' !! q)) /\
    (forall q, ~ In q l -> points h' !! q = points (heap st) !! q) /\
    (forall s sg, signals (heap st) !! s = Some sg ->
                  signals h' !! s = Some sg) /\
    (forall p, In p l ->
       exists pt s,
         points h' !! p = Some pt /\ done pt = Some s /\
         signals (heap st) !! s = None /\
         signals h' !! s = Some ResultWithFlag_init).
Proof.
  revert st. induction l as [|p l IH]; intros st Hpts.
  - exists (heap st). simpl. unfold ret, with_heap. destruct st; simpl.
    repeat split; auto. intros p [].
  - destruct (Hpts p (or_introl eq_refl)) as [pt Hp].
    set (s := fresh (dom (signals (heap st)))).
    set (pt' := {| test_case := test_case pt; wid := wid pt;
                   delay := delay pt; done := Some s |}).
    set (h1 := set_point p pt' (set_signal s ResultWithFlag_init (heap st))).
    assert (Hs : signals (heap st) !! s = None) by apply fresh_signal_unused.
    destruct (IH (with_heap h1 st)) as (h' & Hrun & Hel & Htab & Hkeep & Hframe & Hsig & Hnew).
    { intros q Hq. simpl. unfold h1, set_point. simpl.
      destruct (decide (p = q)) as [->|Hne].
      - rewrite lookup_insert_eq. eexists; reflexivity.
      - rewrite lookup_insert_ne by exact Hne. apply Hpts. right. exact Hq. }
    exists h'. simpl in *.
    split.
    { unfold bind at 1. rewrite (renew_done_run p pt st Hp). fold s pt' h1.
      rewrite Hrun. reflexivity. }
    split; [rewrite Hel; reflexivity |].
    split; [rewrite Htab; reflexivity |].
    split.
    { intros q Hq. apply Hkeep. unfold h1, set_point. simpl.
      destruct (decide (p = q)) as [->|Hne].
      - rewrite lookup_insert_eq. eexists; reflexivity.
      - rewrite lookup_insert_ne by exact Hne. exact Hq. }
    split.
    { intros q Hq. rewrite Hframe by tauto.
      unfold h1, set_point. simpl. apply lookup_insert_ne. tauto. }
    split.
    { intros s0 sg Hs0. apply Hsig. unfold h1, set_point, set_signal. simpl.
      rewrite lookup_insert_ne; [exact Hs0 |]. intros <-. congruence. }
    intros q [<- | Hq].
    + destruct (in_dec Nat.eq_dec p l) as [Hin | Hnin].
      * destruct (Hnew p Hin) as (pt2 & s2 & Hp2 & Hd2 & Hfresh2 & Hinit2).
        exists pt2, s2. repeat split; try assumption.
        unfold h1, set_point, set_signal in Hfresh2. simpl in Hfresh2.
        destruct (decide (s = s2)) as [<-|Hne]; [exact Hs |].
        rewrite lookup_insert_ne in Hfresh2 by exact Hne. exact Hfresh2.
      * exists pt', s. split.
        { rewrite (Hframe p Hnin). unfold h1, set_point. simpl.
          apply lookup_insert_eq. }
        split; [reflexivity |]. split; [exact Hs |].
        apply Hsig. unfold h1, set_point, set_signal. simpl.
        apply lookup_insert_eq.
    + destruct (Hnew q Hq) as (pt2 & s2 & Hp2 & Hd2 & Hfresh2 & Hinit2).
      exists pt2, s2. repeat split; try assumption.
      unfold h1, set_point, set_signal in Hfresh2. simpl in Hfresh2.
      destruct (decide (s = s2)) as [<-|Hne]; [exact Hs |].
      rewrite lookup_insert_ne in Hfresh2 by exact Hne. exact Hfresh2.
Qed.

(** C8: [Synch.add_synch_element], from any heap, gives every point of the
    registered list a completion signal that is a new object (it was not a
    signal of the heap before) and is unset, whatever signal the point had
    from an earlier run. *)
Theorem add_synch_element_renews_signals (elem : list loc) (st : State)
    (p : loc)
    (Hpts : forall q, In q elem -> is_Some (points (heap st) !! q))
    (Hp : In p elem) :
  fst (add_synch_element elem st) = Returned tt /\
  exists pt s,
    points (heap (snd (add_synch_element elem st))) !! p = Some pt /\
    done pt = Some s /\
    signals (heap st) !! s = None /\
    signals (heap (snd (add_synch_element elem st))) !! s
      = Some ResultWithFlag_init /\
    signal_is_set (heap (snd (add_synch_element elem st))) p = false.
Proof.
  destruct (renew_loop elem st Hpts)
    as (h' & Hrun & _ & _ & _ & _ & _ & Hnew).
  destruct (Hnew p Hp) as (pt & s & Hpt & Hdone & Hfresh & Hinit).
  assert (Hadd : add_synch_element elem st =
                 (Returned tt,
                  with_heap
                    (set_table
                       (_synch_table h' ++ [fresh (dom (elems h'))])
                       (set_elem (fresh (dom (elems h')))
                          {| sync_points := elem;
                             active_synch_point := None;
                             _start_barrier := Barrier_init (length elem);
                             _end_barrier := Barrier_init (length elem) |}
                          h')) st)).
  { unfold add_synch_element, bind at 1. rewrite Hrun. reflexivity. }
  rewrite Hadd. simpl.
  split; [reflexivity |].
  exists pt, s. repeat split; try assumption.
  unfold signal_is_set. simpl. rewrite Hpt, Hdone, Hinit. reflexivity.
Qed.

Lemma add_synch_element_renews_signals_witness :
  let aborted := snd (cancel_synch (registered [])) in
  signal_is_set (heap aborted) 0%nat = true /\
  signal_is_set (heap (snd (add_synch_element [0%nat; 1%nat] aborted))) 0%nat
    = false.
Proof.
  intros aborted. split; [vm_compute; reflexivity |].
  destruct (add_synch_element_renews_signals [0%nat; 1%nat] aborted 0%nat)
    as (_ & pt & s & _ & _ & _ & _ & Hunset).
  - intros q [<- | [<- | []]]; vm_compute; eexists; reflexivity.
  - left. reflexivity.
  - exact Hunset.
Defined.

(** ** Cancellation of the registry *)

Lemma heap_advances_refl (h : Heap) : heap_advances h h.
Proof.
  repeat split; try reflexivity.
  - intros e el He. exists el. repeat split; auto.
  - intros s sg Hs. exists sg. split; auto.
Qed.

Lemma heap_advances_trans (h1 h2 h3 : Heap) :
  heap_advances h1 h2 -> heap_advances h2 h3 -> heap_advances h1 h3.
Proof.
  intros (Hp1 & Ht1 & He1 & Hs1) (Hp2 & Ht2 & He2 & Hs2).
  repeat split; try congruence.
  - intros e el He.
    destruct (He1 e el He) as (el' & He' & Hsp & Hsb & Heb).
    destruct (He2 e el' He') as (el'' & He'' & Hsp' & Hsb' & Heb').
    exists el''. repeat split; [exact He'' | congruence | auto | auto].
  - intros s sg Hs.
    destruct (Hs1 s sg Hs) as (sg' & Hs' & Hf).
    destruct (Hs2 s sg' Hs') as (sg'' & Hs'' & Hf').
    exists sg''. split; auto.
Qed.

Lemma heap_advances_point_ready (h h' : Heap) (p : loc) :
  heap_advances h h' -> point_ready h p -> point_ready h' p.
Proof.
  intros (Hp & _ & _ & Hs) (pt & s & sg & Hpt & Hd & Hsg).
  destruct (Hs s sg Hsg) as (sg' & Hsg' & _).
  exists pt, s, sg'. rewrite Hp. auto.
Qed.

Lemma heap_advances_signal_set (h h' : Heap) (p : loc) :
  heap_advances h h' -> signal_is_set h p = true -> signal_is_set h' p = true.
Proof.
  intros (Hp & _ & _ & Hs). unfold signal_is_set. rewrite Hp.
  destruct (points h !! p) as [pt|]; [| discriminate].
  destruct (done pt) as [s|]; [| discriminate].
  destruct (signals h !! s) as [sg|] eqn:Hsg; [| discriminate].
  destruct (Hs s sg Hsg) as (sg' & -> & Hf). exact Hf.
Qed.

Lemma heap_advances_elem_ready (h h' : Heap) (e : loc) :
  heap_advances h h' -> elem_ready h e -> elem_ready h' e.
Proof.
  intros Hadv (el & He & Hpts).
  destruct Hadv as (Hp & Ht & Hel & Hs).
  destruct (Hel e el He) as (el' & He' & Hsp & _).
  exists el'. split; [exact He' |]. rewrite Hsp.
  eapply Forall_impl; [exact Hpts |].
  intros p. apply heap_advances_point_ready. repeat split; assumption.
Qed.

Lemma heap_advances_elem_cancelled (h h' : Heap) (e : loc) :
  heap_advances h h' -> elem_cancelled h e -> elem_cancelled h' e.
Proof.
  intros Hadv (el & He & Hsb & Heb & Hpts).
  pose proof Hadv as (Hp & Ht & Hel & Hs).
  destruct (Hel e el He) as (el' & He' & Hsp & Hsb' & Heb').
  exists el'. repeat split; auto. rewrite Hsp.
  eapply Forall_impl; [exact Hpts |].
  intros p. apply heap_advances_signal_set. exact Hadv.
Qed.

Lemma set_done_run (p : loc) (pt : SynchPoint) (s : loc)
    (sg : ResultWithFlag) (st : State) :
  points (heap st) !! p = Some pt -> done pt = Some s ->
  signals (heap st) !! s = Some sg ->
  SynchPoint_set_done p st =
    (Returned tt,
     {| heap := set_signal s (ResultWithFlag_set true sg) (heap st);
        env := env st;
        trace := trace st ++
                 [(SignalSet p,
                   set_signal s (ResultWithFlag_set true sg) (heap st))] |}).
Proof.
  intros Hp Hd Hs.
  unfold SynchPoint_set_done, update_done, bind, get_point, get_heap,
    put_heap, emit.
  rewrite Hp. rewrite Hd. simpl. rewrite Hs. reflexivity.
Qed.

Lemma set_signal_advances (h : Heap) (s : loc) (sg : ResultWithFlag) :
  heap_advances h (set_signal s (ResultWithFlag_set true sg) h).
Proof.
  repeat split; simpl.
  - intros e el He. exists el. repeat split; auto.
  - intros s0 sg0 Hs0. destruct (decide (s = s0)) as [<-|Hne].
    + rewrite lookup_insert_eq. eexists. split; [reflexivity | reflexivity].
    + rewrite lookup_insert_ne by exact Hne. exists sg0. split; auto.
Qed.

Lemma abort_advances (h : Heap) (e : loc) (w : which_barrier)
    (el : SynchElem) :
  elems h !! e = Some el ->
  heap_advances h
    (set_elem e (with_barrier w (with_state broken (barrier_of w el)) el) h).
Proof.
  intros He. repeat split; simpl.
  - intros e0 el0 He0. destruct (decide (e = e0)) as [<-|Hne].
    + rewrite lookup_insert_eq. eexists. split; [reflexivity |].
      assert (el0 = el) as -> by congruence.
      destruct w; repeat split; auto.
    + rewrite lookup_insert_ne by exact Hne. exists el0. repeat split; auto.
  - intros s sg Hs. exists sg. split; auto.
Qed.

(** The loop of [SynchElem.cancel_synch] sets the signal of every point. *)
Lemma set_done_loop (l : list loc) (st : State) :
  Forall (point_ready (heap st)) l ->
  exists st',
    for_each l SynchPoint_set_done st = (Returned tt, st') /\
    env st' = env st /\
    heap_advances (heap st) (heap st') /\
    elems (heap st') = elems (heap st) /\
    Forall (fun p => signal_is_set (heap st') p = true) l.
Proof.
  revert st. induction l as [|p l IH]; intros st Hready.
  - exists st. simpl. unfold ret.
    split; [reflexivity |]. split; [reflexivity |].
    split; [apply heap_advances_refl |]. split; [reflexivity | constructor].
  - apply Forall_cons in Hready as [Hp Hl].
    destruct Hp as (pt & s & sg & Hpt & Hd & Hsg).
    pose proof (set_done_run p pt s sg st Hpt Hd Hsg) as Hrun.
    set (st1 := {| heap := set_signal s (ResultWithFlag_set true sg) (heap st);
                   env := env st;
                   trace := trace st ++
                     [(SignalSet p,
                       set_signal s (ResultWithFlag_set true sg) (heap st))] |})
      in *.
    pose proof (set_signal_advances (heap st) s sg) as Hadv1.
    destruct (IH st1) as (st' & Hrun' & Henv & Hadv & Hel & Hset).
    { eapply Forall_impl; [exact Hl |]. intros q.
      apply heap_advances_point_ready. exact Hadv1. }
    exists st'. split.
    { simpl. unfold bind. rewrite Hrun. exact Hrun'. }
    split; [rewrite Henv; reflexivity |].
    split; [eapply heap_advances_trans; [exact Hadv1 | exact Hadv] |].
    split; [rewrite Hel; reflexivity |].
    constructor; [| exact Hset].
    apply (heap_advances_signal_set (heap st1)); [exact Hadv |].
    unfold signal_is_set. simpl. rewrite Hpt, Hd, lookup_insert_eq.
    reflexivity.
Qed.

(** [SynchElem.cancel_synch] on an element whose points have signals. *)
Lemma elem_cancel_run (e : loc) (st : State) :
  elem_ready (heap st) e ->
  exists st',
    SynchElem_cancel_synch e st = (Returned tt, st') /\
    env st' = env st /\
    heap_advances (heap st) (heap st') /\
    elem_cancelled (heap st') e.
Proof.
  intros (el & He & Hpts).
  set (el1 := with_barrier end_barrier (with_state broken (_end_barrier el)) el).
  set (h1 := set_elem e el1 (heap st)).
  set (el2 := with_barrier start_barrier
                (with_state broken (_start_barrier el1)) el1).
  set (h2 := set_elem e el2 h1).
  assert (Hadv1 : heap_advances (heap st) h1)
    by (apply (abort_advances (heap st) e end_barrier el He)).
  assert (He1 : elems h1 !! e = Some el1)
    by (unfold h1; simpl; apply lookup_insert_eq).
  assert (Hadv2 : heap_advances h1 h2)
    by (apply (abort_advances h1 e start_barrier el1 He1)).
  assert (He2 : elems h2 !! e = Some el2)
    by (unfold h2; simpl; apply lookup_insert_eq).
  destruct (set_done_loop (sync_points el2) (with_heap h2 (with_heap h1 st)))
    as (st' & Hrun & Henv & Hadv3 & Hel & Hset).
  { simpl. eapply Forall_impl; [exact Hpts |]. intros p Hp.
    apply (heap_advances_point_ready h1); [exact Hadv2 |].
    apply (heap_advances_point_ready (heap st)); [exact Hadv1 | exact Hp]. }
  exists st'. split.
  { unfold SynchElem_cancel_synch.
    rewrite (bind_run (Barrier_abort e end_barrier) _ st tt (with_heap h1 st))
      by (apply update_barrier_run; exact He).
    rewrite (bind_run (Barrier_abort e start_barrier) _ (with_heap h1 st) tt
               (with_heap h2 (with_heap h1 st)))
      by (apply (update_barrier_run e start_barrier _ el1); exact He1).
    rewrite (bind_run (get_elem e) _ (with_heap h2 (with_heap h1 st)) el2
               (with_heap h2 (with_heap h1 st)))
      by (apply get_elem_run; exact He2).
    exact Hrun. }
  split; [rewrite Henv; reflexivity |].
  split.
  { eapply heap_advances_trans; [exact Hadv1 |].
    eapply heap_advances_trans; [exact Hadv2 | exact Hadv3]. }
  exists el2. simpl in Hel. rewrite Hel.
  split; [exact He2 |]. split; [reflexivity |]. split; [reflexivity |].
  exact Hset.
Qed.

Lemma cancel_loop (table : list loc) (st : State) :
  Forall (elem_ready (heap st)) table ->
  exists st',
    for_each table SynchElem_cancel_synch st = (Returned tt, st') /\
    env st' = env st /\
    heap_advances (heap st) (heap st') /\
    Forall (elem_cancelled (heap st')) table.
Proof.
  revert st. induction table as [|e table IH]; intros st Hready.
  - exists st. simpl. unfold ret.
    split; [reflexivity |]. split; [reflexivity |].
    split; [apply heap_advances_refl | constructor].
  - apply Forall_cons in Hready as [He Ht].
    destruct (elem_cancel_run e st He) as (st1 & Hrun1 & Henv1 & Hadv1 & Hc1).
    destruct (IH st1) as (st' & Hrun' & Henv' & Hadv' & Hc').
    { eapply Forall_impl; [exact Ht |]. intros e0.
      apply heap_advances_elem_ready. exact Hadv1. }
    exists st'. split.
    { simpl. unfold bind. rewrite Hrun1. exact Hrun'. }
    split; [congruence |].
    split; [eapply heap_advances_trans; eassumption |].
    constructor; [| exact Hc'].
    apply (heap_advances_elem_cancelled (heap st1)); assumption.
Qed.

(** A thread waiting for its turn behind a point of a cancelled element
    is let through the wait and told that the turn is lost. *)
Lemma cancelled_turn_wait_fails (e : loc) (el : SynchElem) (point : loc)
    (pts : list loc) (me : loc) (st : State) :
  elems (heap st) !! e = Some el ->
  is_broken (_start_barrier el) = true ->
  signal_is_set (heap st) point = true ->
  point <> me ->
  fst (wait_for_your_turn_loop e (point :: pts) me st) = Returned false.
Proof.
  intros He Hb Hset Hne. simpl.
  destruct (Nat.eqb_spec point me) as [Heq|_]; [contradiction |].
  unfold signal_is_set in Hset.
  destruct (points (heap st) !! point) as [pt|] eqn:Hpt; [| discriminate].
  destruct (done pt) as [s|] eqn:Hd; [| discriminate].
  unfold SynchPoint_wait.
  rewrite (bind_run (bind (get_point point) _) _ st tt
             {| heap := heap st; env := env st;
                trace := trace st ++ [(Waited point s, heap st)] |}).
  - unfold get_barrier. unfold bind, get_elem, ret. simpl. rewrite He.
    simpl. rewrite Hb. simpl. rewrite He. reflexivity.
  - rewrite (bind_run (get_point point) _ st pt st)
      by (apply get_point_run; exact Hpt).
    rewrite Hd.
    rewrite (bind_run (await _) _ st tt st) by (apply await_ready; exact Hset).
    reflexivity.
Qed.

(** Registration keeps the registry ready. *)
Lemma add_synch_element_ready (elem : list loc) (st : State) :
  registry_ready (heap st) ->
  (forall q, In q elem -> is_Some (points (heap st) !! q)) ->
  registry_ready (heap (snd (add_synch_element elem st))).
Proof.
  intros Hready Hpts.
  destruct (renew_loop elem st Hpts)
    as (h' & Hrun & Hel & Htab & Hkeep & Hframe & Hsig & Hnew).
  set (e := fresh (dom (elems h'))).
  set (el := {| sync_points := elem; active_synch_point := None;
                _start_barrier := Barrier_init (length elem);
                _end_barrier := Barrier_init (length elem) |}).
  assert (Hadd : add_synch_element elem st =
                 (Returned tt,
                  with_heap (set_table (_synch_table h' ++ [e])
                               (set_elem e el h')) st)).
  { unfold add_synch_element, bind at 1. rewrite Hrun. reflexivity. }
  rewrite Hadd. simpl.
  assert (Hpr : forall p, point_ready (heap st) p \/ In p elem ->
                          point_ready (set_table (_synch_table h' ++ [e])
                                         (set_elem e el h')) p).
  { intros p Hp. unfold point_ready. simpl.
    destruct (in_dec Nat.eq_dec p elem) as [Hin|Hnin].
    - destruct (Hnew p Hin) as (pt & s & Hpt & Hd & _ & Hinit).
      exists pt, s, ResultWithFlag_init. auto.
    - destruct Hp as [(pt & s & sg & Hpt & Hd & Hsg) | Hin]; [| contradiction].
      exists pt, s, sg. rewrite (Hframe p Hnin). auto. }
  unfold registry_ready. simpl. apply Forall_app. split.
  - rewrite Htab. eapply Forall_impl; [exact Hready |].
    intros e0 (el0 & He0 & Hpts0). exists el0. simpl. split.
    + rewrite lookup_insert_ne; [rewrite Hel; exact He0 |].
      intros Heq. pose proof (is_fresh (dom (elems h'))) as Hfresh.
      fold e in Hfresh. rewrite Heq in Hfresh. apply Hfresh.
      apply elem_of_dom. rewrite Hel. eexists; exact He0.
    + eapply Forall_impl; [exact Hpts0 |]. intros p Hp. apply Hpr. left.
      exact Hp.
  - constructor; [| constructor]. exists el. simpl. split.
    + apply lookup_insert_eq.
    + apply List.Forall_forall. intros p Hp. apply Hpr. right. exact Hp.
Qed.

Lemma await_env_still_waiting (ready : Heap -> bool)
    (pre : list (Heap -> Heap)) (f : Heap -> Heap)
    (post : list (Heap -> Heap)) (h : Heap) :
  still_waiting ready pre h ->
  ready (f (after_env pre h)) = true ->
  await_env ready h (pre ++ f :: post) = (true, f (after_env pre h), post).
Proof.
  revert h. induction pre as [|g pre IH]; intros h [Hh Hpre] Hf;
    simpl in Hf |- *.
  - rewrite Hh. destruct post as [|g post]; simpl; rewrite Hf; reflexivity.
  - rewrite Hh. apply IH; assumption.
Qed.

(** A blocked thread resumes in the heap the releasing transition
    leaves. *)
Lemma await_released (ready : Heap -> bool) (pre : list (Heap -> Heap))
    (f : Heap -> Heap) (post : list (Heap -> Heap)) (st : State) :
  env st = pre ++ f :: post ->
  still_waiting ready pre (heap st) ->
  ready (f (after_env pre (heap st))) = true ->
  await ready st
  = (Returned tt,
     {| heap := f (after_env pre (heap st)); env := post;
        trace := trace st |}).
Proof.
  intros Henv Hw Hf. unfold await.
  rewrite Henv, (await_env_still_waiting ready pre f post _ Hw Hf).
  reflexivity.
Qed.

Lemma cancel_synch_run (st : State) :
  registry_ready (heap st) ->
  exists st',
    cancel_synch st = (Returned tt, st') /\
    env st' = env st /\
    _synch_table (heap st') = [] /\
    points (heap st') = points (heap st) /\
    Forall (elem_cancelled (heap st')) (_synch_table (heap st)).
Proof.
  intros Hready.
  destruct (cancel_loop (_synch_table (heap st)) st Hready)
    as (st' & Hrun & Henv & Hadv & Hc).
  exists (with_heap (set_table [] (heap st')) st').
  split.
  { unfold cancel_synch. unfold bind at 1, get_heap at 1.
    unfold bind at 1. rewrite Hrun. reflexivity. }
  split; [exact Henv |]. split; [reflexivity |].
  split; [simpl; apply Hadv |].
  eapply Forall_impl; [exact Hc |].
  intros e (el & He & Hsb & Heb & Hpts). exists el.
  split; [exact He |]. split; [exact Hsb |]. split; [exact Heb |].
  exact Hpts.
Qed.

Lemma still_waiting_last (ready : Heap -> bool) (pre : list (Heap -> Heap))
    (h : Heap) :
  still_waiting ready pre h -> ready (after_env pre h) = false.
Proof.
  revert h. induction pre as [|g pre IH]; intros h [Hh Hpre]; simpl.
  - exact Hh.
  - apply IH. exact Hpre.
Qed.

Lemma await_env_still_blocked (ready : Heap -> bool)
    (pre : list (Heap -> Heap)) (f : Heap -> Heap) (h : Heap) :
  still_waiting ready pre h ->
  ready (f (after_env pre h)) = false ->
  await_env ready h (pre ++ [f]) = (false, f (after_env pre h), []).
Proof.
  revert h. induction pre as [|g pre IH]; intros h [Hh Hpre] Hf;
    simpl in Hf |- *.
  - rewrite Hh, Hf. reflexivity.
  - rewrite Hh. apply IH; assumption.
Qed.

(** What the cancellation leaves alone: a signal that is not the signal of
    one of the points it goes through. *)
Lemma set_done_loop_frame (l : list loc) (st : State) (s : loc) :
  Forall (point_ready (heap st)) l ->
  (forall p pt, In p l -> points (heap st) !! p = Some pt ->
                done pt <> Some s) ->
  signals (heap (snd (for_each l SynchPoint_set_done st))) !! s
  = signals (heap st) !! s.
Proof.
  revert st. induction l as [|p l IH]; intros st Hready Hs; [reflexivity |].
  apply Forall_cons in Hready as [Hp Hl].
  destruct Hp as (pt & s1 & sg & Hpt & Hd & Hsg).
  pose proof (set_done_run p pt s1 sg st Hpt Hd Hsg) as Hrun.
  simpl. unfold bind. rewrite Hrun. rewrite IH.
  - simpl. apply lookup_insert_ne. intros ->.
    exact (Hs p pt (or_introl eq_refl) Hpt Hd).
  - simpl. eapply Forall_impl; [exact Hl |]. intros q.
    apply heap_advances_point_ready. apply set_signal_advances.
  - simpl. intros q ptq Hq Hptq. apply (Hs q ptq); [right; exact Hq | exact Hptq].
Qed.

Lemma elem_cancel_frame (e : loc) (st : State) (s : loc) :
  elem_ready (heap st) e ->
  (forall el p pt, elems (heap st) !! e = Some el -> In p (sync_points el) ->
                   points (heap st) !! p = Some pt -> done pt <> Some s) ->
  signals (heap (snd (SynchElem_cancel_synch e st))) !! s
  = signals (heap st) !! s.
Proof.
  intros (el & He & Hpts) Hs.
  set (el1 := with_barrier end_barrier (with_state broken (_end_barrier el)) el).
  set (h1 := set_elem e el1 (heap st)).
  set (el2 := with_barrier start_barrier
                (with_state broken (_start_barrier el1)) el1).
  set (h2 := set_elem e el2 h1).
  assert (He1 : elems h1 !! e = Some el1)
    by (unfold h1; simpl; apply lookup_insert_eq).
  assert (He2 : elems h2 !! e = Some el2)
    by (unfold h2; simpl; apply lookup_insert_eq).
  assert (Hrun : SynchElem_cancel_synch e st
                 = for_each (sync_points el2) SynchPoint_set_done
                     (with_heap h2 (with_heap h1 st))).
  { unfold SynchElem_cancel_synch.
    rewrite (bind_run (Barrier_abort e end_barrier) _ st tt (with_heap h1 st))
      by (apply update_barrier_run; exact He).
    rewrite (bind_run (Barrier_abort e start_barrier) _ (with_heap h1 st) tt
               (with_heap h2 (with_heap h1 st)))
      by (apply (update_barrier_run e start_barrier _ el1); exact He1).
    rewrite (bind_run (get_elem e) _ (with_heap h2 (with_heap h1 st)) el2
               (with_heap h2 (with_heap h1 st)))
      by (apply get_elem_run; exact He2).
    reflexivity. }
  rewrite Hrun.
  rewrite set_done_loop_frame; [reflexivity | |].
  - simpl. eapply Forall_impl; [exact Hpts |].
    intros p (pt & s1 & sg & Hpt & Hd & Hsg). exists pt, s1, sg. auto.
  - simpl. intros p pt Hp Hpt. exact (Hs el p pt He Hp Hpt).
Qed.

Lemma cancel_loop_frame (table : list loc) (st : State) (s : loc) :
  Forall (elem_ready (heap st)) table ->
  (forall e el p pt, In e table -> elems (heap st) !! e = Some el ->
                     In p (sync_points el) ->
                     points (heap st) !! p = Some pt -> done pt <> Some s) ->
  signals (heap (snd (for_each table SynchElem_cancel_synch st))) !! s
  = signals (heap st) !! s.
Proof.
  revert st. induction table as [|e table IH]; intros st Hready Hs;
    [reflexivity |].
  apply Forall_cons in Hready as [He Ht].
  destruct (elem_cancel_run e st He) as (st1 & Hrun1 & _ & Hadv1 & _).
  pose proof (elem_cancel_frame e st s He
                (fun el p pt => Hs e el p pt (or_introl eq_refl))) as Hframe.
  rewrite Hrun1 in Hframe. simpl in Hframe.
  simpl. unfold bind. rewrite Hrun1. rewrite IH; [exact Hframe | |].
  - eapply Forall_impl; [exact Ht |]. intros e0.
    apply heap_advances_elem_ready. exact Hadv1.
  - intros e0 el' p pt Hin He0 Hp Hpt.
    rewrite List.Forall_forall in Ht.
    destruct (Ht e0 Hin) as (el0 & Hel0 & _).
    destruct Hadv1 as (Hpoints & _ & Helems & _).
    destruct (Helems e0 el0 Hel0) as (el'' & Hel'' & Hsp & _).
    assert (el'' = el') as -> by congruence.
    rewrite Hpoints in Hpt. rewrite Hsp in Hp.
    exact (Hs e0 el0 p pt (or_intror Hin) Hel0 Hp Hpt).
Qed.

Lemma cancel_synch_frame (st : State) (s : loc) :
  registry_ready (heap st) ->
  ~ named_by_registry (heap st) s ->
  signals (heap (snd (cancel_synch st))) !! s = signals (heap st) !! s.
Proof.
  intros Hready Hs.
  destruct (cancel_loop (_synch_table (heap st)) st Hready)
    as (st' & Hrun & _ & _ & _).
  pose proof (cancel_loop_frame (_synch_table (heap st)) st s Hready) as Hframe.
  rewrite Hrun in Hframe. simpl in Hframe.
  unfold cancel_synch. unfold bind at 1, get_heap at 1.
  unfold bind at 1. rewrite Hrun. simpl. apply Hframe.
  intros e el p pt Hin He Hp Hpt Hd. apply Hs. exists e, el, p, pt. auto.
Qed.

(** C7, as amended: [Synch.cancel_synch], on a registry built by
    registration, breaks the entry and exit barriers of every element, sets
    the completion signal that every point of every element names at that
    moment, and leaves the registry empty; a signal that no point of a
    registered element names is left as it is.  A thread that is blocked
    in a turn-wait when the cancellation happens, on a signal that a point
    of one of these elements still names, is let through and told, by
    [False], that its turn is lost; one that is blocked on a signal no
    registered point names any more is still blocked after the
    cancellation.  A thread blocked inside [Barrier.wait] at either
    barrier leaves it with [BrokenBarrierError]; and the threads that come
    to a turn-wait or a barrier of these elements after the cancellation
    fail in the same way. *)
Theorem cancel_synch_releases_all (st : State)
    (Hready : registry_ready (heap st)) :
  fst (cancel_synch st) = Returned tt /\
  _synch_table (heap (snd (cancel_synch st))) = [] /\
  Forall (elem_cancelled (heap (snd (cancel_synch st))))
         (_synch_table (heap st)) /\
  (forall s,
     ~ named_by_registry (heap st) s ->
     signals (heap (snd (cancel_synch st))) !! s = signals (heap st) !! s) /\
  (forall e el point pt pt' s pts me st0 post,
     In e (_synch_table (heap st)) ->
     elems (heap st) !! e = Some el ->
     In point (sync_points el) ->
     point <> me ->
     points (heap st0) !! point = Some pt -> done pt = Some s ->
     points (heap st) !! point = Some pt' -> done pt' = Some s ->
     waiting_at_cancel (fun h => signal_up h s) st0 st post ->
     fst (wait_for_your_turn_loop e (point :: pts) me st0) = Returned false) /\
  (forall e point pt s pts me st0,
     point <> me ->
     points (heap st0) !! point = Some pt -> done pt = Some s ->
     ~ named_by_registry (heap st) s ->
     waiting_at_cancel (fun h => signal_up h s) st0 st [] ->
     fst (wait_for_your_turn_loop e (point :: pts) me st0) = Pending) /\
  (forall e w st0 post,
     In e (_synch_table (heap st)) ->
     waiting_at_cancel (barrier_left_filling e w) st0 st post ->
     fst (Barrier_wait_released e w st0) = Raised BrokenBarrierError) /\
  (forall e el point pts me env' tr,
     In e (_synch_table (heap st)) ->
     elems (heap (snd (cancel_synch st))) !! e = Some el ->
     In point (sync_points el) ->
     point <> me ->
     fst (wait_for_your_turn_loop e (point :: pts) me
            {| heap := heap (snd (cancel_synch st)); env := env';
               trace := tr |}) = Returned false) /\
  (forall e w env' tr,
     In e (_synch_table (heap st)) ->
     fst (Barrier_wait_released e w
            {| heap := heap (snd (cancel_synch st)); env := env';
               trace := tr |}) = Raised BrokenBarrierError).
Proof.
  pose proof (cancel_synch_frame st) as Hframe.
  pose proof (cancel_synch_frame {| heap := heap st; env := []; trace := [] |})
    as Hframec.
  destruct (cancel_synch_run st Hready)
    as (st' & Hcancel & _ & Hempty & _ & Hall).
  rewrite Hcancel in Hframe |- *. simpl in Hframe |- *.
  split; [reflexivity |]. split; [exact Hempty |]. split; [exact Hall |].
  split; [intros s Hs; exact (Hframe s Hready Hs) |].
  (* the heap another thread's cancel_synch leaves *)
  destruct (cancel_synch_run {| heap := heap st; env := []; trace := [] |}
              Hready) as (stc & Hc & _ & _ & Hpoints & Hallc).
  assert (Hby : by_thread cancel_synch (heap st) = heap stc)
    by (unfold by_thread; rewrite Hc; reflexivity).
  rewrite Hc in Hframec. simpl in Hpoints, Hallc, Hframec.
  rewrite List.Forall_forall in Hall, Hallc.
  split; [| split; [| split; [| split]]].
  - intros e el point pt pt' s pts me st0 post Hin He Hpoint Hne Hpt Hd
      Hpt' Hd' (pre & Henv & Hwait & Hafter).
    destruct (Hallc e Hin) as (elc & Hec & Hsb & _ & Hset).
    assert (Hin' : In point (sync_points elc)).
    { destruct (cancel_loop (_synch_table (heap st))
                  {| heap := heap st; env := []; trace := [] |} Hready)
        as (st1 & Hrun1 & _ & Hadv1 & _).
      assert (Hstc : heap stc = set_table [] (heap st1)).
      { unfold cancel_synch in Hc. unfold bind at 1, get_heap at 1 in Hc.
        unfold bind at 1 in Hc. simpl in Hc. rewrite Hrun1 in Hc.
        injection Hc as <-. reflexivity. }
      destruct Hadv1 as (_ & _ & Helems & _).
      destruct (Helems e el He) as (el' & He' & Hsp & _).
      rewrite Hstc in Hec. simpl in Hec. simpl in He'.
      assert (el' = elc) as <- by congruence. rewrite Hsp. exact Hpoint. }
    assert (Hup : signal_up (heap stc) s = true).
    { rewrite List.Forall_forall in Hset. specialize (Hset point Hin').
      unfold signal_is_set in Hset. rewrite Hpoints, Hpt', Hd' in Hset.
      exact Hset. }
    simpl.
    destruct (Nat.eqb_spec point me) as [Heq|_]; [contradiction |].
    unfold SynchPoint_wait.
    set (st1 := {| heap := heap stc; env := post; trace := trace st0 |}).
    rewrite (bind_run (bind (get_point point) _) _ st0 tt
               {| heap := heap st1; env := env st1;
                  trace := trace st1 ++ [(Waited point s, heap st1)] |}).
    + unfold get_barrier. unfold bind, get_elem, ret. simpl. rewrite Hec.
      simpl. rewrite Hsb. simpl. rewrite Hec. reflexivity.
    + rewrite (bind_run (get_point point) _ st0 pt st0)
        by (apply get_point_run; exact Hpt).
      rewrite Hd.
      rewrite (bind_run (await _) _ st0 tt st1); [reflexivity |].
      unfold st1. rewrite <- Hby, <- Hafter.
      apply (await_released (fun h => signal_up h s) pre);
        [exact Henv | exact Hwait |].
      rewrite Hafter, Hby. exact Hup.
  - intros e point pt s pts me st0 Hne Hpt Hd Hs (pre & Henv & Hwait & Hafter).
    assert (Hdown : signal_up (by_thread cancel_synch
                                 (after_env pre (heap st0))) s = false).
    { pose proof (still_waiting_last _ pre (heap st0) Hwait) as Hlast.
      rewrite Hafter in Hlast |- *. rewrite Hby. unfold signal_up in *.
      rewrite (Hframec s Hready Hs). exact Hlast. }
    simpl.
    destruct (Nat.eqb_spec point me) as [Heq|_]; [contradiction |].
    unfold SynchPoint_wait. unfold bind at 1.
    rewrite (bind_run (get_point point) _ st0 pt st0)
      by (apply get_point_run; exact Hpt).
    rewrite Hd. unfold bind at 1, await. rewrite Henv.
    pose proof (await_env_still_blocked (fun h => signal_up h s) pre _ _
                  Hwait Hdown) as Hblocked.
    unfold signal_up in Hblocked. rewrite Hblocked. reflexivity.
  - intros e w st0 post Hin (pre & Henv & Hwait & Hafter).
    destruct (Hallc e Hin) as (elc & Hec & Hsb & Heb & _).
    assert (Hb : _state (barrier_of w elc) = broken)
      by (apply broken_state; destruct w; assumption).
    unfold Barrier_wait_released. fold (barrier_left_filling e w).
    rewrite (bind_run (await _) _ st0 tt
               {| heap := heap stc; env := post; trace := trace st0 |}).
    + unfold get_barrier, bind, get_elem, ret. simpl. rewrite Hec.
      unfold state_negative. rewrite Hb. reflexivity.
    + rewrite <- Hby, <- Hafter.
      apply (await_released (barrier_left_filling e w) pre);
        [exact Henv | exact Hwait |].
      rewrite Hafter, Hby. unfold barrier_left_filling, barrier_ready.
      rewrite Hec, Hb. reflexivity.
  - intros e el point pts me env' tr Hin He Hpoint Hne.
    destruct (Hall e Hin) as (el' & He' & Hsb & _ & Hset).
    assert (el' = el) as -> by congruence.
    rewrite List.Forall_forall in Hset.
    apply (cancelled_turn_wait_fails e el); auto.
  - intros e w env' tr Hin.
    destruct (Hall e Hin) as (el & He & Hsb & Heb & _).
    rewrite (Barrier_wait_released_broken e w el); [reflexivity | exact He |].
    destruct w; assumption.
Qed.

Lemma cancel_synch_releases_all_witness :
  let st0 := second_at_turn [by_thread cancel_synch] in
  fst (wait_for_your_turn_loop 0%nat [0%nat; 1%nat] 1%nat (second_at_turn []))
  = Pending /\
  fst (wait_for_your_turn_loop 0%nat [0%nat; 1%nat] 1%nat st0)
  = Returned false /\
  fst (Barrier_wait_released 0%nat end_barrier (second_at_turn [])) = Pending /\
  fst (Barrier_wait_released 0%nat end_barrier st0)
  = Raised BrokenBarrierError /\
  _synch_table (heap st0) = [0%nat] /\
  _synch_table (heap (snd (cancel_synch st0))) = [].
Proof.
  intros st0.
  assert (Hready : registry_ready (heap st0)).
  { constructor; [| constructor]. eexists. split; [vm_compute; reflexivity |].
    repeat constructor; do 3 eexists; repeat split; vm_compute; reflexivity. }
  destruct (cancel_synch_releases_all st0 Hready)
    as (_ & Hempty & _ & _ & Hturn & _ & Hbarrier & _).
  split; [vm_compute; reflexivity |].
  split.
  { apply (Hturn 0%nat
             {| sync_points := [0%nat; 1%nat]; active_synch_point := None;
                _start_barrier := Barrier_init 2;
                _end_barrier := Barrier_init 2 |}
             0%nat (mkPoint "T" 1 None (Some 0%nat))
             (mkPoint "T" 1 None (Some 0%nat)) 0%nat [1%nat] 1%nat st0 []).
    - left. reflexivity.
    - vm_compute. reflexivity.
    - left. reflexivity.
    - discriminate.
    - vm_compute. reflexivity.
    - reflexivity.
    - vm_compute. reflexivity.
    - reflexivity.
    - exists []. split; [reflexivity |].
      split; [| reflexivity]. split; [vm_compute; reflexivity | exact I]. }
  split; [vm_compute; reflexivity |].
  split.
  { apply (Hbarrier 0%nat end_barrier st0 []).
    - left. reflexivity.
    - exists []. split; [reflexivity |].
      split; [| reflexivity]. split; [vm_compute; reflexivity | exact I]. }
  split; [vm_compute; reflexivity | exact Hempty].
Defined.

(** C7, as stated, fails: both threads of a scenario of two points have
    passed the entry barrier and the thread of wait-id 2 waits for its
    turn behind point 0, on the signal the point names at that moment; the
    same points are then registered again, which gives point 0 a new
    signal, and [cancel_synch] runs on a registry built by registration.
    Both elements end cancelled, every point's signal set and the registry
    empty, and the thread is still blocked: the signal object it waits on
    is no point's signal any more. *)
Lemma blocked_turn_wait_outlives_cancel :
  let result := wait_for_your_turn 0%nat 1%nat registered_again_then_cancelled in
  registry_ready
    (by_thread (add_synch_element [0%nat; 1%nat])
       (heap registered_again_then_cancelled)) /\
  env (snd result) = [] /\
  _synch_table (heap (snd result)) = [] /\
  elem_cancelled (heap (snd result)) 0%nat /\
  elem_cancelled (heap (snd result)) 1%nat /\
  fst result = Pending /\
  fst result <> Returned false.
Proof.
  intros result.
  split.
  { constructor; [| constructor; [| constructor]];
      (eexists; split; [vm_compute; reflexivity |]);
      repeat constructor; do 3 eexists; repeat split; vm_compute; reflexivity. }
  split; [vm_compute; reflexivity |].
  split; [vm_compute; reflexivity |].
  split.
  { eexists. split; [vm_compute; reflexivity |].
    split; [reflexivity |]. split; [reflexivity |].
    repeat constructor; vm_compute; reflexivity. }
  split.
  { eexists. split; [vm_compute; reflexivity |].
    split; [reflexivity |]. split; [reflexivity |].
    repeat constructor; vm_compute; reflexivity. }
  split; [vm_compute; reflexivity |].
  assert (Hpending : fst result = Pending) by (vm_compute; reflexivity).
  rewrite Hpending. discriminate.
Qed.

(** ** The end of a turn *)












(** ** Turn order *)

(** [point.wait()] returns only in a heap in which the signal it waited on
    is set, and says so in the trace. *)
Lemma SynchPoint_wait_inv (p : loc) (st : State) (u : unit) (st' : State) :
  SynchPoint_wait p st = (Returned u, st') ->
  exists entry, trace st' = trace st ++ [entry] /\ observed_set p entry.
Proof.
  unfold SynchPoint_wait. intros Hrun.
  apply bind_inv in Hrun as (pt & st1 & Hpt & Hrun).
  apply (quiet_run _ _ _ _ (quiet_get_point p)) in Hpt.
  destruct (done pt) as [s|]; [| discriminate].
  apply bind_inv in Hrun as (u1 & st2 & Hw & Hrun).
  apply await_inv in Hw as [Hready Ht].
  unfold emit in Hrun. injection Hrun as Hst'. subst st'.
  exists (Waited p s, heap st2). simpl. split; [congruence |].
  exists s. split; [reflexivity | exact Hready].
Qed.

Lemma turn_loop_waits (e me : loc) (pts : list loc) (st st' : State) :
  wait_for_your_turn_loop e pts me st = (Returned true, st') ->
  exists before after waits,
    pts = before ++ me :: after /\
    ~ In me before /\
    trace st' = trace st ++ waits /\
    Forall2 observed_set before waits /\
    exists el, elems (heap st') !! e = Some el /\
               active_synch_point el = Some me.
Proof.
  revert st. induction pts as [|point pts IH]; intros st; simpl;
    [discriminate |].
  destruct (Nat.eqb_spec point me) as [->|Hne].
  - intros Hrun.
    apply bind_inv in Hrun as (el & st1 & Hel & Hrun).
    apply (quiet_run _ _ _ _ (quiet_get_elem e)) in Hel.
    unfold bind, get_heap, put_heap, ret in Hrun. injection Hrun as <-.
    exists [], pts, []. simpl. rewrite app_nil_r.
    split; [reflexivity |]. split; [tauto |]. split; [exact Hel |].
    split; [constructor |].
    eexists. split; [apply lookup_insert_eq | reflexivity].
  - intros Hrun.
    apply bind_inv in Hrun as (u & st1 & Hw & Hrun).
    apply SynchPoint_wait_inv in Hw as (entry & Ht1 & Hobs).
    apply bind_inv in Hrun as (sb & st2 & Hsb & Hrun).
    apply (quiet_run _ _ _ _ (quiet_get_barrier e start_barrier)) in Hsb.
    apply bind_inv in Hrun as (eb & st3 & Heb & Hrun).
    apply (quiet_run _ _ _ _ (quiet_get_barrier e end_barrier)) in Heb.
    destruct (is_broken sb || is_broken eb); [discriminate |].
    destruct (IH st3 Hrun)
      as (before & after & waits & -> & Hnin & Ht & Hall & Hact).
    exists (point :: before), after, (entry :: waits).
    split; [reflexivity |].
    split; [simpl; intros [H|H]; [congruence | tauto] |].
    split; [rewrite Ht, Heb, Hsb, Ht1, <- List.app_assoc; reflexivity |].
    split; [constructor; assumption | exact Hact].
Qed.


Lemma await_env_keeps (I : Heap -> Prop) (ready : Heap -> bool)
    (en : list (Heap -> Heap)) (h : Heap) :
  I h -> Forall (fun f => forall h, I h -> I (f h)) en ->
  I (snd (fst (await_env ready h en))) /\
  Forall (fun f => forall h, I h -> I (f h)) (snd (await_env ready h en)).
Proof.
  intros Hh Hen. revert h Hh.
  induction Hen as [|f en Hf Hen IH]; intros h Hh; simpl.
  - split; [exact Hh | constructor].
  - destruct (ready h); simpl.
    + split; [exact Hh | constructor; assumption].
    + apply IH. apply Hf. exact Hh.
Qed.

Lemma await_env_blocked (ready : Heap -> bool) (I : Heap -> Prop)
    (en : list (Heap -> Heap)) (h : Heap) :
  (forall h, I h -> ready h = false) ->
  I h -> Forall (fun f => forall h, I h -> I (f h)) en ->
  fst (fst (await_env ready h en)) = false.
Proof.
  intros Hblock Hh Hen. revert h Hh.
  induction Hen as [|f en Hf Hen IH]; intros h Hh; simpl.
  - apply Hblock. exact Hh.
  - rewrite (Hblock h Hh). apply IH. apply Hf. exact Hh.
Qed.

(** A wait on another point leaves what is pending as it is. *)
Lemma SynchPoint_wait_keeps (I : Heap -> Prop) (q : loc) (st : State)
    (u : unit) (st' : State) :
  I (heap st) -> Forall (fun f => forall h, I h -> I (f h)) (env st) ->
  SynchPoint_wait q st = (Returned u, st') ->
  I (heap st') /\ Forall (fun f => forall h, I h -> I (f h)) (env st').
Proof.
  intros Hh Hen. unfold SynchPoint_wait, bind, get_point.
  destruct (points (heap st) !! q) as [pt|]; [| discriminate].
  destruct (done pt) as [s|]; [| discriminate].
  unfold await. simpl.
  pose proof (await_env_keeps I
                (fun h => match signals h !! s with
                          | Some sg => flag sg
                          | None => false
                          end) (env st) (heap st) Hh Hen) as Hkeep.
  destruct (await_env _ (heap st) (env st)) as [[[|] h] en];
    [| discriminate].
  unfold emit. simpl. intros [= _ <-]. exact Hkeep.
Qed.

(** A wait on the pending point does not return. *)
Lemma SynchPoint_wait_pending (p s : loc) (st : State) :
  pending_on p s (heap st) -> Forall (keeps_pending p s) (env st) ->
  fst (SynchPoint_wait p st) = Pending.
Proof.
  intros Hh Hen. pose proof Hh as [(pt & Hpt & Hd) _].
  unfold SynchPoint_wait, bind, get_point. rewrite Hpt, Hd.
  unfold await. simpl.
  pose proof (await_env_blocked
                (fun h => match signals h !! s with
                          | Some sg => flag sg
                          | None => false
                          end) (pending_on p s) (env st) (heap st)) as Hb.
  destruct (await_env _ (heap st) (env st)) as [[b h] en]. simpl in Hb.
  rewrite Hb; [reflexivity | | exact Hh | exact Hen].
  intros h0 [_ Hup]. exact Hup.
Qed.

(** One turn of the loop, at a point that is not the caller's. *)
Lemma turn_loop_step (e me q : loc) (pts : list loc) (st : State) :
  q <> me ->
  wait_for_your_turn_loop e (q :: pts) me st =
    match SynchPoint_wait q st with
    | (Returned _, st1) =>
        match elems (heap st1) !! e with
        | Some el =>
            if is_broken (_start_barrier el) || is_broken (_end_barrier el)
            then (Returned false, st1)
            else wait_for_your_turn_loop e pts me st1
        | None => (Raised DanglingRef, st1)
        end
    | (Raised ex, st1) => (Raised ex, st1)
    | (Pending, st1) => (Pending, st1)
    end.
Proof.
  intros Hne. simpl. destruct (Nat.eqb_spec q me) as [Heq|_]; [contradiction |].
  unfold bind at 1. destruct (SynchPoint_wait q st) as [[u| |] st1];
    try reflexivity.
  unfold get_barrier, bind, get_elem, ret.
  destruct (elems (heap st1) !! e) as [el|] eqn:He; [| reflexivity].
  simpl. rewrite He. simpl.
  destruct (is_broken (_start_barrier el) || is_broken (_end_barrier el));
    reflexivity.
Qed.

Lemma turn_loop_blocked (e me p s : loc) (before after : list loc)
    (st : State) :
  ~ In me before -> p <> me ->
  pending_on p s (heap st) -> Forall (keeps_pending p s) (env st) ->
  fst (wait_for_your_turn_loop e (before ++ p :: after) me st)
  <> Returned true.
Proof.
  revert st. induction before as [|q before IH]; intros st Hnin Hne Hh Hen.
  - simpl app. rewrite turn_loop_step by exact Hne.
    pose proof (SynchPoint_wait_pending p s st Hh Hen) as Hp.
    destruct (SynchPoint_wait p st) as [[u| |] st1]; simpl in *;
      [discriminate Hp | discriminate Hp | discriminate].
  - simpl app. rewrite turn_loop_step by (simpl in Hnin; intros ->; tauto).
    pose proof (SynchPoint_wait_keeps (pending_on p s) q st) as Hkeep.
    destruct (SynchPoint_wait q st) as [[u| |] st1]; simpl;
      [| discriminate | discriminate].
    destruct (Hkeep u st1 Hh Hen eq_refl) as [Hh1 Hen1].
    destruct (elems (heap st1) !! e) as [el|]; [| simpl; discriminate].
    destruct (is_broken (_start_barrier el) || is_broken (_end_barrier el));
      [simpl; discriminate |].
    apply IH; [simpl in Hnin; tauto | exact Hne | exact Hh1 | exact Hen1].
Qed.

(** Seen from the environment: as long as a point registered before the
    caller's keeps its signal and nobody sets it, the caller does not get
    its turn, whatever else the other threads do. *)
Lemma no_turn_while_predecessor_pending (e me p s : loc) (el : SynchElem)
    (before after : list loc) (st : State) :
  elems (heap st) !! e = Some el ->
  sync_points el = before ++ p :: after ->
  ~ In me before -> p <> me ->
  pending_on p s (heap st) -> Forall (keeps_pending p s) (env st) ->
  fst (wait_for_your_turn e me st) <> Returned true.
Proof.
  intros He Hsplit Hnin Hne Hh Hen. unfold wait_for_your_turn.
  rewrite (bind_run (get_elem e) _ st el st) by (apply get_elem_run; exact He).
  rewrite Hsplit. apply (turn_loop_blocked e me p s); assumption.
Qed.



(** ** The polling loops: what ends a wait *)

(** X1: [wait_for_event] returns [True] at once when the test holds at the
    call.  Otherwise the result is decided by the first turn that is not
    idle: [False] if the timer has cleared the flag, else the cancellation
    failure if the global end is raised, else [True].  The checks come in
    this order, so a test that holds at a cancelled turn is not reported. *)
Theorem wait_for_event_first_decisive_poll {S : Type} (test : S -> bool)
    (now : S) (idle : list (Tick S)) (tk : Tick S) (rest : list (Tick S))
    (Hidle : Forall (fun t => idle_tick test t = true) idle)
    (Htk : idle_tick test tk = false) :
  wait_for_event test now (idle ++ tk :: rest) =
    if test now then Returned true
    else if negb (flag_is_set tk) then Returned false
    else if GLOBAL_END tk then Raised GlobalEnd
    else Returned true.
Proof.
  unfold wait_for_event. destruct (test now); [reflexivity |].
  induction Hidle as [|t idle Ht _ IH]; simpl.
  - unfold idle_tick in Htk.
    destruct (flag_is_set tk); simpl in *; [| reflexivity].
    destruct (GLOBAL_END tk); simpl in *; [reflexivity |].
    destruct (test (seen tk)); simpl in *; [reflexivity | discriminate].
  - unfold idle_tick in Ht.
    destruct (flag_is_set t); simpl in *; [| discriminate].
    destruct (GLOBAL_END t); simpl in *; [discriminate |].
    destruct (test (seen t)); simpl in *; [discriminate | exact IH].
Qed.

Lemma wait_for_event_first_decisive_poll_witness :
  wait_for_event (fun n => n =? 3) 0
    ([mkTick true false 1; mkTick true false 2]
       ++ mkTick true true 3 :: [mkTick true false 3])
  = Raised GlobalEnd.
Proof.
  apply (wait_for_event_first_decisive_poll (fun n => n =? 3) 0
           [mkTick true false 1; mkTick true false 2] (mkTick true true 3)
           [mkTick true false 3]).
  - repeat constructor.
  - reflexivity.
Defined.

Lemma queue_wait_deadline_cut (matches : Obj -> bool)
    (pre : list (Tick (list Obj))) (q : list Obj) (remove : bool)
    (tk : Tick (list Obj)) (rest : list (Tick (list Obj))) :
  flag_is_set tk = false ->
  queue_wait matches q remove (pre ++ tk :: rest)
  = queue_wait matches q remove (pre ++ [tk]) /\
  fst (queue_wait matches q remove (pre ++ tk :: rest)) <> Pending.
Proof.
  intros Hexp. revert q. induction pre as [|t pre IH]; intros q; simpl.
  - rewrite Hexp. simpl. split; [reflexivity | discriminate].
  - destruct (flag_is_set t); simpl; [| split; [reflexivity | discriminate]].
    destruct (GLOBAL_END t); simpl; [split; [reflexivity | discriminate] |].
    destruct (find matches (q ++ seen t)) as [ev|]; [| apply IH].
    destruct (truthy (oval ev) && remove);
      [| split; [reflexivity | discriminate]].
    destruct (list_remove ev (q ++ seen t));
      split; try reflexivity; discriminate.
Qed.

(** X2: the turn that finds the timer flag cleared ends [wait_for_event],
    [wait_event_with_condition] and [wait_for_event_iut]: what the
    environment does after that turn changes neither the result nor the
    queue, and the call is not left waiting. *)
Theorem waits_end_at_the_deadline {S : Type} (test : S -> bool) (now : S)
    (pre : list (Tick S)) (tk : Tick S) (rest : list (Tick S))
    (q : list Obj) (cb : condition) (remove : bool)
    (qpre : list (Tick (list Obj))) (qtk : Tick (list Obj))
    (qrest : list (Tick (list Obj)))
    (Hexp : flag_is_set tk = false) (Hqexp : flag_is_set qtk = false) :
  (wait_for_event test now (pre ++ tk :: rest)
   = wait_for_event test now (pre ++ [tk]) /\
   wait_for_event test now (pre ++ tk :: rest) <> Pending) /\
  (wait_event_with_condition q cb remove (qpre ++ qtk :: qrest)
   = wait_event_with_condition q cb remove (qpre ++ [qtk]) /\
   fst (wait_event_with_condition q cb remove (qpre ++ qtk :: qrest))
   <> Pending) /\
  (wait_for_event_iut q remove (qpre ++ qtk :: qrest)
   = wait_for_event_iut q remove (qpre ++ [qtk]) /\
   fst (wait_for_event_iut q remove (qpre ++ qtk :: qrest)) <> Pending).
Proof.
  split; [| split].
  - unfold wait_for_event. destruct (test now);
      [split; [reflexivity | discriminate] |].
    induction pre as [|t pre IH]; simpl.
    + rewrite Hexp. simpl. split; [reflexivity | discriminate].
    + destruct (flag_is_set t); simpl; [| split; [reflexivity | discriminate]].
      destruct (GLOBAL_END t); simpl; [split; [reflexivity | discriminate] |].
      destruct (test (seen t)); [split; [reflexivity | discriminate] | exact IH].
  - rewrite !wait_event_with_condition_queue_wait.
    apply queue_wait_deadline_cut. exact Hqexp.
  - rewrite !wait_for_event_iut_queue_wait.
    apply queue_wait_deadline_cut. exact Hqexp.
Qed.

Lemma waits_end_at_the_deadline_witness :
  wait_for_event (fun n => n =? 3) 0
    ([mkTick true false 1] ++ mkTick false false 2 :: [mkTick true false 3])
  <> Pending.
Proof.
  apply (waits_end_at_the_deadline (fun n => n =? 3) 0
           [mkTick true false 1] (mkTick false false 2) [mkTick true false 3]
           [] (fun _ => true) true [] (mkTick false false []) []);
    reflexivity.
Defined.

(** X3: [wait_event_with_condition] checks for cancellation before it scans
    the queue.  At the first turn that finds the global end raised it
    raises and has removed nothing; a call made when the global end is
    already raised does so even if a matching record is queued. *)
Theorem queue_waits_abort_on_cancellation (q : list Obj) (cb : condition)
    (remove : bool) (live : list (Tick (list Obj))) (tk : Tick (list Obj))
    (rest : list (Tick (list Obj)))
    (Hlive : Forall (fun t => live_tick t = true) live)
    (Hnone : live <> [] -> find (apply_cb cb) (q ++ appended live) = None)
    (Hflag : flag_is_set tk = true)
    (Hcancel : GLOBAL_END tk = true) :
  wait_event_with_condition q cb remove (live ++ tk :: rest)
  = (Raised GlobalEnd, q ++ appended live).
Proof.
  rewrite wait_event_with_condition_queue_wait.
  destruct live as [|t live].
  - simpl. rewrite Hflag, Hcancel. unfold appended. simpl.
    rewrite app_nil_r. reflexivity.
  - rewrite queue_wait_skips;
      [| exact Hlive | apply Hnone; discriminate].
    simpl. rewrite Hflag, Hcancel. reflexivity.
Qed.

Lemma queue_waits_abort_on_cancellation_witness :
  let r := mkObj 0 (PTuple [PInt 7]) in
  wait_event_with_condition [r] (fun _ => true) true
    ([] ++ mkTick true true [] :: []) = (Raised GlobalEnd, [r] ++ appended []).
Proof.
  intros r.
  apply (queue_waits_abort_on_cancellation [r] (fun _ => true) true []
           (mkTick true true []) []).
  - constructor.
  - intros H. exfalso. apply H. reflexivity.
  - reflexivity.
  - reflexivity.
Defined.

(** ** Waits that do not consume *)

Lemma queue_wait_keep_grows (matches : Obj -> bool)
    (sched : list (Tick (list Obj))) (q : list Obj) :
  exists k,
    snd (queue_wait matches q false sched) = q ++ appended (take k sched).
Proof.
  revert q. induction sched as [|tk sched IH]; intros q; simpl.
  - exists 0%nat. unfold appended. simpl. rewrite app_nil_r. reflexivity.
  - destruct (flag_is_set tk); simpl;
      [| exists 0%nat; unfold appended; simpl; rewrite app_nil_r; reflexivity].
    destruct (GLOBAL_END tk); simpl;
      [exists 0%nat; unfold appended; simpl; rewrite app_nil_r; reflexivity |].
    destruct (find matches (q ++ seen tk)) as [ev|].
    + rewrite andb_false_r. simpl. exists 1%nat. unfold appended. simpl.
      rewrite app_nil_r. reflexivity.
    + destruct (IH (q ++ seen tk)) as [k Hk]. exists (S k).
      rewrite Hk. unfold appended. simpl. rewrite List.app_assoc.
      reflexivity.
Qed.

(** X4: with [remove=False] a successful [wait_event_with_condition] takes
    nothing out of the queue, which holds what it held plus the records
    appended meanwhile; the same call made again returns the same record at
    its first turn. *)
Theorem wait_without_remove_keeps_queue (q : list Obj) (cb : condition)
    (sched : list (Tick (list Obj))) (ev : Obj) (q' : list Obj)
    (tk : Tick (list Obj)) (rest : list (Tick (list Obj)))
    (Hwait : wait_event_with_condition q cb false sched
             = (Returned (Some ev), q'))
    (Hlive : live_tick tk = true) :
  (exists k, q' = q ++ appended (take k sched)) /\
  wait_event_with_condition q' cb false (tk :: rest)
  = (Returned (Some ev), q' ++ seen tk).
Proof.
  rewrite wait_event_with_condition_queue_wait in Hwait.
  destruct (queue_wait_keep_grows (apply_cb cb) sched q) as [k Hk].
  rewrite Hwait in Hk. simpl in Hk.
  split; [exists k; exact Hk |].
  assert (Hfind : find (apply_cb cb) q' = Some ev).
  { clear Hk k. revert q Hwait.
    induction sched as [|t sched IH]; intros q; simpl; [discriminate |].
    destruct (flag_is_set t); simpl; [| discriminate].
    destruct (GLOBAL_END t); simpl; [discriminate |].
    destruct (find (apply_cb cb) (q ++ seen t)) as [ev0|] eqn:Hscan.
    - rewrite andb_false_r. intros [= -> <-]. exact Hscan.
    - apply IH. }
  destruct (live_tick_inv tk Hlive) as [Hf Hg].
  simpl. rewrite Hf, Hg. simpl. unfold scan_condition.
  rewrite (find_app_some _ _ _ _ Hfind), andb_false_r. reflexivity.
Qed.

Lemma wait_without_remove_keeps_queue_witness :
  let r0 := mkObj 0 (PTuple [PInt 5]) in
  let r1 := mkObj 1 (PTuple [PInt 7]) in
  let is7 : condition :=
    fun args => match args with PInt 7 :: _ => true | _ => false end in
  wait_event_with_condition [r0; r1] is7 false [mkTick true false []]
  = (Returned (Some r1), [r0; r1] ++ []).
Proof.
  intros r0 r1 is7.
  apply (wait_without_remove_keeps_queue [r0; r1] is7
           [mkTick true false []] r1 [r0; r1] (mkTick true false []) []);
    reflexivity.
Defined.

(** ** MICS.wait_mute_state_ev *)

(** X5: [MICS.wait_mute_state_ev], whose condition accepts every record,
    returns the oldest record of a non-empty queue at its first turn, and
    removes it when [remove] is set and the record is truthy. *)
Theorem wait_mute_state_ev_takes_head (r : Obj) (q : list Obj)
    (remove : bool) (tk : Tick (list Obj)) (rest : list (Tick (list Obj)))
    (Hlive : live_tick tk = true) :
  wait_mute_state_ev (r :: q) remove (tk :: rest)
  = (Returned (Some r),
     if truthy (oval r) && remove then q ++ seen tk
     else r :: q ++ seen tk).
Proof.
  destruct (live_tick_inv tk Hlive) as [Hf Hg].
  unfold wait_mute_state_ev. simpl. rewrite Hf, Hg. simpl.
  unfold scan_condition. simpl.
  assert (Hcb : apply_cb (fun _ => true) r = true)
    by (unfold apply_cb; destruct (oval r); reflexivity).
  rewrite Hcb.
  destruct (truthy (oval r) && remove); [| reflexivity].
  unfold obj_is. rewrite Nat.eqb_refl. reflexivity.
Qed.

Lemma wait_mute_state_ev_takes_head_witness :
  wait_mute_state_ev
    [mkObj 0 (PTuple [PInt 1]); mkObj 1 (PTuple [PInt 0])] true
    [mkTick true false []]
  = (Returned (Some (mkObj 0 (PTuple [PInt 1]))), [mkObj 1 (PTuple [PInt 0])]).
Proof.
  apply (wait_mute_state_ev_takes_head (mkObj 0 (PTuple [PInt 1]))
           [mkObj 1 (PTuple [PInt 0])] true (mkTick true false []) []).
  reflexivity.
Defined.

(** ** Mesh.wait_for_model_added_op *)

Lemma model_added_op_loop_true (op : list Z) (sched : list (Tick model_recv))
    (data data' : model_recv) :
  wait_for_model_added_op_loop op data sched = (Returned true, data') ->
  data' = Some (0, 0, []).
Proof.
  revert data. induction sched as [|tk sched IH]; intros data; simpl;
    [discriminate |].
  destruct (flag_is_set tk); simpl; [| discriminate].
  destruct (model_op_is (seen tk) op); [intros [= <-]; reflexivity | apply IH].
Qed.

(** X6: when [Mesh.wait_for_model_added_op] returns [True] it has
    overwritten [model_recv_ev_data] with [(0, 0, b'')]; a second wait for
    the same non-empty operation does not succeed as long as no new record
    arrives. *)
Theorem model_added_op_is_consumed (op : list Z) (data data' : model_recv)
    (sched sched' : list (Tick model_recv))
    (Hop : op <> [])
    (Hfound : wait_for_model_added_op op data sched = (Returned true, data'))
    (Hquiet : Forall (fun tk => seen tk = data') sched') :
  data' = Some (0, 0, []) /\
  fst (wait_for_model_added_op op data' sched') <> Returned true.
Proof.
  assert (Hdata : data' = Some (0, 0, [])).
  { unfold wait_for_model_added_op in Hfound.
    destruct (model_op_is data op).
    - injection Hfound as <-. reflexivity.
    - exact (model_added_op_loop_true _ _ _ _ Hfound). }
  split; [exact Hdata |]. subst data'.
  assert (Hno : model_op_is (Some (0, 0, [])) op = false).
  { unfold model_op_is. simpl. apply bool_decide_eq_false_2. congruence. }
  unfold wait_for_model_added_op. rewrite Hno.
  induction Hquiet as [|tk sched' Htk _ IH]; simpl; [discriminate |].
  destruct (flag_is_set tk); simpl; [| discriminate].
  rewrite Htk, Hno. exact IH.
Qed.

Lemma model_added_op_is_consumed_witness :
  fst (wait_for_model_added_op [1; 2; 3; 4] (Some (0, 0, []))
         [mkTick true false (Some (0, 0, []))]) <> Returned true.
Proof.
  apply (model_added_op_is_consumed [1; 2; 3; 4]
           (Some (5, 6, [1; 2; 3; 4; 9])) (Some (0, 0, [])) []
           [mkTick true false (Some (0, 0, []))]).
  - discriminate.
  - reflexivity.
  - repeat constructor.
Defined.

(** ** Looking a sync point up *)

Lemma find_matching_find (h : Heap) (el : SynchElem) (tc : string) (w : Z) :
  find_matching h el tc w = find (point_matches h tc w) (sync_points el).
Proof.
  unfold find_matching.
  induction (sync_points el) as [|p l IH]; simpl; [reflexivity |].
  fold (point_matches h tc w p).
  destruct (point_matches h tc w p); [reflexivity | exact IH].
Qed.

Lemma scan_synch_table_none (h : Heap) (table : list loc) (tc : string)
    (w : Z) :
  scan_synch_table h table tc w = None <->
  Forall (fun e => elem_matches h tc w e = None) table.
Proof.
  induction table as [|e table IH]; simpl.
  - split; [constructor | reflexivity].
  - unfold elem_matches at 1.
    destruct (elems h !! e) as [el|] eqn:He.
    + destruct (find_matching h el tc w) as [p|] eqn:Hf.
      * split; [discriminate |]. intros H. apply Forall_inv in H.
        unfold elem_matches in H. rewrite He, Hf in H. discriminate.
      * rewrite IH. split.
        -- intros H. constructor; [| exact H].
           unfold elem_matches. rewrite He. exact Hf.
        -- intros H. exact (Forall_inv_tail H).
    + rewrite IH. split.
      * intros H. constructor; [| exact H].
        unfold elem_matches. rewrite He. reflexivity.
      * intros H. exact (Forall_inv_tail H).
Qed.

(** X7: the scan of [Synch.wait_for_start] stops at the first element of
    the table, in registration order, that has a point of the test case and
    wait-id asked for, and takes the first such point of that element: no
    earlier element has a matching point and no earlier point of the
    element matches. *)
Theorem scan_finds_first_match (h : Heap) (table : list loc) (tc : string)
    (w : Z) (e p : loc)
    (Hscan : scan_synch_table h table tc w = Some (e, p)) :
  exists pre post el before after,
    table = pre ++ e :: post /\
    Forall (fun e0 => elem_matches h tc w e0 = None) pre /\
    elems h !! e = Some el /\
    sync_points el = before ++ p :: after /\
    point_matches h tc w p = true /\
    Forall (fun q => point_matches h tc w q = false) before.
Proof.
  induction table as [|e0 table IH]; simpl in Hscan; [discriminate |].
  destruct (elems h !! e0) as [el|] eqn:He.
  - destruct (find_matching h el tc w) as [p0|] eqn:Hf.
    + injection Hscan as <- <-.
      rewrite find_matching_find in Hf.
      destruct (find_first_match _ _ _ Hf)
        as (before & after & Hsplit & Hp & Hbefore).
      exists [], table, el, before, after. simpl.
      split; [reflexivity |]. split; [constructor |]. auto.
    + destruct (IH Hscan)
        as (pre & post & el' & before & after & -> & Hpre & Hrest).
      exists (e0 :: pre), post, el', before, after.
      split; [reflexivity |]. split; [| exact Hrest].
      constructor; [| exact Hpre]. unfold elem_matches. rewrite He. exact Hf.
  - destruct (IH Hscan)
      as (pre & post & el' & before & after & -> & Hpre & Hrest).
    exists (e0 :: pre), post, el', before, after.
    split; [reflexivity |]. split; [| exact Hrest].
    constructor; [| exact Hpre]. unfold elem_matches. rewrite He. reflexivity.
Qed.

Lemma scan_finds_first_match_witness :
  exists pre post el before after,
    _synch_table (heap (registered [])) = pre ++ 0%nat :: post /\
    elems (heap (registered [])) !! 0%nat = Some el /\
    sync_points el = before ++ 1%nat :: after.
Proof.
  destruct (scan_finds_first_match (heap (registered []))
              (_synch_table (heap (registered []))) "T" 2 0%nat 1%nat)
    as (pre & post & el & before & after & Ht & _ & He & Hs & _).
  - vm_compute. reflexivity.
  - exists pre, post, el, before, after. auto.
Defined.

(** ** Calls that find nothing to wait for *)

(** X8: when no registered element has a point of the test case and
    wait-id, [Synch.wait_for_start] returns [None] at once: it waits at no
    barrier and changes nothing. *)
Theorem wait_for_start_without_match (w : Z) (tc_name : string) (st : State)
    (Hnone : Forall (fun e => elem_matches (heap st) tc_name w e = None)
                    (_synch_table (heap st))) :
  wait_for_start w tc_name st = (Returned None, st).
Proof.
  apply scan_synch_table_none in Hnone.
  unfold wait_for_start, bind, get_heap. rewrite Hnone. reflexivity.
Qed.

Lemma wait_for_start_without_match_witness :
  wait_for_start 9 "T" (registered []) = (Returned None, registered []).
Proof.
  apply (wait_for_start_without_match 9 "T" (registered [])).
  repeat constructor.
Defined.

Lemma by_thread_reinit (h : Heap) : by_thread reinit h = set_table [] h.
Proof. reflexivity. Qed.

Lemma await_env_reinit (ready : Heap -> bool) (n : nat) (h : Heap) :
  (forall h0, ready (set_table [] h0) = ready h0) ->
  ready h = false ->
  fst (fst (await_env ready h (repeat (by_thread reinit) n))) = false.
Proof.
  intros Hframe. revert h. induction n as [|n IH]; intros h Hr; simpl.
  - exact Hr.
  - rewrite Hr. apply IH. rewrite by_thread_reinit, Hframe. exact Hr.
Qed.

(** X9: [Synch.reinit] only empties the table.  A thread inside
    [Barrier.wait] of an element stays blocked however often other threads
    call [reinit], the element is left as it was, and after [reinit] a
    [wait_for_start] finds nothing and returns [None]. *)
Theorem reinit_forgets_without_releasing (e : loc) (w : which_barrier)
    (el : SynchElem) (n : nat) (st : State) (wid0 : Z) (tc_name : string)
    (He : elems (heap st) !! e = Some el)
    (Hfilling : _state (barrier_of w el) = filling)
    (Henv : env st = repeat (by_thread reinit) n) :
  fst (Barrier_wait_released e w st) = Pending /\
  wait_for_start wid0 tc_name (snd (reinit st))
  = (Returned None, snd (reinit st)) /\
  elems (heap (snd (reinit st))) !! e = Some el.
Proof.
  split; [| split; [reflexivity | exact He]].
  unfold Barrier_wait_released, bind, await.
  pose proof (await_env_reinit
                (barrier_ready e w
                   (fun b => match _state b with
                             | filling => false
                             | _ => true
                             end)) n (heap st)) as Hblocked.
  rewrite Henv.
  destruct (await_env _ (heap st) (repeat (by_thread reinit) n))
    as [[b h] en].
  simpl in Hblocked. rewrite Hblocked; [reflexivity | reflexivity |].
  unfold barrier_ready. rewrite He, Hfilling. reflexivity.
Qed.

Lemma reinit_forgets_without_releasing_witness :
  fst (Barrier_wait_released 0%nat start_barrier
         (registered (repeat (by_thread reinit) 3))) = Pending.
Proof.
  apply (reinit_forgets_without_releasing 0%nat start_barrier
           {| sync_points := [0%nat; 1%nat]; active_synch_point := None;
              _start_barrier := Barrier_init 2;
              _end_barrier := Barrier_init 2 |} 3
           (registered (repeat (by_thread reinit) 3)) 1 "T").
  - vm_compute. reflexivity.
  - reflexivity.
  - reflexivity.
Defined.

(** ** A point that is not of the element *)

(** X10: [SynchElem.wait_for_your_turn] does not return [True] for a point
    that is not one of the element's points. *)
Theorem no_turn_for_a_foreign_point (e synch_point : loc) (el : SynchElem)
    (st : State)
    (He : elems (heap st) !! e = Some el)
    (Hforeign : ~ In synch_point (sync_points el)) :
  fst (wait_for_your_turn e synch_point st) <> Returned true.
Proof.
  intros Hturn. apply Hforeign.
  unfold wait_for_your_turn in Hturn.
  rewrite (bind_run (get_elem e) _ st el st) in Hturn
    by (apply get_elem_run; exact He).
  destruct (wait_for_your_turn_loop e (sync_points el) synch_point st)
    as [r st'] eqn:Hrun.
  simpl in Hturn. subst r.
  destruct (turn_loop_waits _ _ _ _ _ Hrun) as (before & after & _ & -> & _).
  apply in_or_app. right. left. reflexivity.
Qed.

Lemma no_turn_for_a_foreign_point_witness :
  fst (wait_for_your_turn 0%nat 5%nat
         (second_at_turn [first_takes_turn])) <> Returned true.
Proof.
  apply (no_turn_for_a_foreign_point 0%nat 5%nat
           {| sync_points := [0%nat; 1%nat]; active_synch_point := None;
              _start_barrier := Barrier_init 2;
              _end_barrier := Barrier_init 2 |}).
  - vm_compute. reflexivity.
  - simpl. intros [H | [H | []]]; discriminate.
Defined.

(** ** What registration leaves alone *)

Lemma renew_loop_identity (l : list loc) (st : State) (h' : Heap) :
  for_each l renew_done st = (Returned tt, with_heap h' st) ->
  forall q pt, points (heap st) !! q = Some pt ->
  exists pt', points h' !! q = Some pt' /\ same_identity pt pt'.
Proof.
  revert st. induction l as [|p l IH]; intros st Hrun q pt Hq.
  - simpl in Hrun. unfold ret in Hrun. injection Hrun as Hst.
    assert (h' = heap st) as -> by (rewrite Hst; reflexivity).
    exists pt. split; [exact Hq | repeat split].
  - simpl in Hrun.
    apply bind_inv in Hrun as (u & st1 & Hstep & Hrun).
    unfold renew_done, bind, get_point, get_heap, put_heap in Hstep.
    destruct (points (heap st) !! p) as [pt0|] eqn:Hp; [| discriminate].
    injection Hstep as _ <-.
    set (h1 := set_point p _ _) in Hrun.
    assert (Hq1 : exists pt1, points h1 !! q = Some pt1 /\ same_identity pt pt1).
    { unfold h1, set_point. simpl. destruct (decide (p = q)) as [->|Hne].
      - rewrite lookup_insert_eq. eexists. split; [reflexivity |].
        assert (pt0 = pt) as -> by congruence. repeat split.
      - rewrite lookup_insert_ne by exact Hne. exists pt.
        split; [exact Hq | repeat split]. }
    destruct Hq1 as (pt1 & Hq1 & Hid1 & Hid2 & Hid3).
    destruct (IH {| heap := h1; env := env st; trace := trace st |} Hrun q pt1 Hq1)
      as (pt' & Hq' & Hid1' & Hid2' & Hid3').
    exists pt'. split; [exact Hq' |]. repeat split; congruence.
Qed.

(** X11: [Synch.add_synch_element] appends one new element, at an address no
    element had, with both barriers sized by the number of points, also
    for an empty list (barriers of no party).  The elements and signals
    that existed are untouched, points outside the list are untouched, the
    points of the list keep test case, wait-id and delay, and nothing is
    logged or waited for. *)
Theorem add_synch_element_frame (elem : list loc) (st : State)
    (Hpts : forall q, In q elem -> is_Some (points (heap st) !! q)) :
  exists e,
    elems (heap st) !! e = None /\
    _synch_table (heap (snd (add_synch_element elem st)))
    = _synch_table (heap st) ++ [e] /\
    elems (heap (snd (add_synch_element elem st))) !! e
    = Some {| sync_points := elem; active_synch_point := None;
              _start_barrier := Barrier_init (length elem);
              _end_barrier := Barrier_init (length elem) |} /\
    (forall e0 el, elems (heap st) !! e0 = Some el ->
       elems (heap (snd (add_synch_element elem st))) !! e0 = Some el) /\
    (forall s sg, signals (heap st) !! s = Some sg ->
       signals (heap (snd (add_synch_element elem st))) !! s = Some sg) /\
    (forall q, ~ In q elem ->
       points (heap (snd (add_synch_element elem st))) !! q
       = points (heap st) !! q) /\
    (forall q pt, points (heap st) !! q = Some pt ->
       exists pt',
         points (heap (snd (add_synch_element elem st))) !! q = Some pt' /\
         same_identity pt pt') /\
    env (snd (add_synch_element elem st)) = env st /\
    trace (snd (add_synch_element elem st)) = trace st.
Proof.
  destruct (renew_loop elem st Hpts)
    as (h' & Hrun & Hel & Htab & Hkeep & Hframe & Hsig & Hnew).
  set (e := fresh (dom (elems h'))).
  assert (Hadd : add_synch_element elem st =
                 (Returned tt,
                  with_heap
                    (set_table (_synch_table h' ++ [e])
                       (set_elem e
                          {| sync_points := elem;
                             active_synch_point := None;
                             _start_barrier := Barrier_init (length elem);
                             _end_barrier := Barrier_init (length elem) |}
                          h')) st)).
  { unfold add_synch_element, bind at 1. rewrite Hrun. reflexivity. }
  assert (Hfresh : elems (heap st) !! e = None).
  { rewrite <- Hel. apply not_elem_of_dom. apply is_fresh. }
  rewrite Hadd. simpl. exists e.
  split; [exact Hfresh |].
  split; [rewrite Htab; reflexivity |].
  split; [apply lookup_insert_eq |].
  split.
  { intros e0 el He0. rewrite lookup_insert_ne; [rewrite Hel; exact He0 |].
    intros <-. congruence. }
  split; [exact Hsig |].
  split; [exact Hframe |].
  split; [exact (renew_loop_identity elem st h' Hrun) |].
  split; reflexivity.
Qed.

Lemma add_synch_element_frame_witness :
  exists e,
    _synch_table (heap (snd (add_synch_element [1%nat] (registered []))))
    = _synch_table (heap (registered [])) ++ [e].
Proof.
  destruct (add_synch_element_frame [1%nat] (registered []))
    as (e & _ & Htab & _).
  - intros q [<- | []]. vm_compute. eexists. reflexivity.
  - exists e. exact Htab.
Defined.

(** ** The last party at a barrier *)

Lemma bind_ok {A B : Type} (m : M A) (k : A -> M B) (st : State) (a : A)
    (st1 : State) (r : outcome B * State) :
  m st = (Returned a, st1) -> k a st1 = r -> bind m k st = r.
Proof. intros Hm Hk. unfold bind. rewrite Hm. exact Hk. Qed.

Lemma finally_ok {A : Type} (m : M A) (f : M unit) (st : State) (a : A)
    (st1 : State) (u : unit) (st2 : State) :
  m st = (Returned a, st1) -> f st1 = (Returned u, st2) ->
  finally m f st = (Returned a, st2).
Proof. intros Hm Hf. unfold finally. rewrite Hm, Hf. reflexivity. Qed.

Lemma try_except_ok {A : Type} (m : M A) (h : exn -> M A) (st : State)
    (a : A) (st1 : State) :
  m st = (Returned a, st1) -> try_except m h st = (Returned a, st1).
Proof. intros Hm. unfold try_except. rewrite Hm. reflexivity. Qed.

Lemma heap_cleared_refl (h : Heap) : heap_cleared h h.
Proof.
  split; [reflexivity |]. split; [reflexivity |]. split; [reflexivity |].
  split; [auto |]. intros s sg Hs. exists sg. auto.
Qed.

Lemma heap_cleared_trans (h1 h2 h3 : Heap) :
  heap_cleared h1 h2 -> heap_cleared h2 h3 -> heap_cleared h1 h3.
Proof.
  intros (Hp1 & He1 & Ht1 & Hn1 & Hs1) (Hp2 & He2 & Ht2 & Hn2 & Hs2).
  split; [congruence |]. split; [congruence |]. split; [congruence |].
  split; [auto |]. intros s sg Hs.
  destruct (Hs1 s sg Hs) as (sg' & Hs' & Hf).
  destruct (Hs2 s sg' Hs') as (sg'' & Hs'' & Hf').
  exists sg''. auto.
Qed.

Lemma heap_cleared_point_ready (h h' : Heap) (p : loc) :
  heap_cleared h h' -> point_ready h p -> point_ready h' p.
Proof.
  intros (Hp & _ & _ & _ & Hs) (pt & s & sg & Hpt & Hd & Hsg).
  destruct (Hs s sg Hsg) as (sg' & Hsg' & _).
  exists pt, s, sg'. rewrite Hp. auto.
Qed.

Lemma heap_cleared_unset (h h' : Heap) (p : loc) :
  heap_cleared h h' -> signal_is_set h p = false ->
  signal_is_set h' p = false.
Proof.
  intros (Hp & _ & _ & Hn & Hs). unfold signal_is_set. rewrite Hp.
  destruct (points h !! p) as [pt|]; [| reflexivity].
  destruct (done pt) as [s|]; [| reflexivity].
  destruct (signals h !! s) as [sg|] eqn:Hsg.
  - destruct (Hs s sg Hsg) as (sg' & -> & Hf). intros Hflag.
    destruct (flag sg'); [rewrite Hf in Hflag by reflexivity; discriminate |].
    reflexivity.
  - rewrite (Hn s Hsg). reflexivity.
Qed.

Lemma clear_run (p : loc) (pt : SynchPoint) (s : loc) (sg : ResultWithFlag)
    (st : State) :
  points (heap st) !! p = Some pt -> done pt = Some s ->
  signals (heap st) !! s = Some sg ->
  SynchPoint_clear p st =
    (Returned tt,
     with_heap (set_signal s (ResultWithFlag_clear sg) (heap st)) st).
Proof.
  intros Hp Hd Hs.
  unfold SynchPoint_clear, update_done, bind, get_point, get_heap, put_heap.
  rewrite Hp, Hd. simpl. rewrite Hs. reflexivity.
Qed.

Lemma clear_signal_cleared (h : Heap) (s : loc) (sg0 sg : ResultWithFlag) :
  signals h !! s = Some sg0 ->
  heap_cleared h (set_signal s (ResultWithFlag_clear sg) h).
Proof.
  intros Hs0.
  split; [reflexivity |]. split; [reflexivity |]. split; [reflexivity |].
  simpl. split.
  - intros s1 Hs1. rewrite lookup_insert_ne; [exact Hs1 |].
    intros <-. congruence.
  - intros s1 sg1 Hs1. destruct (decide (s = s1)) as [<-|Hne].
    + rewrite lookup_insert_eq. eexists. split; [reflexivity |].
      simpl. discriminate.
    + rewrite lookup_insert_ne by exact Hne. exists sg1. auto.
Qed.

(** [SynchElem.clear_flags] leaves every signal of the points unset. *)
Lemma clear_loop (l : list loc) (st : State) :
  Forall (point_ready (heap st)) l ->
  exists h',
    for_each l SynchPoint_clear st = (Returned tt, with_heap h' st) /\
    heap_cleared (heap st) h' /\
    Forall (fun p => signal_is_set h' p = false) l.
Proof.
  revert st. induction l as [|p l IH]; intros st Hready.
  - exists (heap st). split; [destruct st; reflexivity |].
    split; [apply heap_cleared_refl | constructor].
  - apply Forall_cons in Hready as [Hp Hl].
    destruct Hp as (pt & s & sg & Hpt & Hd & Hsg).
    set (h1 := set_signal s (ResultWithFlag_clear sg) (heap st)).
    pose proof (clear_signal_cleared (heap st) s sg sg Hsg) as Hc1.
    fold h1 in Hc1.
    destruct (IH (with_heap h1 st)) as (h' & Hrun & Hc & Hunset).
    { eapply Forall_impl; [exact Hl |]. intros q.
      apply heap_cleared_point_ready. exact Hc1. }
    exists h'. split.
    { simpl. apply (bind_ok _ _ _ tt (with_heap h1 st));
        [apply (clear_run p pt s sg); assumption | exact Hrun]. }
    split; [eapply heap_cleared_trans; [exact Hc1 | exact Hc] |].
    constructor; [| exact Hunset].
    apply (heap_cleared_unset h1); [exact Hc |].
    unfold signal_is_set, h1. simpl. rewrite Hpt, Hd, lookup_insert_eq.
    reflexivity.
Qed.

Lemma with_barrier_twice (w : which_barrier) (b b' : Barrier)
    (el : SynchElem) :
  with_barrier w b' (with_barrier w b el) = with_barrier w b' el.
Proof. destruct w; reflexivity. Qed.

Lemma barrier_of_with_barrier (w : which_barrier) (b : Barrier)
    (el : SynchElem) :
  barrier_of w (with_barrier w b el) = b.
Proof. destruct w; reflexivity. Qed.

Lemma set_elem_twice (e : loc) (el el' : SynchElem) (h : Heap) :
  set_elem e el' (set_elem e el h) = set_elem e el' h.
Proof. unfold set_elem. simpl. rewrite insert_insert_eq. reflexivity. Qed.

Lemma get_barrier_run (e : loc) (w : which_barrier) (el : SynchElem)
    (st : State) :
  elems (heap st) !! e = Some el ->
  get_barrier e w st = (Returned (barrier_of w el), st).
Proof.
  intros He. unfold get_barrier.
  apply (bind_ok _ _ _ el st); [apply get_elem_run; exact He | reflexivity].
Qed.

(** The party that completes a barrier does not wait: it runs the action,
    which clears the flags, and leaves. *)
Lemma Barrier_wait_last_party (e : loc) (w : which_barrier) (el : SynchElem)
    (st : State) :
  elems (heap st) !! e = Some el ->
  _state (barrier_of w el) = filling ->
  (_count (barrier_of w el) + 1)%nat = _parties (barrier_of w el) ->
  Forall (point_ready (heap st)) (sync_points el) ->
  exists h',
    heap_cleared (heap st) h' /\
    Forall (fun p => signal_is_set h' p = false) (sync_points el) /\
    Barrier_wait e w (clear_flags e) st =
      (Returned (_count (barrier_of w el)),
       {| heap := set_elem e
                    (with_barrier w (released_barrier (barrier_of w el)) el) h';
          env := env st;
          trace := trace st ++
                   [(BarrierPassed e (_count (barrier_of w el)),
                     set_elem e
                       (with_barrier w
                          (with_state draining
                             (with_count (S (_count (barrier_of w el)))
                                (barrier_of w el))) el) h')] |}).
Proof.
  intros He Hfill Hlast Hready.
  set (b := barrier_of w el) in *.
  set (el1 := with_barrier w (with_count (S (_count b)) b) el).
  set (h1 := set_elem e el1 (heap st)).
  assert (Hready1 : Forall (point_ready h1) (sync_points el1)).
  { assert (Hsp : sync_points el1 = sync_points el)
      by (unfold el1; destruct w; reflexivity).
    rewrite Hsp. exact Hready. }
  destruct (clear_loop (sync_points el1) (with_heap h1 st) Hready1)
    as (h2 & Hclear & Hc & Hunset).
  assert (Hsp : sync_points el1 = sync_points el)
    by (unfold el1; destruct w; reflexivity).
  (* the heap the caller hands back differs from [h2] at [e] only *)
  set (hc := {| points := points h2; signals := signals h2;
                elems := elems (heap st);
                _synch_table := _synch_table h2 |}).
  assert (Hhc : heap_cleared (heap st) hc).
  { destruct Hc as (Hp & Hel & Ht & Hn & Hs).
    split; [exact Hp |]. split; [reflexivity |]. split; [exact Ht |].
    split; [exact Hn | exact Hs]. }
  assert (Hh2 : forall el', set_elem e el' h2 = set_elem e el' hc).
  { intros el'. destruct Hc as (_ & Hel & _).
    unfold set_elem, hc. simpl in *. rewrite Hel. unfold h1. simpl.
    rewrite insert_insert_eq. reflexivity. }
  exists hc. split; [exact Hhc |]. split.
  { rewrite <- Hsp. eapply Forall_impl; [exact Hunset |].
    intros p Hp. unfold signal_is_set in *. exact Hp. }
  assert (He2 : elems h2 !! e = Some el1).
  { destruct Hc as (_ & Hel & _). rewrite Hel. unfold h1. simpl.
    apply lookup_insert_eq. }
  unfold Barrier_wait.
  apply (bind_ok _ _ _ tt st).
  { unfold Barrier_enter.
    apply (bind_ok _ _ _ tt st).
    - apply await_ready. unfold barrier_ready. rewrite He. fold b.
      unfold state_turning. rewrite Hfill. reflexivity.
    - apply (bind_ok _ _ _ b st); [apply get_barrier_run; exact He |].
      unfold state_negative. rewrite Hfill. reflexivity. }
  apply (bind_ok _ _ _ b st); [apply get_barrier_run; exact He |].
  apply (bind_ok _ _ _ tt (with_heap h1 st));
    [apply update_barrier_run; exact He |].
  apply Nat.eqb_eq in Hlast. rewrite Hlast.
  set (el2 := with_barrier w (with_state draining (with_count (S (_count b)) b))
                el).
  set (st3 := with_heap (set_elem e el2 hc) st).
  set (st4 := {| heap := heap st3; env := env st3;
                 trace := trace st3 ++ [(BarrierPassed e (_count b), heap st3)] |}).
  apply (finally_ok _ _ _ (_count b) st4 tt).
  - apply (bind_ok _ _ _ tt st3); [| reflexivity].
    unfold Barrier_release. apply try_except_ok.
    apply (bind_ok _ _ _ tt (with_heap h2 (with_heap h1 st))).
    + unfold clear_flags.
      apply (bind_ok _ _ _ el1 (with_heap h1 st));
        [apply get_elem_run; unfold h1; simpl; apply lookup_insert_eq |].
      exact Hclear.
    + rewrite (update_barrier_run e w _ el1 (with_heap h2 (with_heap h1 st)) He2).
      simpl.
      unfold st3, with_heap. simpl. rewrite Hh2.
      unfold el1, el2. rewrite barrier_of_with_barrier, with_barrier_twice.
      reflexivity.
  - set (el3 := with_barrier w
                  (with_count (_count b)
                     (with_state draining (with_count (S (_count b)) b))) el).
    apply (bind_ok _ _ _ tt (with_heap (set_elem e el3 hc) st4)).
    + rewrite (update_barrier_run e w _ el2 st4)
        by (simpl; apply lookup_insert_eq).
      unfold with_heap, st4, st3. simpl.
      unfold el2, el3. rewrite barrier_of_with_barrier, with_barrier_twice.
      rewrite set_elem_twice. reflexivity.
    + unfold Barrier_exit.
      apply (bind_ok _ _ _ (barrier_of w el3) (with_heap (set_elem e el3 hc) st4));
        [apply get_barrier_run; simpl; apply lookup_insert_eq |].
      unfold el3 at 1 2. rewrite barrier_of_with_barrier. simpl.
      unfold released_barrier. fold b.
      destruct (Nat.eqb (_count b) 0) eqn:Hc0; simpl.
      * rewrite (update_barrier_run e w _ el3)
          by (simpl; apply lookup_insert_eq).
        unfold with_heap, st4, st3. simpl.
        unfold el3. rewrite barrier_of_with_barrier, with_barrier_twice.
        rewrite set_elem_twice. reflexivity.
      * unfold ret, with_heap, st4, st3. simpl. reflexivity.
Qed.

(** [SynchElem.wait_for_start] and [SynchElem.wait_for_end] for the last
    party. *)
Lemma SynchElem_wait_last_party (e : loc) (w : which_barrier)
    (el : SynchElem) (st : State) :
  elems (heap st) !! e = Some el ->
  _state (barrier_of w el) = filling ->
  (_count (barrier_of w el) + 1)%nat = _parties (barrier_of w el) ->
  Forall (point_ready (heap st)) (sync_points el) ->
  exists h' tr,
    heap_cleared (heap st) h' /\
    Forall (fun p => signal_is_set h' p = false) (sync_points el) /\
    (match w with
     | start_barrier => SynchElem_wait_for_start e
     | end_barrier => SynchElem_wait_for_end e
     end) st =
      (Returned true,
       {| heap := set_elem e
                    (with_barrier w (released_barrier (barrier_of w el)) el) h';
          env := env st; trace := tr |}).
Proof.
  intros He Hfill Hlast Hready.
  destruct (Barrier_wait_last_party e w el st He Hfill Hlast Hready)
    as (h' & Hc & Hunset & Hwait).
  exists h'. eexists. split; [exact Hc |]. split; [exact Hunset |].
  assert (Hnb : is_broken (released_barrier (barrier_of w el)) = false).
  { unfold is_broken, released_barrier. simpl.
    destruct (Nat.eqb (_count (barrier_of w el)) 0); reflexivity. }
  assert (Hgen : (Barrier_wait e w (clear_flags e) >>
                  (let* b := get_barrier e w in
                   if is_broken b then ret false else ret true)) st =
                 (Returned true,
                  {| heap := set_elem e
                               (with_barrier w
                                  (released_barrier (barrier_of w el)) el) h';
                     env := env st;
                     trace := trace st ++
                       [(BarrierPassed e (_count (barrier_of w el)),
                         set_elem e
                           (with_barrier w
                              (with_state draining
                                 (with_count (S (_count (barrier_of w el)))
                                    (barrier_of w el))) el) h')] |})).
  { eapply bind_ok; [exact Hwait |].
    eapply bind_ok;
      [apply get_barrier_run; simpl; apply lookup_insert_eq |].
    rewrite barrier_of_with_barrier, Hnb. reflexivity. }
  destruct w; exact Hgen.
Qed.

(** X12: the thread that arrives last at the entry (or exit) barrier of an
    element does not wait: [SynchElem.wait_for_start] (or [wait_for_end])
    returns [True] without consuming a transition of the other threads,
    having run [clear_flags], after which no point of the element has its
    completion signal set; points and table are unchanged and the barrier
    is left released. *)
Theorem last_party_passes_and_clears (e : loc) (w : which_barrier)
    (el : SynchElem) (st : State)
    (He : elems (heap st) !! e = Some el)
    (Hfill : _state (barrier_of w el) = filling)
    (Hlast : (_count (barrier_of w el) + 1)%nat = _parties (barrier_of w el))
    (Hready : Forall (point_ready (heap st)) (sync_points el)) :
  let call := match w with
              | start_barrier => SynchElem_wait_for_start e
              | end_barrier => SynchElem_wait_for_end e
              end in
  fst (call st) = Returned true /\
  env (snd (call st)) = env st /\
  Forall (fun p => signal_is_set (heap (snd (call st))) p = false)
         (sync_points el) /\
  elems (heap (snd (call st))) !! e
  = Some (with_barrier w (released_barrier (barrier_of w el)) el) /\
  points (heap (snd (call st))) = points (heap st) /\
  _synch_table (heap (snd (call st))) = _synch_table (heap st).
Proof.
  intros call.
  destruct (SynchElem_wait_last_party e w el st He Hfill Hlast Hready)
    as (h' & tr & Hc & Hunset & Hrun).
  unfold call. rewrite Hrun. simpl.
  destruct Hc as (Hp & _ & Ht & _).
  split; [reflexivity |]. split; [reflexivity |].
  split; [exact Hunset |]. split; [apply lookup_insert_eq |].
  split; [exact Hp | exact Ht].
Qed.


Lemma last_party_passes_and_clears_witness :
  fst (SynchElem_wait_for_start 0%nat other_waits_at_start) = Returned true /\
  signal_is_set
    (heap (snd (SynchElem_wait_for_start 0%nat other_waits_at_start))) 0%nat
  = false.
Proof.
  destruct (last_party_passes_and_clears 0%nat start_barrier
              {| sync_points := [0%nat; 1%nat]; active_synch_point := None;
                 _start_barrier :=
                   {| _parties := 2; _state := filling; _count := 1 |};
                 _end_barrier := Barrier_init 2 |} other_waits_at_start)
    as (Hret & _ & Hunset & _).
  - vm_compute. reflexivity.
  - reflexivity.
  - reflexivity.
  - repeat constructor; unfold point_ready; do 3 eexists;
      (split; [vm_compute; reflexivity |]);
      (split; [reflexivity | vm_compute; reflexivity]).
  - split; [exact Hret | exact (Forall_inv Hunset)].
Defined.

(** ** A scenario of one point *)







(** ** L2CAP channels: lookup, invariant and data *)

Section L2capLists.

Variable f : L2capChan.t -> L2capChan.t.
Hypothesis f_id : forall c, L2capChan.id (f c) = L2capChan.id c.

Lemma lookup_update_chan (i : Z) (cs : list L2capChan.t) :
  find (fun c => L2capChan.id c =? i) (L2cap.update_chan i f cs)
  = option_map f (find (fun c => L2capChan.id c =? i) cs).
Proof.
  induction cs as [|c cs IH]; simpl; [reflexivity |].
  destruct (L2capChan.id c =? i) eqn:Hc; simpl.
  - rewrite f_id, Hc. reflexivity.
  - rewrite Hc. exact IH.
Qed.

Lemma lookup_update_chan_ne (i j : Z) (cs : list L2capChan.t) :
  i <> j ->
  find (fun c => L2capChan.id c =? j) (L2cap.update_chan i f cs)
  = find (fun c => L2capChan.id c =? j) cs.
Proof.
  intros Hne. induction cs as [|c cs IH]; simpl; [reflexivity |].
  destruct (L2capChan.id c =? i) eqn:Hc; simpl.
  - rewrite f_id. apply Z.eqb_eq in Hc.
    assert ((L2capChan.id c =? j) = false) as -> by (apply Z.eqb_neq; lia).
    reflexivity.
  - destruct (L2capChan.id c =? j); [reflexivity | exact IH].
Qed.

Lemma ids_update_chan (i : Z) (cs : list L2capChan.t) :
  map L2capChan.id (L2cap.update_chan i f cs) = map L2capChan.id cs.
Proof.
  induction cs as [|c cs IH]; simpl; [reflexivity |].
  destruct (L2capChan.id c =? i); simpl; [rewrite f_id | rewrite IH];
    reflexivity.
Qed.

Lemma Forall_update_chan (P : L2capChan.t -> Prop) (i : Z)
    (cs : list L2capChan.t) :
  (forall c, P c -> P (f c)) -> Forall P cs ->
  Forall P (L2cap.update_chan i f cs).
Proof.
  intros HP Hcs. induction Hcs as [|c cs Hc Hcs IH]; simpl; [constructor |].
  destruct (L2capChan.id c =? i); constructor; try assumption.
  apply HP. exact Hc.
Qed.

End L2capLists.

Lemma lookup_none_ids (i : Z) (cs : list L2capChan.t) :
  find (fun c => L2capChan.id c =? i) cs = None <->
  ~ In i (map L2capChan.id cs).
Proof.
  induction cs as [|c cs IH]; simpl; [tauto |].
  destruct (Z.eqb_spec (L2capChan.id c) i) as [Heq|Hne].
  - split; [discriminate | tauto].
  - rewrite IH. tauto.
Qed.

Lemma lookup_remove_chan_ne (i j : Z) (cs : list L2capChan.t) :
  i <> j ->
  find (fun c => L2capChan.id c =? j) (L2cap.remove_chan i cs)
  = find (fun c => L2capChan.id c =? j) cs.
Proof.
  intros Hne. induction cs as [|c cs IH]; simpl; [reflexivity |].
  destruct (Z.eqb_spec (L2capChan.id c) i) as [Heq|Hni]; simpl.
  - assert ((L2capChan.id c =? j) = false) as -> by (apply Z.eqb_neq; lia).
    reflexivity.
  - destruct (L2capChan.id c =? j); [reflexivity | exact IH].
Qed.

Lemma ids_remove_chan_incl (i : Z) (cs : list L2capChan.t) (j : Z) :
  In j (map L2capChan.id (L2cap.remove_chan i cs)) ->
  In j (map L2capChan.id cs).
Proof.
  induction cs as [|c cs IH]; simpl; [tauto |].
  destruct (L2capChan.id c =? i); simpl; tauto.
Qed.

Lemma NoDup_remove_chan (i : Z) (cs : list L2capChan.t) :
  NoDup (map L2capChan.id cs) ->
  NoDup (map L2capChan.id (L2cap.remove_chan i cs)) /\
  ~ In i (map L2capChan.id (L2cap.remove_chan i cs)).
Proof.
  induction cs as [|c cs IH]; simpl; intros Hnd.
  - split; [constructor | tauto].
  - apply NoDup_cons in Hnd as [Hc Hnd].
    rewrite list_elem_of_In in Hc.
    destruct (Z.eqb_spec (L2capChan.id c) i) as [Heq|Hni]; simpl.
    + split; [exact Hnd | rewrite <- Heq; exact Hc].
    + destruct (IH Hnd) as [IH1 IH2]. split.
      * apply NoDup_cons. split; [| exact IH1].
        rewrite list_elem_of_In. intros H. apply Hc.
        exact (ids_remove_chan_incl _ _ _ H).
      * tauto.
Qed.

Lemma Forall_remove_chan (P : L2capChan.t -> Prop) (i : Z)
    (cs : list L2capChan.t) :
  Forall P cs -> Forall P (L2cap.remove_chan i cs).
Proof.
  intros Hcs. induction Hcs as [|c cs Hc Hcs IH]; simpl; [constructor |].
  destruct (L2capChan.id c =? i); [exact Hcs | constructor; assumption].
Qed.

Lemma lookup_app_new (i : Z) (cs : list L2capChan.t) (c : L2capChan.t) :
  find (fun c => L2capChan.id c =? i) cs = None ->
  L2capChan.id c = i ->
  find (fun c => L2capChan.id c =? i) (cs ++ [c]) = Some c.
Proof.
  intros Hnone Hc. rewrite find_app_none by exact Hnone. simpl.
  rewrite Hc, Z.eqb_refl. reflexivity.
Qed.

Lemma lookup_app_other (i j : Z) (cs : list L2capChan.t) (c : L2capChan.t) :
  L2capChan.id c = i -> i <> j ->
  find (fun c => L2capChan.id c =? j) (cs ++ [c])
  = find (fun c => L2capChan.id c =? j) cs.
Proof.
  intros Hc Hne.
  destruct (find (fun c => L2capChan.id c =? j) cs) as [c0|] eqn:Hf.
  - apply find_app_some. exact Hf.
  - rewrite find_app_none by exact Hf. simpl.
    assert ((L2capChan.id c =? j) = false) as -> by (apply Z.eqb_neq; lia).
    reflexivity.
Qed.

(** X14: after [L2cap.connected(chan_id, ...)] the lookup of [chan_id] gives
    a channel in state ["connected"] with the parameters of the call: the
    channel found before with its data kept, or a new one with no data.
    The lookup of every other id is unchanged, and the list grows by one
    only when the id was unknown. *)
Theorem l2cap_connected_lookup (l : L2cap.t) (i : Z) (psm : option Z)
    (peer_mtu peer_mps our_mtu our_mps : Z) (bd_addr_type : option Z)
    (bd_addr : option (list Z)) (j : Z) (Hother : i <> j) :
  let l' := L2cap.connected l i psm peer_mtu peer_mps our_mtu our_mps
              bd_addr_type bd_addr in
  L2cap.chan_lookup_id l' i
  = Some (L2capChan.connected
            (match L2cap.chan_lookup_id l i with
             | Some c => c
             | None => L2capChan.init i psm peer_mtu peer_mps our_mtu our_mps
                         bd_addr_type bd_addr
             end)
            psm peer_mtu peer_mps our_mtu our_mps bd_addr_type bd_addr) /\
  L2cap.chan_lookup_id l' j = L2cap.chan_lookup_id l j /\
  length (L2cap.channels l')
  = (match L2cap.chan_lookup_id l i with
     | Some _ => length (L2cap.channels l)
     | None => S (length (L2cap.channels l))
     end).
Proof.
  intros l'. unfold l', L2cap.connected, L2cap.chan_lookup_id.
  destruct (find (fun chan => L2capChan.id chan =? i) (L2cap.channels l))
    as [c|] eqn:Hl; simpl.
  - rewrite lookup_update_chan by reflexivity. rewrite Hl.
    rewrite lookup_update_chan_ne by (try reflexivity; exact Hother).
    split; [reflexivity |]. split; [reflexivity |].
    rewrite <- (length_map L2capChan.id), ids_update_chan by reflexivity.
    apply length_map.
  - rewrite lookup_app_new by (try exact Hl; reflexivity).
    rewrite (lookup_app_other i j) by (try reflexivity; exact Hother).
    split; [reflexivity |]. split; [reflexivity |].
    rewrite length_app. simpl. lia.
Qed.

Lemma l2cap_connected_lookup_witness :
  L2cap.chan_lookup_id
    (L2cap.connected (L2cap.init 128 64) 5 (Some 128) 100 50 64 32
       (Some 0) (Some [1; 2])) 7 = None.
Proof.
  destruct (l2cap_connected_lookup (L2cap.init 128 64) 5 (Some 128) 100 50
              64 32 (Some 0) (Some [1; 2]) 7) as (_ & Hj & _).
  - lia.
  - rewrite Hj. reflexivity.
Defined.

Lemma channels_ok_update (l : L2cap.t) (i : Z)
    (f : L2capChan.t -> L2capChan.t) :
  (forall c, L2capChan.id (f c) = L2capChan.id c) ->
  (forall c, L2capChan.state c = "connected" ->
             L2capChan.state (f c) = "connected") ->
  channels_ok l ->
  channels_ok (L2cap.with_channels (L2cap.update_chan i f (L2cap.channels l)) l).
Proof.
  intros Hid Hstate [Hnd Hall]. split; simpl.
  - rewrite ids_update_chan by exact Hid. exact Hnd.
  - apply Forall_update_chan; assumption.
Qed.

Lemma channels_ok_init (psm initial_mtu : Z) :
  channels_ok (L2cap.init psm initial_mtu).
Proof. split; simpl; constructor. Qed.

Lemma channels_ok_connected (l : L2cap.t) (i : Z) (psm : option Z)
    (peer_mtu peer_mps our_mtu our_mps : Z) (bd_addr_type : option Z)
    (bd_addr : option (list Z)) :
  channels_ok l ->
  channels_ok (L2cap.connected l i psm peer_mtu peer_mps our_mtu our_mps
                 bd_addr_type bd_addr).
Proof.
  intros Hok. unfold L2cap.connected, L2cap.chan_lookup_id.
  destruct (find (fun chan => L2capChan.id chan =? i) (L2cap.channels l))
    as [c|] eqn:Hl.
  - apply channels_ok_update; [reflexivity | reflexivity | exact Hok].
  - destruct Hok as [Hnd Hall]. split; simpl.
    + rewrite map_app. simpl. apply NoDup_app. split; [exact Hnd |].
      split; [| apply NoDup_singleton].
      intros x Hx Hx'. apply list_elem_of_In in Hx.
      apply list_elem_of_In in Hx'. simpl in Hx'.
      destruct Hx' as [<-|[]].
      apply lookup_none_ids in Hl. apply Hl. exact Hx.
    + apply Forall_app. split; [exact Hall |].
      constructor; [reflexivity | constructor].
Qed.

Lemma channels_ok_disconnected (l : L2cap.t) (i : Z) (psm bd_addr_type : option Z)
    (bd_addr : option (list Z)) (reason : option Z) :
  channels_ok l ->
  channels_ok (fst (L2cap.disconnected l i psm bd_addr_type bd_addr reason)).
Proof.
  intros Hok. unfold L2cap.disconnected.
  destruct (L2cap.chan_lookup_id l i); simpl; [| exact Hok].
  destruct Hok as [Hnd Hall]. split; simpl.
  - apply NoDup_remove_chan. exact Hnd.
  - apply Forall_remove_chan. exact Hall.
Qed.

Lemma channels_ok_is_connected (l : L2cap.t) (i : Z)
    (sched : list (Tick string)) :
  channels_ok l ->
  L2cap.is_connected l i sched
  = Returned (match L2cap.chan_lookup_id l i with
              | Some _ => true
              | None => false
              end).
Proof.
  intros [_ Hall]. unfold L2cap.is_connected, L2cap.chan_lookup_id.
  destruct (find (fun chan => L2capChan.id chan =? i) (L2cap.channels l))
    as [c|] eqn:Hl; [| reflexivity].
  apply find_some in Hl as [Hin _].
  rewrite List.Forall_forall in Hall. apply Hall in Hin.
  unfold L2capChan.is_connected, L2capChan._get_state. rewrite Hin.
  reflexivity.
Qed.

(** X15: the channels of an [L2cap] keep distinct ids and state
    ["connected"] under [connected], [disconnected], [rx], [tx],
    [clear_data] and a [reconfigured] that returns. *)
Theorem l2cap_channels_stay_connected (l : L2cap.t) (Hok : channels_ok l)
    (i : Z) (psm : option Z) (peer_mtu peer_mps our_mtu our_mps : Z)
    (bd_addr_type : option Z) (bd_addr : option (list Z))
    (reason : option Z) (data : list Z) :
  channels_ok (L2cap.connected l i psm peer_mtu peer_mps our_mtu our_mps
                 bd_addr_type bd_addr) /\
  channels_ok (fst (L2cap.disconnected l i psm bd_addr_type bd_addr reason)) /\
  channels_ok (L2cap.rx l i data) /\
  channels_ok (L2cap.tx l i data) /\
  channels_ok (L2cap.clear_data l) /\
  (forall l', L2cap.reconfigured l i peer_mtu peer_mps our_mtu our_mps
              = Returned l' -> channels_ok l').
Proof.
  split; [apply channels_ok_connected; exact Hok |].
  split; [apply channels_ok_disconnected; exact Hok |].
  split; [| split; [| split]].
  - unfold L2cap.rx. destruct (L2cap.chan_lookup_id l i); [| exact Hok].
    apply channels_ok_update; [reflexivity | auto | exact Hok].
  - unfold L2cap.tx. destruct (L2cap.chan_lookup_id l i); [| exact Hok].
    apply channels_ok_update; [reflexivity | auto | exact Hok].
  - destruct Hok as [Hnd Hall]. split; simpl.
    + rewrite map_map. simpl. exact Hnd.
    + apply Forall_map. simpl. exact Hall.
  - intros l'. unfold L2cap.reconfigured.
    destruct (L2cap.chan_lookup_id l i); [| discriminate].
    intros Hl'. injection Hl' as <-.
    apply channels_ok_update; [reflexivity | auto | exact Hok].
Qed.

Lemma l2cap_channels_stay_connected_witness :
  let l := L2cap.connected
             (L2cap.connected (L2cap.init 128 64) 5 (Some 128) 100 50 64 32
                (Some 0) (Some [1; 2]))
             6 (Some 128) 100 50 64 32 (Some 0) (Some [1; 2]) in
  map L2capChan.id (L2cap.channels l) = [5; 6] /\
  channels_ok (L2cap.connected l 5 (Some 129) 200 50 64 32 (Some 0)
                 (Some [1; 2])) /\
  channels_ok (fst (L2cap.disconnected l 5 (Some 129) (Some 0)
                      (Some [1; 2]) (Some 19))) /\
  channels_ok (L2cap.rx l 5 [1; 2]) /\
  channels_ok (L2cap.tx l 5 [1; 2]) /\
  channels_ok (L2cap.clear_data l).
Proof.
  intros l.
  assert (Hok : channels_ok l).
  { split; simpl; [| repeat constructor].
    apply NoDup_cons. split; [| apply NoDup_singleton].
    intros Hin. apply list_elem_of_In in Hin. destruct Hin as [H | []].
    discriminate H. }
  destruct (l2cap_channels_stay_connected l Hok 5 (Some 129) 200 50 64 32
              (Some 0) (Some [1; 2]) (Some 19) [1; 2])
    as (Hconn & Hdisc & Hrx & Htx & Hclear & _).
  split; [reflexivity |]. split; [exact Hconn |]. split; [exact Hdisc |].
  split; [exact Hrx |]. split; [exact Htx | exact Hclear].
Defined.

(** X16: while the channels have distinct ids and are connected,
    [L2cap.is_connected] does not poll: it answers whether the id is in the
    list.  So [wait_for_connection] returns [True] at once for a listed
    channel and [wait_for_disconnection] returns [True] at once for an
    unlisted one, whatever the environment does; otherwise they enter their
    loop. *)
Theorem l2cap_channel_state_is_membership (l : L2cap.t) (Hok : channels_ok l)
    (i : Z) (first : list (Tick string))
    (sched : list (Tick (L2cap.t * list (Tick string)))) :
  L2cap.is_connected l i first
  = Returned (match L2cap.chan_lookup_id l i with
              | Some _ => true
              | None => false
              end) /\
  L2cap.wait_for_connection l i first sched
  = (match L2cap.chan_lookup_id l i with
     | Some _ => Returned true
     | None => L2cap.wait_for_connection_loop i sched
     end) /\
  L2cap.wait_for_disconnection l i first sched
  = (match L2cap.chan_lookup_id l i with
     | Some _ => L2cap.wait_for_disconnection_loop i sched
     | None => Returned true
     end).
Proof.
  pose proof (channels_ok_is_connected l i first Hok) as Hc.
  split; [exact Hc |].
  unfold L2cap.wait_for_connection, L2cap.wait_for_disconnection.
  rewrite Hc. destruct (L2cap.chan_lookup_id l i); split; reflexivity.
Qed.

Lemma l2cap_channel_state_is_membership_witness :
  let l := L2cap.connected (L2cap.init 128 64) 5 (Some 128) 100 50 64 32
             (Some 0) (Some [1; 2]) in
  let cancelled := [mkTick true true "init"] in
  L2cap.is_connected l 5 cancelled = Returned true /\
  L2cap.wait_for_connection l 5 cancelled [] = Returned true /\
  L2cap.is_connected l 6 cancelled = Returned false /\
  L2cap.wait_for_disconnection l 6 cancelled [] = Returned true.
Proof.
  intros l cancelled.
  assert (Hok : channels_ok l).
  { split; simpl; [apply NoDup_singleton | repeat constructor]. }
  destruct (l2cap_channel_state_is_membership l Hok 5 cancelled [])
    as (Hc5 & Hw5 & _).
  destruct (l2cap_channel_state_is_membership l Hok 6 cancelled [])
    as (Hc6 & _ & Hw6).
  split; [exact Hc5 |]. split; [exact Hw5 |].
  split; [exact Hc6 | exact Hw6].
Defined.

(** X17: [L2cap.wait_for_connection] called after [L2cap.connected] for the
    same id returns [True] at once, also under cancellation. *)
Theorem l2cap_connect_then_wait (l : L2cap.t) (Hok : channels_ok l) (i : Z)
    (psm : option Z) (peer_mtu peer_mps our_mtu our_mps : Z)
    (bd_addr_type : option Z) (bd_addr : option (list Z))
    (first : list (Tick string))
    (sched : list (Tick (L2cap.t * list (Tick string)))) :
  L2cap.wait_for_connection
    (L2cap.connected l i psm peer_mtu peer_mps our_mtu our_mps bd_addr_type
       bd_addr) i first sched = Returned true.
Proof.
  pose proof (channels_ok_connected l i psm peer_mtu peer_mps our_mtu our_mps
                bd_addr_type bd_addr Hok) as Hok'.
  unfold L2cap.wait_for_connection.
  rewrite (channels_ok_is_connected _ i first Hok').
  assert (Hl : exists c,
    L2cap.chan_lookup_id
      (L2cap.connected l i psm peer_mtu peer_mps our_mtu our_mps bd_addr_type
         bd_addr) i = Some c).
  { unfold L2cap.connected, L2cap.chan_lookup_id.
    destruct (find (fun chan => L2capChan.id chan =? i) (L2cap.channels l))
      as [c|] eqn:Hl; simpl.
    - rewrite lookup_update_chan by reflexivity. rewrite Hl. eexists.
      reflexivity.
    - rewrite lookup_app_new by (try exact Hl; reflexivity). eexists.
      reflexivity. }
  destruct Hl as [c ->]. reflexivity.
Qed.

Lemma l2cap_connect_then_wait_witness :
  L2cap.wait_for_connection
    (L2cap.connected (L2cap.init 128 64) 5 (Some 128) 100 50 64 32 (Some 0)
       (Some [1; 2])) 5 [] [] = Returned true.
Proof.
  assert (Hok : channels_ok (L2cap.init 128 64))
    by (split; simpl; constructor).
  exact (l2cap_connect_then_wait (L2cap.init 128 64) Hok 5 (Some 128) 100 50
           64 32 (Some 0) (Some [1; 2]) [] []).
Defined.

(** X18: [L2cap.disconnected] takes the channel out of the list: the lookup
    of its id then finds nothing, the other lookups are unchanged, the
    channel taken out is the one found before with its state set to
    ["disconnected"], and [is_connected] is [False] and
    [wait_for_disconnection] is [True] at once. *)
Theorem l2cap_disconnected_removes (l : L2cap.t) (Hok : channels_ok l)
    (i : Z) (psm bd_addr_type : option Z) (bd_addr : option (list Z))
    (reason : option Z) (first : list (Tick string))
    (sched : list (Tick (L2cap.t * list (Tick string)))) :
  let r := L2cap.disconnected l i psm bd_addr_type bd_addr reason in
  L2cap.chan_lookup_id (fst r) i = None /\
  (forall j, i <> j ->
     L2cap.chan_lookup_id (fst r) j = L2cap.chan_lookup_id l j) /\
  snd r = option_map
            (fun c => L2capChan.disconnected c psm bd_addr_type bd_addr reason)
            (L2cap.chan_lookup_id l i) /\
  L2cap.is_connected (fst r) i first = Returned false /\
  L2cap.wait_for_disconnection (fst r) i first sched = Returned true.
Proof.
  intros r.
  assert (Hnone : L2cap.chan_lookup_id (fst r) i = None).
  { unfold r, L2cap.disconnected.
    destruct (L2cap.chan_lookup_id l i) as [c|] eqn:Hl; simpl; [| exact Hl].
    unfold L2cap.chan_lookup_id. simpl. apply lookup_none_ids.
    apply NoDup_remove_chan. apply Hok. }
  split; [exact Hnone |]. split; [| split; [| split]].
  - intros j Hne. unfold r, L2cap.disconnected.
    destruct (L2cap.chan_lookup_id l i) as [c|]; simpl; [| reflexivity].
    unfold L2cap.chan_lookup_id. simpl.
    apply lookup_remove_chan_ne. exact Hne.
  - unfold r, L2cap.disconnected.
    destruct (L2cap.chan_lookup_id l i); reflexivity.
  - unfold L2cap.is_connected. rewrite Hnone. reflexivity.
  - unfold L2cap.wait_for_disconnection, L2cap.is_connected.
    rewrite Hnone. reflexivity.
Qed.

Lemma l2cap_disconnected_removes_witness :
  L2cap.chan_lookup_id
    (fst (L2cap.disconnected
            (L2cap.connected (L2cap.init 128 64) 5 (Some 128) 100 50 64 32
               (Some 0) (Some [1; 2])) 5 None None None (Some 19))) 5 = None.
Proof.
  assert (Hok : channels_ok
    (L2cap.connected (L2cap.init 128 64) 5 (Some 128) 100 50 64 32
       (Some 0) (Some [1; 2]))).
  { split; simpl; [apply NoDup_singleton | repeat constructor]. }
  exact (proj1 (l2cap_disconnected_removes _ Hok 5 None None None (Some 19)
                  [] [])).
Defined.

(** X19: [L2cap.reconfigured] on an unknown channel raises [AttributeError]
    (the lookup result is not checked); on a known channel it changes the
    four MTU and MPS fields of that channel only, and the ids in the list
    stay as they were. *)
Theorem l2cap_reconfigured_lookup (l : L2cap.t) (i : Z)
    (peer_mtu peer_mps our_mtu our_mps : Z) :
  match L2cap.chan_lookup_id l i with
  | None =>
      L2cap.reconfigured l i peer_mtu peer_mps our_mtu our_mps
      = Raised AttributeError
  | Some c =>
      exists l',
        L2cap.reconfigured l i peer_mtu peer_mps our_mtu our_mps
        = Returned l' /\
        L2cap.chan_lookup_id l' i
        = Some (L2capChan.reconfigure c peer_mtu peer_mps our_mtu our_mps) /\
        (forall j, i <> j ->
           L2cap.chan_lookup_id l' j = L2cap.chan_lookup_id l j) /\
        map L2capChan.id (L2cap.channels l')
        = map L2capChan.id (L2cap.channels l)
  end.
Proof.
  unfold L2cap.reconfigured.
  destruct (L2cap.chan_lookup_id l i) as [c|] eqn:Hl; [| reflexivity].
  eexists. split; [reflexivity |].
  unfold L2cap.chan_lookup_id in *. simpl.
  split; [| split].
  - rewrite lookup_update_chan by reflexivity. rewrite Hl. reflexivity.
  - intros j Hne. apply lookup_update_chan_ne; [reflexivity | exact Hne].
  - apply ids_update_chan. reflexivity.
Qed.

(** X20: [L2cap.tx] appends the payload to the sent data of the channel and
    [L2cap.rx] to its received data, which [rx_data_get] then returns
    without polling; neither touches the data of the other direction or of
    another channel, and for an unknown channel nothing is stored. *)
Theorem l2cap_data_accumulates (l : L2cap.t) (i : Z) (data : list Z)
    (j : Z) (sched : list (Tick (list (list Z)))) :
  L2cap.tx_data_get (L2cap.tx l i data) i
  = option_map (fun sent => sent ++ [data]) (L2cap.tx_data_get l i) /\
  L2cap.rx_data_get (L2cap.rx l i data) i sched
  = Returned (option_map (fun c => L2capChan.data_rx c ++ [data])
                (L2cap.chan_lookup_id l i)) /\
  L2cap.rx_data_get (L2cap.tx l i data) j sched = L2cap.rx_data_get l j sched /\
  L2cap.tx_data_get (L2cap.rx l i data) j = L2cap.tx_data_get l j /\
  (i <> j ->
   L2cap.tx_data_get (L2cap.tx l i data) j = L2cap.tx_data_get l j /\
   L2cap.rx_data_get (L2cap.rx l i data) j sched
   = L2cap.rx_data_get l j sched) /\
  (L2cap.chan_lookup_id l i = None ->
   L2cap.tx l i data = l /\ L2cap.rx l i data = l).
Proof.
  assert (Htx : forall k,
    L2cap.chan_lookup_id (L2cap.tx l i data) k
    = if k =? i
      then option_map (fun c => L2capChan.tx c data) (L2cap.chan_lookup_id l i)
      else L2cap.chan_lookup_id l k).
  { intros k. unfold L2cap.tx.
    destruct (L2cap.chan_lookup_id l i) as [c|] eqn:Hl.
    - unfold L2cap.chan_lookup_id in *. simpl.
      destruct (Z.eqb_spec k i) as [->|Hne].
      + rewrite lookup_update_chan by reflexivity. rewrite Hl. reflexivity.
      + apply lookup_update_chan_ne; [reflexivity | lia].
    - destruct (Z.eqb_spec k i) as [->|Hne]; [exact Hl | reflexivity]. }
  assert (Hrx : forall k,
    L2cap.chan_lookup_id (L2cap.rx l i data) k
    = if k =? i
      then option_map (fun c => L2capChan.rx c data) (L2cap.chan_lookup_id l i)
      else L2cap.chan_lookup_id l k).
  { intros k. unfold L2cap.rx.
    destruct (L2cap.chan_lookup_id l i) as [c|] eqn:Hl.
    - unfold L2cap.chan_lookup_id in *. simpl.
      destruct (Z.eqb_spec k i) as [->|Hne].
      + rewrite lookup_update_chan by reflexivity. rewrite Hl. reflexivity.
      + apply lookup_update_chan_ne; [reflexivity | lia].
    - destruct (Z.eqb_spec k i) as [->|Hne]; [exact Hl | reflexivity]. }
  unfold L2cap.tx_data_get, L2cap.rx_data_get.
  split; [| split; [| split; [| split; [| split]]]].
  - rewrite Htx, Z.eqb_refl.
    destruct (L2cap.chan_lookup_id l i); reflexivity.
  - rewrite Hrx, Z.eqb_refl.
    destruct (L2cap.chan_lookup_id l i) as [c|]; simpl; [| reflexivity].
    unfold L2capChan.rx_data_get. simpl. rewrite length_app. simpl.
    replace (length (L2capChan.data_rx c) + 1)%nat
      with (S (length (L2capChan.data_rx c))) by lia.
    reflexivity.
  - rewrite Htx. destruct (Z.eqb_spec j i) as [->|Hne]; [| reflexivity].
    destruct (L2cap.chan_lookup_id l i); reflexivity.
  - rewrite Hrx. destruct (Z.eqb_spec j i) as [->|Hne]; [| reflexivity].
    destruct (L2cap.chan_lookup_id l i); reflexivity.
  - intros Hne. rewrite Htx, Hrx.
    assert ((j =? i) = false) as -> by (apply Z.eqb_neq; lia).
    split; reflexivity.
  - intros Hl. unfold L2cap.tx, L2cap.rx. rewrite Hl. split; reflexivity.
Qed.

Lemma l2cap_data_accumulates_witness :
  L2cap.tx (L2cap.init 128 64) 5 [1; 2] = L2cap.init 128 64.
Proof.
  destruct (l2cap_data_accumulates (L2cap.init 128 64) 5 [1; 2] 5 [])
    as (_ & _ & _ & _ & _ & Hunknown).
  exact (proj1 (Hunknown eq_refl)).
Defined.

(** ** GAP facade: waits on a property *)

Lemma wait_data_loop_decisive (idle : list (Tick PyVal)) (tk : Tick PyVal)
    (rest : list (Tick PyVal)) :
  Forall (fun t => idle_tick truthy t = true) idle ->
  idle_tick truthy tk = false ->
  Gap.wait_data_loop (idle ++ tk :: rest)
  = if negb (flag_is_set tk) then Returned (seen tk)
    else if GLOBAL_END tk then Raised GlobalEnd
    else Returned (seen tk).
Proof.
  intros Hidle Htk. induction Hidle as [|t idle Ht _ IH]; simpl.
  - unfold idle_tick in Htk.
    destruct (flag_is_set tk); simpl in *; [| reflexivity].
    destruct (GLOBAL_END tk); simpl in *; [reflexivity |].
    destruct (truthy (seen tk)); simpl in *; [reflexivity | discriminate].
  - unfold idle_tick in Ht.
    destruct (flag_is_set t); simpl in *; [| discriminate].
    destruct (GLOBAL_END t); simpl in *; [discriminate |].
    destruct (truthy (seen t)); simpl in *; [discriminate | exact IH].
Qed.

(** X21: [Gap.get_passkey], [gap_wait_for_pairing_fail] and
    [gap_wait_for_lost_bond] return the value at once when it is not [None]
    at the call, falsy or not.  Otherwise only a truthy value ends the
    loop: a falsy value that arrives during the wait (a passkey of [0]) is
    returned at the deadline only. *)
Theorem gap_data_waits_first_decisive_poll (data : PyVal)
    (idle : list (Tick PyVal)) (tk : Tick PyVal) (rest : list (Tick PyVal))
    (Hidle : Forall (fun t => idle_tick truthy t = true) idle)
    (Htk : idle_tick truthy tk = false) :
  let result :=
    if Gap.is_none data then
      if negb (flag_is_set tk) then Returned (seen tk)
      else if GLOBAL_END tk then Raised GlobalEnd
      else Returned (seen tk)
    else Returned data in
  Gap.get_passkey data (idle ++ tk :: rest) = result /\
  Gap.gap_wait_for_pairing_fail data (idle ++ tk :: rest) = result /\
  Gap.gap_wait_for_lost_bond data (idle ++ tk :: rest) = result.
Proof.
  intros result. unfold result, Gap.get_passkey, Gap.gap_wait_for_pairing_fail,
    Gap.gap_wait_for_lost_bond.
  destruct (Gap.is_none data); [| repeat split].
  rewrite (wait_data_loop_decisive idle tk rest Hidle Htk). repeat split.
Qed.

Lemma gap_data_waits_first_decisive_poll_witness :
  Gap.get_passkey PNone
    ([mkTick true false PNone; mkTick true false (PInt 0)]
       ++ mkTick false false (PInt 0) :: [])
  = Returned (PInt 0).
Proof.
  apply (gap_data_waits_first_decisive_poll PNone
           [mkTick true false PNone; mkTick true false (PInt 0)]
           (mkTick false false (PInt 0)) []).
  - repeat constructor.
  - reflexivity.
Defined.

Lemma wait_periodic_loop_reset (sched : list (Tick bool)) :
  snd (Gap.wait_periodic_loop sched) = true <->
  fst (Gap.wait_periodic_loop sched) = Returned true.
Proof.
  induction sched as [|tk sched IH]; simpl.
  - split; discriminate.
  - destruct (flag_is_set tk); simpl; [| split; discriminate].
    destruct (GLOBAL_END tk); simpl; [split; discriminate |].
    destruct (seen tk); simpl; [split; reflexivity | exact IH].
Qed.

(** X22: [Gap.wait_periodic_report], [wait_periodic_established] and
    [wait_periodic_transfer_received] reset their flag exactly when the
    flag was unset at the call and the loop returned [True]; a flag that is
    already set at the call is left set. *)
Theorem periodic_flag_reset_only_by_the_loop (rxed : bool)
    (sched : list (Tick bool)) :
  (snd (Gap.wait_periodic_report rxed sched) = true <->
   rxed = false /\ fst (Gap.wait_periodic_report rxed sched) = Returned true) /\
  (snd (Gap.wait_periodic_established rxed sched) = true <->
   rxed = false /\
   fst (Gap.wait_periodic_established rxed sched) = Returned true) /\
  (snd (Gap.wait_periodic_transfer_received rxed sched) = true <->
   rxed = false /\
   fst (Gap.wait_periodic_transfer_received rxed sched) = Returned true).
Proof.
  unfold Gap.wait_periodic_report, Gap.wait_periodic_established,
    Gap.wait_periodic_transfer_received.
  destruct rxed; simpl.
  - repeat split; try discriminate; intros [H _]; discriminate H.
  - pose proof (wait_periodic_loop_reset sched) as H. tauto.
Qed.

(** ** GAP facade: the current settings *)

(** X23: [Gap.current_settings_set] and [current_settings_clear] never add
    or drop a key.  After [set] the setting reads [True] if the key is
    known and [False] if it is not; after [clear] it reads [False]; the
    other settings read as before. *)
Theorem current_settings_keep_their_keys (data : gmap string bool)
    (key key' : string) :
  dom (Gap.current_settings_set data key) = dom data /\
  dom (Gap.current_settings_clear data key) = dom data /\
  Gap.current_settings_get (Gap.current_settings_set data key) key'
  = (if decide (key' = key) then bool_decide (is_Some (data !! key))
     else Gap.current_settings_get data key') /\
  Gap.current_settings_get (Gap.current_settings_clear data key) key'
  = (if decide (key' = key) then false
     else Gap.current_settings_get data key').
Proof.
  unfold Gap.current_settings_set, Gap.current_settings_clear,
    Gap.current_settings_get.
  destruct (data !! key) as [b|] eqn:Hk.
  - split; [| split; [| split]].
    + apply dom_insert_lookup_L. rewrite Hk. eauto.
    + apply dom_insert_lookup_L. rewrite Hk. eauto.
    + destruct (decide (key' = key)) as [->|Hne].
      * rewrite lookup_insert_eq. rewrite bool_decide_eq_true_2 by eauto.
        reflexivity.
      * rewrite lookup_insert_ne by congruence. reflexivity.
    + destruct (decide (key' = key)) as [->|Hne].
      * rewrite lookup_insert_eq. reflexivity.
      * rewrite lookup_insert_ne by congruence. reflexivity.
  - repeat split.
    + destruct (decide (key' = key)) as [->|Hne]; [| reflexivity].
      rewrite Hk. rewrite bool_decide_eq_false_2; [reflexivity |].
      intros [x Hx]. discriminate Hx.
    + destruct (decide (key' = key)) as [->|Hne]; [| reflexivity].
      rewrite Hk. reflexivity.
Qed.

(** ** Supported services: one bit per service *)

Lemma land_shift_one (s n : Z) :
  0 <= n -> (0 <? Z.land s (Z.shiftl 1 n)) = Z.testbit s n.
Proof.
  intros Hn. rewrite Z.shiftl_1_l.
  assert (Hland : Z.land s (2 ^ n) = if Z.testbit s n then 2 ^ n else 0).
  { apply Z.bits_inj'. intros m Hm.
    rewrite Z.land_spec, Z.pow2_bits_eqb by exact Hn.
    destruct (Z.eqb_spec n m) as [->|Hne].
    - destruct (Z.testbit s m) eqn:Hb; simpl.
      + rewrite Z.pow2_bits_true by exact Hm. reflexivity.
      + rewrite Z.bits_0. reflexivity.
    - rewrite andb_false_r. destruct (Z.testbit s n).
      + rewrite Z.pow2_bits_false by exact Hne. reflexivity.
      + rewrite Z.bits_0. reflexivity. }
  rewrite Hland. destruct (Z.testbit s n).
  - apply Z.ltb_lt. apply Z.pow_pos_nonneg; lia.
  - reflexivity.
Qed.

Lemma service_names_distinct : List.NoDup (map fst service_ids).
Proof.
  apply NoDup_ListNoDup.
  refine (bool_decide_unpack (NoDup (map fst service_ids)) _).
  vm_compute. exact I.
Qed.

Lemma build_services_lookup (defs : string -> Z)
    (ids : list (string * string)) (acc : gmap string Z) :
  Forall (fun e => 0 <= defs (snd e)) ids ->
  List.NoDup (map fst ids) ->
  exists services,
    build_services defs ids acc = inr services /\
    (forall name const, In (name, const) ids ->
       services !! name = Some (Z.shiftl 1 (defs const))) /\
    (forall name, ~ In name (map fst ids) -> services !! name = acc !! name).
Proof.
  intros Hids. revert acc.
  induction Hids as [|[n c] ids Hc _ IH]; intros acc Hnd; simpl.
  - exists acc. split; [reflexivity |]. split; [intros ? ? [] | reflexivity].
  - simpl in Hc, Hnd. apply List.NoDup_cons_iff in Hnd as [Hn Hnd].
    unfold shift_one. assert ((defs c <? 0) = false) as -> by lia.
    destruct (IH (<[n := Z.shiftl 1 (defs c)]> acc) Hnd)
      as (services & Hb & Hin & Hout).
    exists services. split; [exact Hb |]. split.
    + intros name const [Heq|Hi].
      * injection Heq as <- <-. rewrite (Hout n Hn).
        apply lookup_insert_eq.
      * apply Hin. exact Hi.
    + intros name Hname. rewrite Hout by tauto.
      apply lookup_insert_ne. tauto.
Qed.

Lemma build_services_negative (defs : string -> Z)
    (ids : list (string * string)) (acc : gmap string Z) :
  Exists (fun e => defs (snd e) < 0) ids ->
  build_services defs ids acc = inl NegativeShiftCount.
Proof.
  revert acc. induction ids as [|[n c] ids IH]; intros acc Hex; simpl.
  - inversion Hex.
  - unfold shift_one. destruct (Z.ltb_spec (defs c) 0) as [Hneg|Hpos];
      [reflexivity |].
    apply IH. inversion Hex as [? ? Hh|? ? Ht]; subst; [simpl in Hh; lia |].
    exact Ht.
Qed.

(** X24: when the service ids of [defs] are not negative,
    [Stack.is_svc_supported] of a listed service is bit number
    [BTP_SERVICE_ID] of [supported_svcs], also when [supported_svcs] is
    negative. *)
Theorem is_svc_supported_reads_one_bit (defs : string -> Z)
    (supported_svcs : Z) (svc const : string)
    (Hids : Forall (fun e => 0 <= defs (snd e)) service_ids)
    (Hsvc : In (svc, const) service_ids) :
  is_svc_supported defs supported_svcs svc
  = inr (Z.testbit supported_svcs (defs const)).
Proof.
  unfold is_svc_supported.
  destruct (build_services_lookup defs service_ids ∅ Hids
              service_names_distinct) as (services & -> & Hin & _).
  rewrite (Hin svc const Hsvc). f_equal. apply land_shift_one.
  rewrite List.Forall_forall in Hids. exact (Hids (svc, const) Hsvc).
Qed.

Lemma is_svc_supported_reads_one_bit_witness :
  is_svc_supported (fun _ => 2) (-4) "GATT_CL" = inr true.
Proof.
  apply (is_svc_supported_reads_one_bit (fun _ => 2) (-4) "GATT_CL"
           "BTP_SERVICE_ID_GATTC").
  - apply List.Forall_forall. intros e _. simpl. lia.
  - simpl. tauto.
Defined.

(** X25: [Stack.is_svc_supported] raises for every service name when one
    id of [defs] is negative (the dictionary is built before the lookup),
    and raises [KeyError] for a name that is not listed. *)
Theorem is_svc_supported_raises (defs : string -> Z) (supported_svcs : Z)
    (svc : string) :
  (Exists (fun e => defs (snd e) < 0) service_ids ->
   is_svc_supported defs supported_svcs svc = inl NegativeShiftCount) /\
  (Forall (fun e => 0 <= defs (snd e)) service_ids ->
   ~ In svc (map fst service_ids) ->
   is_svc_supported defs supported_svcs svc = inl KeyError).
Proof.
  unfold is_svc_supported. split.
  - intros Hex. rewrite build_services_negative by exact Hex. reflexivity.
  - intros Hids Hsvc.
    destruct (build_services_lookup defs service_ids ∅ Hids
                service_names_distinct) as (services & -> & _ & Hout).
    rewrite (Hout svc Hsvc). rewrite lookup_empty. reflexivity.
Qed.

(** ** GATT server database: values and change counters *)

(** X26: [Gatt.attr_value_get] after [Gatt.attr_value_set(handle, value)]
    gives [value] for [handle] and what it gave before for every other
    handle; the change counters are untouched, and the change flag of
    [handle] is kept, or unset when the attribute is new. *)
Theorem gatt_value_round_trip (db : GattDB) (h h' : Z) (v : PyVal) :
  Gatt.attr_value_get (Gatt.attr_value_set db h v) h'
  = (if decide (h' = h) then v else Gatt.attr_value_get db h') /\
  Gatt.attr_value_get_changed_cnt (Gatt.attr_value_set db h v) h'
  = Gatt.attr_value_get_changed_cnt db h' /\
  option_map has_changed (attr_lookup_handle (Gatt.attr_value_set db h v) h')
  = (if decide (h' = h)
     then Some (match attr_lookup_handle db h with
                | Some attr => has_changed attr
                | None => false
                end)
     else option_map has_changed (attr_lookup_handle db h')).
Proof.
  unfold Gatt.attr_value_get, Gatt.attr_value_get_changed_cnt,
    Gatt.attr_value_set, attr_add, attr_lookup_handle, GattDB in *.
  destruct (decide (h' = h)) as [->|Hne].
  - destruct (db !! h) as [attr|] eqn:Hh; cbv beta iota;
      rewrite !lookup_insert_eq; repeat split.
  - destruct (db !! h) as [attr|] eqn:Hh; cbv beta iota;
      rewrite !lookup_insert_ne by congruence; repeat split.
Qed.

Lemma set_changed_iter_known (db : GattDB) (h : Z) (n : nat)
    (attr : GattCharacteristicDescriptor) :
  db !! h = Some attr ->
  Nat.iter n (fun d => Gatt.attr_value_set_changed d h) db
  = match n with
    | O => db
    | S _ =>
        <[h := with_changed (has_changed_cnt attr + Z.of_nat n) true attr]> db
    end.
Proof.
  intros Hh. induction n as [|n IH]; [reflexivity |].
  rewrite Nat.iter_succ, IH.
  unfold Gatt.attr_value_set_changed, attr_lookup_handle, GattDB in *.
  destruct n as [|n].
  - rewrite Hh. reflexivity.
  - rewrite lookup_insert_eq, insert_insert_eq. simpl has_changed_cnt.
    unfold with_changed. simpl.
    replace (has_changed_cnt attr + Z.of_nat (S n) + 1)
      with (has_changed_cnt attr + Z.of_nat (S (S n))) by lia.
    reflexivity.
Qed.

(** X27: [n] calls of [Gatt.attr_value_set_changed(handle)] add [n] to the
    change counter of a known handle and leave the counter of an unknown
    handle at 0; they change no value.  [attr_value_clr_changed] then
    brings the counter back to 0, and none of these calls adds an
    attribute. *)
Theorem gatt_changed_counter (db : GattDB) (h h' : Z) (n : nat) :
  let notified := Nat.iter n (fun d => Gatt.attr_value_set_changed d h) db in
  Gatt.attr_value_get_changed_cnt notified h'
  = (if decide (h' = h)
     then match attr_lookup_handle db h with
          | Some attr => has_changed_cnt attr + Z.of_nat n
          | None => 0
          end
     else Gatt.attr_value_get_changed_cnt db h') /\
  Gatt.attr_value_get notified h' = Gatt.attr_value_get db h' /\
  Gatt.attr_value_get_changed_cnt (Gatt.attr_value_clr_changed notified h) h'
  = (if decide (h' = h) then 0 else Gatt.attr_value_get_changed_cnt db h') /\
  dom (Gatt.attr_value_clr_changed notified h) = dom db.
Proof.
  intros notified. unfold notified.
  destruct (db !! h) as [attr|] eqn:Hh.
  - rewrite (set_changed_iter_known db h n attr Hh).
    unfold Gatt.attr_value_get_changed_cnt, Gatt.attr_value_get,
      Gatt.attr_value_clr_changed, attr_lookup_handle, GattDB in *.
    rewrite Hh.
    destruct n as [|n].
    + rewrite Hh. destruct (decide (h' = h)) as [->|Hne].
      * rewrite Hh, lookup_insert_eq.
        split; [simpl; lia |]. split; [reflexivity |].
        split; [reflexivity |].
        apply dom_insert_lookup_L. rewrite Hh. eauto.
      * rewrite lookup_insert_ne by congruence.
        split; [reflexivity |]. split; [reflexivity |].
        split; [reflexivity |].
        apply dom_insert_lookup_L. rewrite Hh. eauto.
    + rewrite lookup_insert_eq, insert_insert_eq.
      destruct (decide (h' = h)) as [->|Hne].
      * rewrite !lookup_insert_eq, Hh.
        split; [reflexivity |]. split; [reflexivity |].
        split; [reflexivity |].
        apply dom_insert_lookup_L. rewrite Hh. eauto.
      * rewrite !lookup_insert_ne by congruence.
        split; [reflexivity |]. split; [reflexivity |].
        split; [reflexivity |].
        apply dom_insert_lookup_L. rewrite Hh. eauto.
  - assert (Hiter : Nat.iter n (fun d => Gatt.attr_value_set_changed d h) db
                    = db).
    { induction n as [|n IH]; [reflexivity |].
      rewrite Nat.iter_succ, IH. unfold Gatt.attr_value_set_changed,
        attr_lookup_handle. rewrite Hh. reflexivity. }
    rewrite Hiter.
    unfold Gatt.attr_value_get_changed_cnt, Gatt.attr_value_get,
      Gatt.attr_value_clr_changed, attr_lookup_handle, GattDB in *.
    rewrite Hh.
    destruct (decide (h' = h)) as [->|Hne]; [rewrite Hh |]; repeat split.
Qed.

(** X28: [Gatt.wait_attr_value_changed] on an unknown handle adds a
    descriptor with value [None] and leaves the rest of the database as it
    was, so a change signalled afterwards is counted, whereas one signalled
    for a handle nobody has set or waited for is lost. *)
Theorem gatt_wait_registers_the_attribute (db : GattDB) (h h' : Z)
    (sched : list (Tick GattCharacteristicDescriptor)) :
  let db' := snd (Gatt.wait_attr_value_changed db h sched) in
  attr_lookup_handle db' h
  = Some (match attr_lookup_handle db h with
          | Some attr => attr
          | None => GattCharacteristicDescriptor_init h PNone PNone PNone PNone
          end) /\
  (h' <> h -> attr_lookup_handle db' h' = attr_lookup_handle db h') /\
  Gatt.attr_value_get_changed_cnt (Gatt.attr_value_set_changed db' h) h
  = Gatt.attr_value_get_changed_cnt db h + 1 /\
  (attr_lookup_handle db h = None ->
   Gatt.attr_value_get_changed_cnt (Gatt.attr_value_set_changed db h) h = 0).
Proof.
  intros db'.
  assert (Hdb' : db' = match attr_lookup_handle db h with
                       | Some _ => db
                       | None =>
                           attr_add db h
                             (GattCharacteristicDescriptor_init h PNone PNone
                                PNone PNone)
                       end).
  { unfold db', Gatt.wait_attr_value_changed.
    destruct (Gatt.has_changed_wait sched) as [[attr|]|e|]; reflexivity. }
  rewrite Hdb'. clear Hdb' db'.
  unfold Gatt.attr_value_get_changed_cnt, Gatt.attr_value_set_changed,
    attr_add, attr_lookup_handle, GattDB in *.
  destruct (db !! h) as [attr|] eqn:Hh.
  - rewrite Hh, lookup_insert_eq. repeat split. discriminate.
  - rewrite !lookup_insert_eq. split; [reflexivity |].
    split; [intros Hne; apply lookup_insert_ne; congruence |].
    split; [reflexivity |]. intros _. rewrite Hh. reflexivity.
Qed.

(** ** GATT client waits: counts that cannot be met *)

Lemma wait_for_event_never_satisfied {S : Type} (test : S -> bool) (now : S)
    (sched : list (Tick S)) :
  test now = false ->
  Forall (fun tk => test (seen tk) = false) sched ->
  wait_for_event test now sched = wait_for_event (fun _ => false) now sched.
Proof.
  intros Hnow Hsched. unfold wait_for_event. rewrite Hnow.
  induction Hsched as [|tk sched Htk _ IH]; simpl; [reflexivity |].
  destruct (flag_is_set tk); simpl; [| reflexivity].
  destruct (GLOBAL_END tk); simpl; [reflexivity |].
  rewrite Htk. exact IH.
Qed.

Lemma wait_for_event_false_not_true {S : Type} (now : S)
    (sched : list (Tick S)) :
  wait_for_event (fun _ => false) now sched <> Returned true.
Proof.
  unfold wait_for_event. induction sched as [|tk sched IH]; simpl;
    [discriminate |].
  destruct (flag_is_set tk); simpl; [| discriminate].
  destruct (GLOBAL_END tk); simpl; [discriminate | exact IH].
Qed.

Lemma growing_longer {A : Type} (now : list A) (sched : list (Tick (list A)))
    (n : nat) :
  growing now sched -> (n < length now)%nat ->
  Forall (fun tk => (n < length (seen tk))%nat) sched.
Proof.
  revert now. induction sched as [|tk sched IH]; intros now Hg Hn;
    [constructor |].
  destruct Hg as [[more Hmore] Hg].
  assert (Htk : (n < length (seen tk))%nat).
  { rewrite Hmore, length_app. lia. }
  constructor; [exact Htk |]. exact (IH (seen tk) Hg Htk).
Qed.

(** X29: [GattCl.wait_for_notifications] tests the number of notifications
    for equality with a positive expected count.  Once the list, which only
    grows, is longer than the count, the wait behaves as one whose test
    never holds: it does not return [True]. *)
Theorem notifications_past_the_count_never_match {A : Type}
    (notifications : list A) (expected_count : Z)
    (sched : list (Tick (list A)))
    (Hcount : 0 < expected_count)
    (Hpast : expected_count < Z.of_nat (length notifications))
    (Hgrow : growing notifications sched) :
  GattCl.wait_for_notifications notifications expected_count sched
  = wait_for_event (fun _ => false) notifications sched /\
  GattCl.wait_for_notifications notifications expected_count sched
  <> Returned true.
Proof.
  assert (Heq : GattCl.wait_for_notifications notifications expected_count
                  sched
                = wait_for_event (fun _ => false) notifications sched).
  { unfold GattCl.wait_for_notifications.
    assert (Hfalse : forall l : list A,
              (Z.to_nat expected_count < length l)%nat ->
              is_notification_rxed l expected_count = false).
    { intros l Hl. unfold is_notification_rxed.
      assert ((0 <? expected_count) = true) as -> by lia. lia. }
    apply wait_for_event_never_satisfied.
    - apply Hfalse. lia.
    - eapply Forall_impl;
        [apply (growing_longer notifications sched (Z.to_nat expected_count));
         [exact Hgrow | lia] |].
      intros tk Htk. apply Hfalse. exact Htk. }
  split; [exact Heq |]. rewrite Heq. apply wait_for_event_false_not_true.
Qed.

Lemma notifications_past_the_count_never_match_witness :
  GattCl.wait_for_notifications [7; 8] 1
    [mkTick true false [7; 8]; mkTick true false [7; 8; 9];
     mkTick false false [7; 8; 9]]
  <> Returned true.
Proof.
  apply (notifications_past_the_count_never_match [7; 8] 1
           [mkTick true false [7; 8]; mkTick true false [7; 8; 9];
            mkTick false false [7; 8; 9]]).
  - lia.
  - simpl. lia.
  - simpl. repeat split; [exists [] | exists [9] | exists []]; reflexivity.
Defined.

(** X30: [GattCl.wait_for_prim_svcs], [wait_for_incl_svcs],
    [wait_for_chrcs] and [wait_for_descs] do not return [True] as long as
    the expected count stays [None], whatever has been discovered. *)
Theorem discovery_wait_without_count_never_completes {A : Type}
    (svcs : list A) (sched : list (Tick (list A * option Z)))
    (Hcnt : Forall (fun tk => snd (seen tk) = None) sched) :
  GattCl.wait_for_prim_svcs (svcs, None) sched <> Returned true /\
  GattCl.wait_for_incl_svcs (svcs, None) sched <> Returned true /\
  GattCl.wait_for_chrcs (svcs, None) sched <> Returned true /\
  GattCl.wait_for_descs (svcs, None) sched <> Returned true.
Proof.
  assert (H : wait_for_event
                (fun g : list A * option Z => is_procedure_done (fst g) (snd g))
                (svcs, None) sched <> Returned true).
  { rewrite wait_for_event_never_satisfied.
    - apply wait_for_event_false_not_true.
    - reflexivity.
    - eapply Forall_impl; [exact Hcnt |]. intros tk Htk. simpl in Htk.
      rewrite Htk. reflexivity. }
  repeat split; exact H.
Qed.

Lemma discovery_wait_without_count_never_completes_witness :
  GattCl.wait_for_prim_svcs ([] : list Z, None)
    [mkTick true false ([1], None); mkTick false false ([1; 2], None)]
  <> Returned true.
Proof.
  apply (discovery_wait_without_count_never_completes ([] : list Z)
           [mkTick true false ([1], None); mkTick false false ([1; 2], None)]).
  repeat constructor.
Defined.
